(** * VeriFund: the quadratic-voting round and the milestone-funding escrow

    A shallow embedding of the two Solidity contracts of the repository,
    [QuadraticVoting.sol] and [MilestoneFunding.sol], and the properties of
    their state machines.

    Conventions of the embedding:
    - a [uint256] is an [N] below [2^256]; Solidity 0.8 arithmetic is checked,
      so every [+], [*], [-], [/] and [++] of the source is a [checked_*]
      operation that reverts with [Panic] instead of wrapping;
    - an [address] is an [N]; [address(0)] is [0];
    - a [mapping] is a total function (every key holds the zero value until it
      is written);
    - an external function is a function from the transaction context
      ([msg.sender], [block.timestamp]) and the pre-state to a [Result]:
      [Ok] with the post-state, or [Revert] with the error, in which case the
      transaction has no effect. *)

From Stdlib Require Import NArith ZArith List Bool String Lia.
From Equations Require Import Equations.
Import ListNotations.

#[local] Open Scope N_scope.

(** ** Execution base: results, checked arithmetic, mappings *)

Module Evm.

Inductive Error : Type :=
| InvalidVotingPhase
| InvalidVoteCount
| AlreadyVoted
| InvalidCommitment
| InsufficientCredits
| NotQualifiedVoter
| RequireFailed (reason : string)
| MissingRole
| PausablePaused
| TransferFailed
| Panic.

Inductive Result (A : Type) : Type :=
| Ok (a : A)
| Revert (e : Error).

Arguments Ok {A} a.
Arguments Revert {A} e.

Definition bind {A B : Type} (r : Result A) (k : A -> Result B) : Result B :=
  match r with
  | Ok a => k a
  | Revert e => Revert e
  end.

Definition require (c : bool) (reason : string) : Result unit :=
  if c then Ok tt else Revert (RequireFailed reason).

Definition revert_if (c : bool) (e : Error) : Result unit :=
  if c then Revert e else Ok tt.

Definition is_ok {A : Type} (r : Result A) : bool :=
  match r with Ok _ => true | Revert _ => false end.

Definition value_or {A : Type} (default : A) (r : Result A) : A :=
  match r with Ok a => a | Revert _ => default end.

Definition MAX_UINT256 : N := 2 ^ 256 - 1.

Definition is_uint256 (n : N) : Prop := n <= MAX_UINT256.

Definition checked_add (a b : N) : Result N :=
  if a + b <=? MAX_UINT256 then Ok (a + b) else Revert Panic.

Definition checked_mul (a b : N) : Result N :=
  if a * b <=? MAX_UINT256 then Ok (a * b) else Revert Panic.

Definition checked_sub (a b : N) : Result N :=
  if b <=? a then Ok (a - b) else Revert Panic.

Definition checked_div (a b : N) : Result N :=
  if b =? 0 then Revert Panic else Ok (a / b).

(** [m[k] = v] on a mapping. *)
Definition upd {V : Type} (m : N -> V) (k : N) (v : V) : N -> V :=
  fun k' => if k' =? k then v else m k'.

(** The context of one transaction. *)
Record Env : Type := mkEnv {
  msg_sender : N;
  block_timestamp : N
}.

(** A transaction is sent by an externally owned account, never by
    [address(0)], at a [uint256] timestamp. *)
Definition valid_env (e : Env) : Prop :=
  0 < msg_sender e /\ msg_sender e < 2 ^ 160 /\ is_uint256 (block_timestamp e).

End Evm.

Export Evm.

Declare Scope evm_scope.
Delimit Scope evm_scope with evm.
Notation "x <- c ;; k" := (bind c (fun x => k))
  (at level 61, c at next level, right associativity) : evm_scope.
Notation "c ;;; k" := (bind c (fun _ => k))
  (at level 61, right associativity) : evm_scope.
#[local] Open Scope evm_scope.

(** ** The integer square root of [QuadraticVoting._sqrt] *)

Module Sqrt.

(** One Newton step, [(x / z + z) / 2], in checked arithmetic. *)
Definition newton (x z : N) : Result N :=
  q <- checked_div x z ;;
  s <- checked_add q z ;;
  checked_div s 2.

(** Remembers the equation of a test for the termination proof. *)
Definition inspect {A : Type} (a : A) : {b : A | a = b} := exist _ a eq_refl.

(** The order the loop descends along; the guard lets the loop evaluate
    without unfolding the proof of well-foundedness. *)
#[local] Instance N_lt_wf : WellFounded N.lt :=
  Acc_intro_generator 12 N.lt_wf_0.

#[local] Unset Equations With Funext.

(** [while (z < y) { y = z; z = (x / z + z) / 2; } return y;]
    The loop variable [y] decreases strictly, which is the termination
    argument of the definition. *)
Equations? sqrt_loop (x z y : N) : Result N by wf y N.lt :=
  sqrt_loop x z y with inspect (z <? y) => {
    | exist _ true Hlt with newton x z => {
        | Ok z' => sqrt_loop x z' z
        | Revert e => Revert e }
    | exist _ false _ => Ok y }.
Proof.
  now apply N.ltb_lt.
Qed.

Definition _sqrt (x : N) : Result N :=
  if x =? 0 then Ok 0
  else
    x1 <- checked_add x 1 ;;
    z <- checked_div x1 2 ;;
    sqrt_loop x z x.

End Sqrt.

(** ** The voting contract, [QuadraticVoting.sol] *)

Module QuadraticVoting.

(** [keccak256] and OpenZeppelin's [MerkleProof.verify] are imported by the
    contract; the embedding is parametric in them. *)
Class Crypto : Type := {
  (** [keccak256(abi.encodePacked(proposalId, voteCount, nonce))] *)
  keccak_vote : N -> N -> N -> N;
  (** [keccak256(abi.encodePacked(voter))] *)
  keccak_address : N -> N;
  (** [MerkleProof.verify(proof, root, leaf)] *)
  MerkleProof_verify : list N -> N -> N -> bool
}.

Inductive Role : Type := DEFAULT_ADMIN_ROLE | ADMIN_ROLE | VOTER_ROLE.

Definition role_eqb (a b : Role) : bool :=
  match a, b with
  | DEFAULT_ADMIN_ROLE, DEFAULT_ADMIN_ROLE => true
  | ADMIN_ROLE, ADMIN_ROLE => true
  | VOTER_ROLE, VOTER_ROLE => true
  | _, _ => false
  end.

Record VotingRound : Type := mkVotingRound {
  startTime : N;
  endTime : N;
  commitEndTime : N;
  totalCredits : N;
  totalProposals : N;
  finalized : bool;
  merkleRoot : N
}.

Record Vote : Type := mkVote {
  commitment : N;
  votesRevealed : N;
  revealed : bool;
  counted : bool
}.

Record ProposalResult : Type := mkProposalResult {
  totalVotes : N;
  quadraticScore : N;
  uniqueVoters : N;
  qualified : bool
}.

Inductive Event : Type :=
| RoundStarted (roundId start finish : N)
| VoteCommitted (roundId voter commit : N)
| VoteRevealed (roundId voter proposalId count : N)
| RoundFinalized (roundId total : N).

Definition CREDITS_PER_ROUND : N := 100.
Definition MIN_VOTES_THRESHOLD : N := 50.
Definition MAX_VOTES_PER_PROPOSAL : N := 10.

(** The storage of the contract; [_paused] and [_roles] are the inherited
    storage of [PausableUpgradeable] and [AccessControlUpgradeable], [events]
    is the log of the events the contract declares (latest first). *)
Record State : Type := mkState {
  _paused : bool;
  _roles : Role -> N -> bool;
  currentRoundId : N;
  votingRounds : N -> VotingRound;
  votes : N -> N -> Vote;
  results : N -> N -> ProposalResult;
  voterReputationScore : N -> N;
  events : list Event
}.

Definition set_paused (b : bool) (s : State) : State :=
  mkState b (_roles s) (currentRoundId s) (votingRounds s) (votes s)
          (results s) (voterReputationScore s) (events s).

Definition set_role (r : Role) (a : N) (b : bool) (s : State) : State :=
  mkState (_paused s)
          (fun r' a' => if role_eqb r' r && (a' =? a) then b else _roles s r' a')
          (currentRoundId s) (votingRounds s) (votes s)
          (results s) (voterReputationScore s) (events s).

Definition set_currentRoundId (n : N) (s : State) : State :=
  mkState (_paused s) (_roles s) n (votingRounds s) (votes s)
          (results s) (voterReputationScore s) (events s).

Definition set_round (id : N) (r : VotingRound) (s : State) : State :=
  mkState (_paused s) (_roles s) (currentRoundId s) (upd (votingRounds s) id r)
          (votes s) (results s) (voterReputationScore s) (events s).

Definition set_vote (id voter : N) (v : Vote) (s : State) : State :=
  mkState (_paused s) (_roles s) (currentRoundId s) (votingRounds s)
          (upd (votes s) id (upd (votes s id) voter v))
          (results s) (voterReputationScore s) (events s).

Definition set_result (id proposal : N) (r : ProposalResult) (s : State) : State :=
  mkState (_paused s) (_roles s) (currentRoundId s) (votingRounds s) (votes s)
          (upd (results s) id (upd (results s id) proposal r))
          (voterReputationScore s) (events s).

Definition set_reputation (voter n : N) (s : State) : State :=
  mkState (_paused s) (_roles s) (currentRoundId s) (votingRounds s) (votes s)
          (results s) (upd (voterReputationScore s) voter n) (events s).

Definition emit (ev : Event) (s : State) : State :=
  mkState (_paused s) (_roles s) (currentRoundId s) (votingRounds s) (votes s)
          (results s) (voterReputationScore s) (ev :: events s).

Definition zero_round : VotingRound := mkVotingRound 0 0 0 0 0 false 0.
Definition zero_vote : Vote := mkVote 0 0 false false.
Definition zero_result : ProposalResult := mkProposalResult 0 0 0 false.

(** [initialize(admin)] on the freshly deployed contract. *)
Definition initialize (admin : N) : State :=
  mkState false
          (fun r a => match r with
                      | DEFAULT_ADMIN_ROLE | ADMIN_ROLE => a =? admin
                      | VOTER_ROLE => false
                      end)
          0 (fun _ => zero_round) (fun _ _ => zero_vote)
          (fun _ _ => zero_result) (fun _ => 0) [].

(** The modifiers. [nonReentrant] always passes at the start of a
    transaction and is released at its end, so it is not part of the state. *)
Definition onlyRole (r : Role) (e : Env) (s : State) : Result unit :=
  if _roles s r (msg_sender e) then Ok tt else Revert MissingRole.

Definition whenNotPaused (s : State) : Result unit :=
  if _paused s then Revert PausablePaused else Ok tt.

Definition whenPaused (s : State) : Result unit :=
  if _paused s then Ok tt else Revert (RequireFailed "Pausable: not paused").

Section Contract.
Context {crypto : Crypto}.

Definition _verifyVoter (voter : N) (proof : list N) (root : N) : bool :=
  let leaf := keccak_address voter in
  MerkleProof_verify proof root leaf.

Definition startVotingRound (duration commitDuration root : N)
    (e : Env) (s : State) : Result State :=
  onlyRole ADMIN_ROLE e s ;;;
  require ((currentRoundId s =? 0) || finalized (votingRounds s (currentRoundId s)))
          "Previous round not finalized" ;;;
  id <- checked_add (currentRoundId s) 1 ;;
  let start := block_timestamp e in
  finish <- checked_add start duration ;;
  commitEnd <- checked_add start commitDuration ;;
  Ok (emit (RoundStarted id start finish)
       (set_round id (mkVotingRound start finish commitEnd 0 0 false root)
         (set_currentRoundId id s))).

Definition commitVote (commit : N) (merkleProof : list N)
    (e : Env) (s : State) : Result State :=
  whenNotPaused s ;;;
  let id := currentRoundId s in
  let round := votingRounds s id in
  let now := block_timestamp e in
  revert_if ((commitEndTime round <? now) || (now <? startTime round))
            InvalidVotingPhase ;;;
  revert_if (negb (_verifyVoter (msg_sender e) merkleProof (merkleRoot round)))
            NotQualifiedVoter ;;;
  let vote := votes s id (msg_sender e) in
  revert_if (negb (commitment vote =? 0)) AlreadyVoted ;;;
  Ok (emit (VoteCommitted id (msg_sender e) commit)
       (set_vote id (msg_sender e)
          (mkVote commit (votesRevealed vote) (revealed vote) (counted vote)) s)).

Definition revealVote (proposalId voteCount nonce : N)
    (e : Env) (s : State) : Result State :=
  whenNotPaused s ;;;
  let id := currentRoundId s in
  let round := votingRounds s id in
  let vote := votes s id (msg_sender e) in
  let now := block_timestamp e in
  revert_if ((now <? commitEndTime round) || (endTime round <? now))
            InvalidVotingPhase ;;;
  revert_if (revealed vote) AlreadyVoted ;;;
  let computedHash := keccak_vote proposalId voteCount nonce in
  revert_if (negb (computedHash =? commitment vote)) InvalidCommitment ;;;
  revert_if ((voteCount =? 0) || (MAX_VOTES_PER_PROPOSAL <? voteCount))
            InvalidVoteCount ;;;
  cost <- checked_mul voteCount voteCount ;;
  revert_if (CREDITS_PER_ROUND <? cost) InsufficientCredits ;;;
  let result := results s id proposalId in
  total <- checked_add (totalVotes result) voteCount ;;
  scaled <- checked_mul voteCount (10 ^ 18) ;;
  root <- Sqrt._sqrt scaled ;;
  score <- checked_add (quadraticScore result) root ;;
  voters <- checked_add (uniqueVoters result) 1 ;;
  credits <- checked_add (totalCredits round) cost ;;
  reputation <- checked_add (voterReputationScore s (msg_sender e)) 1 ;;
  Ok (emit (VoteRevealed id (msg_sender e) proposalId voteCount)
       (set_reputation (msg_sender e) reputation
         (set_round id
            (mkVotingRound (startTime round) (endTime round) (commitEndTime round)
                           credits (totalProposals round) (finalized round)
                           (merkleRoot round))
            (set_result id proposalId
               (mkProposalResult total score voters (qualified result))
               (set_vote id (msg_sender e)
                  (mkVote (commitment vote) voteCount true (counted vote)) s))))).

Definition finalizeRound (e : Env) (s : State) : Result State :=
  onlyRole ADMIN_ROLE e s ;;;
  let id := currentRoundId s in
  let round := votingRounds s id in
  require (endTime round <? block_timestamp e) "Voting still active" ;;;
  require (negb (finalized round)) "Already finalized" ;;;
  Ok (emit (RoundFinalized id (totalCredits round))
       (set_round id
          (mkVotingRound (startTime round) (endTime round) (commitEndTime round)
                         (totalCredits round) (totalProposals round) true
                         (merkleRoot round)) s)).

Definition pause (e : Env) (s : State) : Result State :=
  onlyRole ADMIN_ROLE e s ;;;
  whenNotPaused s ;;;
  Ok (set_paused true s).

Definition unpause (e : Env) (s : State) : Result State :=
  onlyRole ADMIN_ROLE e s ;;;
  whenPaused s ;;;
  Ok (set_paused false s).

(** Role administration inherited from [AccessControlUpgradeable]; every
    role is administered by [DEFAULT_ADMIN_ROLE]. *)
Definition grantRole (r : Role) (account : N) (e : Env) (s : State) : Result State :=
  onlyRole DEFAULT_ADMIN_ROLE e s ;;;
  Ok (set_role r account true s).

Definition revokeRole (r : Role) (account : N) (e : Env) (s : State) : Result State :=
  onlyRole DEFAULT_ADMIN_ROLE e s ;;;
  Ok (set_role r account false s).

Definition renounceRole (r : Role) (account : N) (e : Env) (s : State) : Result State :=
  require (account =? msg_sender e) "AccessControl: can only renounce roles for self" ;;;
  Ok (set_role r account false s).

(** Read-only queries. *)
Definition getProposalScore (roundId proposalId : N) (s : State) : ProposalResult :=
  results s roundId proposalId.

Definition paused (s : State) : bool := _paused s.

(** The external, state-changing functions as one type of calls. *)
Inductive Call : Type :=
| Call_startVotingRound (duration commitDuration root : N)
| Call_commitVote (commit : N) (merkleProof : list N)
| Call_revealVote (proposalId voteCount nonce : N)
| Call_finalizeRound
| Call_pause
| Call_unpause
| Call_grantRole (r : Role) (account : N)
| Call_revokeRole (r : Role) (account : N)
| Call_renounceRole (r : Role) (account : N).

Definition exec (c : Call) (e : Env) (s : State) : Result State :=
  match c with
  | Call_startVotingRound d cd root => startVotingRound d cd root e s
  | Call_commitVote c p => commitVote c p e s
  | Call_revealVote p v n => revealVote p v n e s
  | Call_finalizeRound => finalizeRound e s
  | Call_pause => pause e s
  | Call_unpause => unpause e s
  | Call_grantRole r a => grantRole r a e s
  | Call_revokeRole r a => revokeRole r a e s
  | Call_renounceRole r a => renounceRole r a e s
  end.

(** A transaction: the post-state of a successful call, the pre-state of a
    reverted one. *)
Definition transact (c : Call) (e : Env) (s : State) : State :=
  match exec c e s with
  | Ok s' => s'
  | Revert _ => s
  end.

(** The states of the contract: [initialize], then transactions. *)
Inductive reachable : State -> Prop :=
| reachable_init admin : reachable (initialize admin)
| reachable_step s s' c e :
    reachable s -> valid_env e -> exec c e s = Ok s' -> reachable s'.

(** Every round before the current one is finalized. *)
Definition earlier_rounds_finalized (s : State) : Prop :=
  forall r, 1 <= r -> r < currentRoundId s -> finalized (votingRounds s r) = true.

(** Every revealed vote has a count between 1 and 10. *)
Definition revealed_in_range (s : State) : Prop :=
  forall r v, revealed (votes s r v) = true ->
              1 <= votesRevealed (votes s r v) <= MAX_VOTES_PER_PROPOSAL.

End Contract.

(** A stand-in for the hash functions, for concrete executions: a vote and
    an address are packed into one number, and a Merkle proof is folded over
    a commutative pair hash and compared with the root, as
    [MerkleProof.verify] does. *)
Module Toy.

Definition pack_vote (proposalId voteCount nonce : N) : N :=
  1 + proposalId + 2 ^ 64 * voteCount + 2 ^ 128 * nonce.

Definition pack_address (voter : N) : N := 2 ^ 200 + voter.

Definition hash_pair (a b : N) : N := 2 ^ 220 + a + b.

Definition verify (proof : list N) (root leaf : N) : bool :=
  fold_left hash_pair proof leaf =? root.

#[export] Instance toy_crypto : Crypto := {|
  keccak_vote := pack_vote;
  keccak_address := pack_address;
  MerkleProof_verify := verify
|}.

End Toy.

End QuadraticVoting.

(** ** The escrow contract, [MilestoneFunding.sol] *)

Module MilestoneFunding.

(** The ERC-20 tokens the contract calls through [SafeERC20] are external
    contracts; the embedding is parametric in their ledger, the state of all
    tokens. [this] is [address(this)]; a token call either returns the new
    ledger or reverts, and does not call back into the escrow. *)
Class Tokens (Ledger : Type) : Type := {
  this : N;
  (** [IERC20(token).safeTransfer(to, amount)], sent by [this] *)
  safeTransfer : N -> N -> N -> Ledger -> Result Ledger;
  (** [IERC20(token).safeTransferFrom(from, to, amount)], sent by [this] *)
  safeTransferFrom : N -> N -> N -> N -> Ledger -> Result Ledger
}.

Inductive Role : Type := DEFAULT_ADMIN_ROLE | REVIEWER_ROLE | ARBITRATOR_ROLE.

Definition role_eqb (a b : Role) : bool :=
  match a, b with
  | DEFAULT_ADMIN_ROLE, DEFAULT_ADMIN_ROLE => true
  | REVIEWER_ROLE, REVIEWER_ROLE => true
  | ARBITRATOR_ROLE, ARBITRATOR_ROLE => true
  | _, _ => false
  end.

Inductive MilestoneStatus : Type :=
| Pending | InReview | Approved | Rejected | Disputed | Released.

Definition status_eqb (a b : MilestoneStatus) : bool :=
  match a, b with
  | Pending, Pending | InReview, InReview | Approved, Approved
  | Rejected, Rejected | Disputed, Disputed | Released, Released => true
  | _, _ => false
  end.

Record Milestone : Type := mkMilestone {
  description : string;
  fundingAmount : N;
  deadline : N;
  deliverableHash : string;
  status : MilestoneStatus;
  assignedReviewers : list N;
  approvalCount : N;
  submissionTime : N;
  autoReleaseEnabled : bool;
  autoReleaseTime : N
}.

Record Project : Type := mkProject {
  creator : N;
  title : string;
  project_description : string;
  fundingToken : N;
  totalFunding : N;
  releasedFunding : N;
  milestoneCount : N;
  active : bool;
  createdAt : N;
  milestones : N -> Milestone
}.

Record ReviewerStake : Type := mkReviewerStake {
  stakedAmount : N;
  successfulReviews : N;
  totalReviews : N;
  stake_active : bool
}.

Inductive Event : Type :=
| ProjectCreated (projectId who total : N)
| MilestoneSubmitted (projectId milestoneId : N) (hash : string)
| MilestoneReviewed (projectId milestoneId reviewer : N) (approved : bool)
| MilestoneReleased (projectId milestoneId amount : N)
| ReviewerStaked (reviewer amount : N).

Definition REVIEWER_STAKE_REQUIRED : N := 1000 * 10 ^ 18.
Definition AUTO_RELEASE_DELAY : N := 7 * 24 * 60 * 60.
Definition MIN_REVIEWERS : N := 2.
Definition APPROVAL_THRESHOLD : N := 66.

(** Where the storage of the contract lives. The initial value in the
    declaration [uint256 public platformFeeRate = 200] is written by the
    constructor code of the contract, into the contract's own storage. Behind
    the transparent proxy of [deploy/01_deploy_core.ts] the storage in use is
    the proxy's, which that code never touches: every variable starts at zero
    there, and only what [initialize] writes is set. *)
Inductive Deployment : Type := Direct | BehindProxy.

Definition initial_platformFeeRate (d : Deployment) : N :=
  match d with
  | Direct => 200
  | BehindProxy => 0
  end.

Definition zero_milestone : Milestone :=
  mkMilestone "" 0 0 "" Pending [] 0 0 false 0.
Definition zero_project : Project :=
  mkProject 0 "" "" 0 0 0 0 false 0 (fun _ => zero_milestone).
Definition zero_stake : ReviewerStake := mkReviewerStake 0 0 0 false.

Definition set_status (st : MilestoneStatus) (m : Milestone) : Milestone :=
  mkMilestone (description m) (fundingAmount m) (deadline m) (deliverableHash m)
              st (assignedReviewers m) (approvalCount m) (submissionTime m)
              (autoReleaseEnabled m) (autoReleaseTime m).

Definition set_approvalCount (n : N) (m : Milestone) : Milestone :=
  mkMilestone (description m) (fundingAmount m) (deadline m) (deliverableHash m)
              (status m) (assignedReviewers m) n (submissionTime m)
              (autoReleaseEnabled m) (autoReleaseTime m).

Definition set_assignedReviewers (l : list N) (m : Milestone) : Milestone :=
  mkMilestone (description m) (fundingAmount m) (deadline m) (deliverableHash m)
              (status m) l (approvalCount m) (submissionTime m)
              (autoReleaseEnabled m) (autoReleaseTime m).

Definition set_milestone (i : N) (m : Milestone) (p : Project) : Project :=
  mkProject (creator p) (title p) (project_description p) (fundingToken p)
            (totalFunding p) (releasedFunding p) (milestoneCount p) (active p)
            (createdAt p) (upd (milestones p) i m).

Definition set_releasedFunding (n : N) (p : Project) : Project :=
  mkProject (creator p) (title p) (project_description p) (fundingToken p)
            (totalFunding p) n (milestoneCount p) (active p)
            (createdAt p) (milestones p).

Section Contract.
Context {Ledger : Type} {tokens : Tokens Ledger}.

(** The storage of the contract ([_roles] is the inherited storage of
    [AccessControlUpgradeable]), the token ledger it acts on, and the log
    (latest first). The lock of [nonReentrant] is free at the start of every
    transaction and freed at its end, so it is not part of the state. *)
Record State : Type := mkState {
  _roles : Role -> N -> bool;
  nextProjectId : N;
  projects : N -> Project;
  reviewerStakes : N -> ReviewerStake;
  reviewerVotes : N -> N -> N -> bool;
  stakeToken : N;
  treasury : N;
  platformFeeRate : N;
  ledger : Ledger;
  events : list Event
}.

Definition set_role (r : Role) (a : N) (b : bool) (s : State) : State :=
  mkState (fun r' a' => if role_eqb r' r && (a' =? a) then b else _roles s r' a')
          (nextProjectId s) (projects s) (reviewerStakes s) (reviewerVotes s)
          (stakeToken s) (treasury s) (platformFeeRate s) (ledger s) (events s).

Definition set_nextProjectId (n : N) (s : State) : State :=
  mkState (_roles s) n (projects s) (reviewerStakes s) (reviewerVotes s)
          (stakeToken s) (treasury s) (platformFeeRate s) (ledger s) (events s).

Definition set_project (id : N) (p : Project) (s : State) : State :=
  mkState (_roles s) (nextProjectId s) (upd (projects s) id p)
          (reviewerStakes s) (reviewerVotes s)
          (stakeToken s) (treasury s) (platformFeeRate s) (ledger s) (events s).

Definition set_stake (a : N) (st : ReviewerStake) (s : State) : State :=
  mkState (_roles s) (nextProjectId s) (projects s)
          (upd (reviewerStakes s) a st) (reviewerVotes s)
          (stakeToken s) (treasury s) (platformFeeRate s) (ledger s) (events s).

Definition set_reviewerVote (pid mid a : N) (b : bool) (s : State) : State :=
  mkState (_roles s) (nextProjectId s) (projects s) (reviewerStakes s)
          (upd (reviewerVotes s) pid
             (upd (reviewerVotes s pid) mid (upd (reviewerVotes s pid mid) a b)))
          (stakeToken s) (treasury s) (platformFeeRate s) (ledger s) (events s).

Definition set_ledger (l : Ledger) (s : State) : State :=
  mkState (_roles s) (nextProjectId s) (projects s) (reviewerStakes s)
          (reviewerVotes s) (stakeToken s) (treasury s) (platformFeeRate s)
          l (events s).

Definition emit (ev : Event) (s : State) : State :=
  mkState (_roles s) (nextProjectId s) (projects s) (reviewerStakes s)
          (reviewerVotes s) (stakeToken s) (treasury s) (platformFeeRate s)
          (ledger s) (ev :: events s).

Definition milestone_of (s : State) (pid mid : N) : Milestone :=
  milestones (projects s pid) mid.

Definition set_milestone_of (pid mid : N) (m : Milestone) (s : State) : State :=
  set_project pid (set_milestone mid m (projects s pid)) s.

(** [initialize(admin, _stakeToken, _treasury)] on the fresh storage of a
    contract deployed as [d]. It grants the admin role and writes
    [stakeToken], [treasury] and [nextProjectId]; [platformFeeRate] it does
    not write, so the rate is the one the storage starts with. *)
Definition initialize (d : Deployment) (admin stake_token treasury_address : N)
    (l : Ledger) : State :=
  mkState (fun r a => match r with
                      | DEFAULT_ADMIN_ROLE => a =? admin
                      | _ => false
                      end)
          1 (fun _ => zero_project) (fun _ => zero_stake) (fun _ _ _ => false)
          stake_token treasury_address (initial_platformFeeRate d) l [].

Definition onlyRole (r : Role) (e : Env) (s : State) : Result unit :=
  if _roles s r (msg_sender e) then Ok tt else Revert MissingRole.

Definition len {A : Type} (l : list A) : N := N.of_nat (List.length l).

(** The [for] loop of [createProject] from index [i] on: [ms] is the
    milestone mapping of the project and [totalAmount] the running sum. An
    index past the end of an array is a [Panic]; the length check excludes it. *)
Fixpoint createProject_loop (now i : N)
    (milestoneAmounts : list N) (milestoneDescriptions : list string)
    (milestoneDeadlines : list N)
    (ms : N -> Milestone) (totalAmount : N) : Result ((N -> Milestone) * N) :=
  match milestoneAmounts, milestoneDescriptions, milestoneDeadlines with
  | [], _, _ => Ok (ms, totalAmount)
  | amount :: amounts, text :: descriptions, due :: deadlines =>
      require (now <? due) "Invalid deadline" ;;;
      release <- checked_add due AUTO_RELEASE_DELAY ;;
      let m := ms i in
      let m' := mkMilestone text amount due (deliverableHash m) Pending
                            (assignedReviewers m) (approvalCount m)
                            (submissionTime m) true release in
      total <- checked_add totalAmount amount ;;
      createProject_loop now (i + 1) amounts descriptions deadlines
                         (upd ms i m') total
  | _, _, _ => Revert Panic
  end.

Definition createProject (name text : string) (token : N)
    (milestoneAmounts : list N) (milestoneDescriptions : list string)
    (milestoneDeadlines : list N)
    (e : Env) (s : State) : Result (N * State) :=
  require (2 <=? len milestoneAmounts) "Minimum 2 milestones required" ;;;
  require (len milestoneAmounts <=? 8) "Maximum 8 milestones allowed" ;;;
  require ((len milestoneAmounts =? len milestoneDescriptions)
           && (len milestoneDescriptions =? len milestoneDeadlines))
          "Array length mismatch" ;;;
  let projectId := nextProjectId s in
  next <- checked_add projectId 1 ;;
  let project := projects s projectId in
  r <- createProject_loop (block_timestamp e) 0 milestoneAmounts
         milestoneDescriptions milestoneDeadlines (milestones project) 0 ;;
  let project' := mkProject (msg_sender e) name text token (snd r)
                            (releasedFunding project) (len milestoneAmounts)
                            true (block_timestamp e) (fst r) in
  Ok (projectId,
      emit (ProjectCreated projectId (msg_sender e) (snd r))
        (set_project projectId project' (set_nextProjectId next s))).

Definition fundProject (projectId amount : N) (e : Env) (s : State) : Result State :=
  let project := projects s projectId in
  require (active project) "Project not active" ;;;
  l <- safeTransferFrom (fundingToken project) (msg_sender e) this amount (ledger s) ;;
  Ok (set_ledger l s).

Definition _assignReviewers (projectId milestoneId : N) (s : State) : State :=
  let milestone := milestone_of s projectId milestoneId in
  set_milestone_of projectId milestoneId
    (set_assignedReviewers (repeat 0 (N.to_nat MIN_REVIEWERS)) milestone) s.

Definition submitMilestone (projectId milestoneId : N) (hash : string)
    (e : Env) (s : State) : Result State :=
  let project := projects s projectId in
  require (msg_sender e =? creator project) "Only creator can submit" ;;;
  let milestone := milestones project milestoneId in
  require (status_eqb (status milestone) Pending) "Invalid status" ;;;
  let milestone' :=
    mkMilestone (description milestone) (fundingAmount milestone)
                (deadline milestone) hash InReview
                (assignedReviewers milestone) (approvalCount milestone)
                (block_timestamp e) (autoReleaseEnabled milestone)
                (autoReleaseTime milestone) in
  Ok (emit (MilestoneSubmitted projectId milestoneId hash)
        (_assignReviewers projectId milestoneId
           (set_milestone_of projectId milestoneId milestone' s))).

(** The local [requiredApprovals] of [_checkMilestoneApproval],
    [(milestone.assignedReviewers.length * APPROVAL_THRESHOLD) / 100], as a
    function of the length of the panel. *)
Definition requiredApprovals (panelSize : N) : Result N :=
  scaled <- checked_mul panelSize APPROVAL_THRESHOLD ;;
  checked_div scaled 100.

Definition _checkMilestoneApproval (projectId milestoneId : N) (s : State) : Result State :=
  let milestone := milestone_of s projectId milestoneId in
  required <- requiredApprovals (len (assignedReviewers milestone)) ;;
  if required <=? approvalCount milestone
  then Ok (set_milestone_of projectId milestoneId (set_status Approved milestone) s)
  else Ok s.

Definition reviewMilestone (projectId milestoneId : N) (approved : bool)
    (comments : string) (e : Env) (s : State) : Result State :=
  onlyRole REVIEWER_ROLE e s ;;;
  require (stake_active (reviewerStakes s (msg_sender e))) "Reviewer not active" ;;;
  let milestone := milestone_of s projectId milestoneId in
  require (status_eqb (status milestone) InReview) "Not in review" ;;;
  require (negb (reviewerVotes s projectId milestoneId (msg_sender e)))
          "Already reviewed" ;;;
  let isAssigned := existsb (fun r => r =? msg_sender e) (assignedReviewers milestone) in
  require isAssigned "Not assigned reviewer" ;;;
  let s1 := set_reviewerVote projectId milestoneId (msg_sender e) true s in
  count <- (if approved then checked_add (approvalCount milestone) 1
            else Ok (approvalCount milestone)) ;;
  let s2 := set_milestone_of projectId milestoneId
              (set_approvalCount count milestone) s1 in
  let stake := reviewerStakes s2 (msg_sender e) in
  reviews <- checked_add (totalReviews stake) 1 ;;
  let s3 := set_stake (msg_sender e)
              (mkReviewerStake (stakedAmount stake) (successfulReviews stake)
                               reviews (stake_active stake)) s2 in
  _checkMilestoneApproval projectId milestoneId
    (emit (MilestoneReviewed projectId milestoneId (msg_sender e) approved) s3).

(** The release conditions checked by [releaseMilestoneFunds]: [canRelease]
    and the milestone as the auto-release branch leaves it. *)
Definition release_conditions (now : N) (milestone : Milestone) : bool * Milestone :=
  if status_eqb (status milestone) Approved then (true, milestone)
  else if autoReleaseEnabled milestone
          && (autoReleaseTime milestone <? now)
          && status_eqb (status milestone) InReview
       then (true, set_status Approved milestone)
       else (false, milestone).

Definition _rewardReviewers (projectId milestoneId : N) (s : State) : State := s.

Definition releaseMilestoneFunds (projectId milestoneId : N)
    (e : Env) (s : State) : Result State :=
  let project := projects s projectId in
  let gate := release_conditions (block_timestamp e) (milestones project milestoneId) in
  let milestone := snd gate in
  require (fst gate) "Cannot release funds" ;;;
  require (negb (status_eqb (status milestone) Released)) "Already released" ;;;
  let releaseAmount := fundingAmount milestone in
  scaled <- checked_mul releaseAmount (platformFeeRate s) ;;
  platformFee <- checked_div scaled 10000 ;;
  creatorAmount <- checked_sub releaseAmount platformFee ;;
  released <- checked_add (releasedFunding project) releaseAmount ;;
  let project' := set_releasedFunding released
                    (set_milestone milestoneId (set_status Released milestone) project) in
  l1 <- safeTransfer (fundingToken project) (creator project) creatorAmount (ledger s) ;;
  l2 <- safeTransfer (fundingToken project) (treasury s) platformFee l1 ;;
  Ok (emit (MilestoneReleased projectId milestoneId releaseAmount)
        (_rewardReviewers projectId milestoneId
           (set_ledger l2 (set_project projectId project' s)))).

Definition stakeAsReviewer (e : Env) (s : State) : Result State :=
  require (negb (stake_active (reviewerStakes s (msg_sender e))))
          "Already active reviewer" ;;;
  l <- safeTransferFrom (stakeToken s) (msg_sender e) this
         REVIEWER_STAKE_REQUIRED (ledger s) ;;
  Ok (emit (ReviewerStaked (msg_sender e) REVIEWER_STAKE_REQUIRED)
        (set_role REVIEWER_ROLE (msg_sender e) true
           (set_stake (msg_sender e)
              (mkReviewerStake REVIEWER_STAKE_REQUIRED 0 0 true)
              (set_ledger l s)))).

(** Role administration inherited from [AccessControlUpgradeable]. *)
Definition grantRole (r : Role) (account : N) (e : Env) (s : State) : Result State :=
  onlyRole DEFAULT_ADMIN_ROLE e s ;;;
  Ok (set_role r account true s).

Definition revokeRole (r : Role) (account : N) (e : Env) (s : State) : Result State :=
  onlyRole DEFAULT_ADMIN_ROLE e s ;;;
  Ok (set_role r account false s).

Definition renounceRole (r : Role) (account : N) (e : Env) (s : State) : Result State :=
  require (account =? msg_sender e) "AccessControl: can only renounce roles for self" ;;;
  Ok (set_role r account false s).

(** Read-only queries. *)
Definition getProject (projectId : N) (s : State)
  : N * string * N * N * N * N * bool :=
  let project := projects s projectId in
  (creator project, title project, fundingToken project, totalFunding project,
   releasedFunding project, milestoneCount project, active project).

Definition getMilestone (projectId milestoneId : N) (s : State)
  : string * N * N * MilestoneStatus * N * string :=
  let milestone := milestone_of s projectId milestoneId in
  (description milestone, fundingAmount milestone, deadline milestone,
   status milestone, approvalCount milestone, deliverableHash milestone).

Inductive Call : Type :=
| Call_createProject (name text : string) (token : N)
    (milestoneAmounts : list N) (milestoneDescriptions : list string)
    (milestoneDeadlines : list N)
| Call_fundProject (projectId amount : N)
| Call_submitMilestone (projectId milestoneId : N) (hash : string)
| Call_reviewMilestone (projectId milestoneId : N) (approved : bool) (comments : string)
| Call_releaseMilestoneFunds (projectId milestoneId : N)
| Call_stakeAsReviewer
| Call_grantRole (r : Role) (account : N)
| Call_revokeRole (r : Role) (account : N)
| Call_renounceRole (r : Role) (account : N).

Definition exec (c : Call) (e : Env) (s : State) : Result State :=
  match c with
  | Call_createProject name text token amounts descriptions deadlines =>
      r <- createProject name text token amounts descriptions deadlines e s ;;
      Ok (snd r)
  | Call_fundProject pid amount => fundProject pid amount e s
  | Call_submitMilestone pid mid hash => submitMilestone pid mid hash e s
  | Call_reviewMilestone pid mid approved comments =>
      reviewMilestone pid mid approved comments e s
  | Call_releaseMilestoneFunds pid mid => releaseMilestoneFunds pid mid e s
  | Call_stakeAsReviewer => stakeAsReviewer e s
  | Call_grantRole r a => grantRole r a e s
  | Call_revokeRole r a => revokeRole r a e s
  | Call_renounceRole r a => renounceRole r a e s
  end.

Definition transact (c : Call) (e : Env) (s : State) : State :=
  match exec c e s with
  | Ok s' => s'
  | Revert _ => s
  end.

(** The states of the contract, however it is deployed: [initialize], then
    transactions; between two transactions the token ledger may change by
    calls made to the tokens themselves. *)
Inductive reachable : State -> Prop :=
| reachable_init d admin stake_token treasury_address l :
    reachable (initialize d admin stake_token treasury_address l)
| reachable_step s s' c e :
    reachable s -> valid_env e -> exec c e s = Ok s' -> reachable s'
| reachable_tokens s l :
    reachable s -> reachable (set_ledger l s).

(** The funds released for a project: the sum of [fundingAmount] over its
    milestones [0 .. milestoneCount - 1] whose status is [Released]. *)
Definition released_amount (m : Milestone) : N :=
  if status_eqb (status m) Released then fundingAmount m else 0.

Fixpoint sum_upto (f : N -> N) (n : nat) : N :=
  match n with
  | O => 0
  | S k => sum_upto f k + f (N.of_nat k)
  end.

Definition released_sum (p : Project) : N :=
  sum_upto (fun i => released_amount (milestones p i)) (N.to_nat (milestoneCount p)).

Definition funding_sum (p : Project) : N :=
  sum_upto (fun i => fundingAmount (milestones p i)) (N.to_nat (milestoneCount p)).

Definition Nsum (l : list N) : N := fold_right N.add 0 l.

(** How many [MilestoneReleased] events the log holds for a milestone. *)
Definition is_release_of (pid mid : N) (ev : Event) : bool :=
  match ev with
  | MilestoneReleased p m _ => (p =? pid) && (m =? mid)
  | _ => false
  end.

Definition release_count (pid mid : N) (s : State) : nat :=
  List.length (filter (is_release_of pid mid) (events s)).

(** The fields of a project that a milestone write leaves alone. *)
Definition same_scalars (p p' : Project) : Prop :=
  creator p' = creator p /\ totalFunding p' = totalFunding p /\
  releasedFunding p' = releasedFunding p /\ milestoneCount p' = milestoneCount p.

(** The invariant of the escrow: projects are created under fresh ids,
    milestones past [milestoneCount] are never funded, the released funds and
    the log match the [Released] milestones, and no panel holds a reviewer. *)
Record Inv (s : State) : Prop := mkInv {
  inv_fresh : forall p, nextProjectId s <= p ->
    creator (projects s p) = 0 /\ totalFunding (projects s p) = 0 /\
    releasedFunding (projects s p) = 0 /\
    forall i, milestone_of s p i = zero_milestone;
  inv_beyond : forall p i, milestoneCount (projects s p) <= i ->
    fundingAmount (milestone_of s p i) = 0 /\
    autoReleaseEnabled (milestone_of s p i) = false;
  inv_released : forall p,
    releasedFunding (projects s p) = released_sum (projects s p);
  inv_log : forall p i,
    release_count p i s
    = if status_eqb (status (milestone_of s p i)) Released then 1%nat else 0%nat;
  inv_panel : forall p i,
    Forall (fun r => r = 0) (assignedReviewers (milestone_of s p i));
  inv_approvals : forall p i, approvalCount (milestone_of s p i) = 0;
  inv_status : forall p i,
    status (milestone_of s p i) = Pending \/
    status (milestone_of s p i) = InReview \/
    status (milestone_of s p i) = Released;
  inv_auto : forall p i,
    autoReleaseEnabled (milestone_of s p i) = true ->
    autoReleaseTime (milestone_of s p i)
    = deadline (milestone_of s p i) + AUTO_RELEASE_DELAY;
  inv_total : forall p,
    totalFunding (projects s p) = funding_sum (projects s p) /\
    totalFunding (projects s p) <= MAX_UINT256;
  inv_fee : platformFeeRate s = 0 \/ platformFeeRate s = 200
}.

End Contract.

(** A standard ERC-20 ledger, for concrete executions: balances and
    allowances per token; a transfer reverts on an insufficient balance or
    allowance. The escrow is deployed at address 4096. *)
Module StandardToken.

Record Erc20 : Type := mkErc20 {
  balanceOf : N -> N -> N;
  allowance : N -> N -> N -> N
}.

Definition escrow : N := 4096.

Definition move (token from to amount : N) (l : Erc20) : Result Erc20 :=
  if balanceOf l token from <? amount then Revert TransferFailed
  else
    let debited := upd (balanceOf l token) from (balanceOf l token from - amount) in
    credit <- checked_add (debited to) amount ;;
    Ok (mkErc20 (upd (balanceOf l) token (upd debited to credit)) (allowance l)).

Definition transfer (token to amount : N) (l : Erc20) : Result Erc20 :=
  move token escrow to amount l.

Definition transferFrom (token from to amount : N) (l : Erc20) : Result Erc20 :=
  if allowance l token from escrow <? amount then Revert TransferFailed
  else
    l' <- move token from to amount l ;;
    Ok (mkErc20 (balanceOf l')
          (upd (allowance l') token
             (upd (allowance l' token) from
                (upd (allowance l' token from) escrow
                   (allowance l' token from escrow - amount))))).

#[export] Instance standard_tokens : Tokens Erc20 := {|
  this := escrow;
  safeTransfer := transfer;
  safeTransferFrom := transferFrom
|}.

Definition empty_ledger : Erc20 := mkErc20 (fun _ _ => 0) (fun _ _ _ => 0).

End StandardToken.

End MilestoneFunding.

(** ** The two contracts as one system *)

Module Core.

Section System.
Context {crypto : QuadraticVoting.Crypto}
        {Ledger : Type} {tokens : MilestoneFunding.Tokens Ledger}.

Record System : Type := mkSystem {
  voting : QuadraticVoting.State;
  funding : @MilestoneFunding.State Ledger
}.

Inductive Call : Type :=
| Voting (c : QuadraticVoting.Call)
| Funding (c : MilestoneFunding.Call).

Definition exec (c : Call) (e : Env) (sys : System) : Result System :=
  match c with
  | Voting c =>
      s' <- QuadraticVoting.exec c e (voting sys) ;;
      Ok (mkSystem s' (funding sys))
  | Funding c =>
      s' <- MilestoneFunding.exec c e (funding sys) ;;
      Ok (mkSystem (voting sys) s')
  end.

Definition transact (c : Call) (e : Env) (sys : System) : System :=
  match exec c e sys with
  | Ok sys' => sys'
  | Revert _ => sys
  end.

(** The only pause flag of the code is the one of the voting contract. *)
Definition paused (sys : System) : bool := QuadraticVoting.paused (voting sys).

Definition with_flag (b : bool) (sys : System) : System :=
  mkSystem (QuadraticVoting.set_paused b (voting sys)) (funding sys).

End System.

End Core.

(** ** Concrete executions *)

Module VotingScenario.
Import QuadraticVoting QuadraticVoting.Toy.

Definition admin : N := 1.
Definition voter : N := 5.
Definition by_at (who time : N) : Env := mkEnv who time.

(** The eligibility tree with the single leaf [voter]. *)
Definition root : N := pack_address voter.

Definition deployed : State := initialize admin.

(** A round with a commit window of 100 and a reveal window of 100. *)
Definition started : State :=
  transact (Call_startVotingRound 200 100 root) (by_at admin 0) deployed.

Definition committed : State :=
  transact (Call_commitVote (pack_vote 1 5 7) []) (by_at voter 10) started.

Definition revealed_five : State :=
  transact (Call_revealVote 1 5 7) (by_at voter 150) committed.

(** The voter commits to [count] votes on proposal 1, whatever [count] is. *)
Definition committed_count (count : N) : State :=
  transact (Call_commitVote (pack_vote 1 count 7) []) (by_at voter 10) started.

(** A voter who commits [bytes32(0)] and then commits again. *)
Definition committed_zero : State :=
  transact (Call_commitVote 0 []) (by_at voter 10) started.

Definition committed_again : State :=
  transact (Call_commitVote 77 []) (by_at voter 20) committed_zero.

(** The contract paused right after deployment. *)
Definition halted : State := transact Call_pause (by_at admin 0) deployed.

End VotingScenario.

Module FundingScenario.
Import MilestoneFunding MilestoneFunding.StandardToken.
#[local] Open Scope string_scope.
#[local] Open Scope N_scope.

Definition admin : N := 1.
Definition treasury_account : N := 2.
Definition outsider : N := 3.
Definition founder : N := 7.
Definition stake_token : N := 900.
Definition funding_token : N := 901.
Definition by_at (who time : N) : Env := mkEnv who time.

(** Every account holds, and has approved to the escrow, 10^30 of each token. *)
Definition rich_ledger : Erc20 :=
  mkErc20 (fun _ _ => 10 ^ 30) (fun _ _ _ => 10 ^ 30).

(** The deployment of [deploy/01_deploy_core.ts]: behind a proxy. *)
Definition deployed : State :=
  initialize BehindProxy admin stake_token treasury_account empty_ledger.

(** A project whose three milestone amounts are 50, 30 and 10. *)
Definition clinic : Call :=
  Call_createProject "Clinic" "Three stages" funding_token
    [50; 30; 10] ["Plan"; "Build"; "Open"] [100; 200; 300].

Definition created : State := transact clinic (by_at founder 10) deployed.

Definition submitted : State :=
  transact (Call_submitMilestone 1 0 "Qm01") (by_at founder 50) created.

(** The first milestone has the deadline 100. *)
Definition after_delay : N := 100 + AUTO_RELEASE_DELAY + 1.
Definition before_delay : N := 100 + AUTO_RELEASE_DELAY - 1.

(** The escrow holds the funds of the project. *)
Definition funded : State := set_ledger rich_ledger submitted.

Definition released : State :=
  transact (Call_releaseMilestoneFunds 1 0) (by_at outsider after_delay) funded.

(** Three accounts stake as reviewers. *)
Definition staked : State :=
  transact Call_stakeAsReviewer (by_at 13 53)
    (transact Call_stakeAsReviewer (by_at 12 52)
       (transact Call_stakeAsReviewer (by_at 11 51) funded)).

End FundingScenario.

Module CoreScenario.
Import Core.
Import QuadraticVoting.Toy MilestoneFunding.StandardToken.

(** The voting contract paused, the escrow freshly deployed. *)
Definition halted_system : System :=
  mkSystem VotingScenario.halted FundingScenario.deployed.

End CoreScenario.

(** ** Further observations on the voting contract *)

Module Numbering.

(** [n, n - 1, ..., 1]: the ids a counter that starts at 1 has handed out,
    latest first. *)
Fixpoint countdown (n : nat) : list N :=
  match n with
  | O => []
  | S k => N.of_nat (S k) :: countdown k
  end.

End Numbering.

Module VotingObservations.
Import QuadraticVoting QuadraticVoting.Toy VotingScenario.
Export Numbering.

(** The ids of the rounds the log reports as started, latest first. *)
Definition started_id (ev : Event) : list N :=
  match ev with
  | RoundStarted id _ _ => [id]
  | _ => []
  end.

Definition started_ids (s : State) : list N := flat_map started_id (events s).

(** No storage is written under a round id that is not yet allocated. *)
Definition unused_rounds_empty (s : State) : Prop :=
  forall r, currentRoundId s < r ->
    votingRounds s r = zero_round /\
    (forall v, votes s r v = zero_vote) /\
    (forall p, results s r p = zero_result).

(** Every reveal adds one voter, 1 to 10 votes and a score between
    [sqrt (1e18)] and [sqrt (10e18)]. *)
Definition tally_in_bounds (t : ProposalResult) : Prop :=
  uniqueVoters t <= totalVotes t /\
  totalVotes t <= 10 * uniqueVoters t /\
  10 ^ 9 * uniqueVoters t <= quadraticScore t /\
  quadraticScore t <= 3162277660 * uniqueVoters t.

(** What the log reports: the counts revealed for proposal [p] in round [r],
    the counts revealed in round [r], and the reveals of voter [v]. *)
Definition revealed_for (r p : N) (ev : Event) : list N :=
  match ev with
  | VoteRevealed r' _ p' count => if (r' =? r) && (p' =? p) then [count] else []
  | _ => []
  end.

Definition revealed_in (r : N) (ev : Event) : list N :=
  match ev with
  | VoteRevealed r' _ _ count => if r' =? r then [count] else []
  | _ => []
  end.

Definition revealed_by (v : N) (ev : Event) : list N :=
  match ev with
  | VoteRevealed _ v' _ count => if v' =? v then [count] else []
  | _ => []
  end.

Definition total (l : list N) : N := fold_right N.add 0 l.

Definition count_of (l : list N) : N := N.of_nat (List.length l).

(** The tallies in storage are the sums of what the log reports. *)
Definition tallies_match_log (s : State) : Prop :=
  (forall r p,
     totalVotes (results s r p) = total (flat_map (revealed_for r p) (events s)) /\
     quadraticScore (results s r p)
     = total (map (fun c => N.sqrt (c * 10 ^ 18))
                  (flat_map (revealed_for r p) (events s))) /\
     uniqueVoters (results s r p)
     = count_of (flat_map (revealed_for r p) (events s))) /\
  (forall r,
     totalCredits (votingRounds s r)
     = total (map (fun c => c * c) (flat_map (revealed_in r) (events s)))) /\
  (forall v,
     voterReputationScore s v = count_of (flat_map (revealed_by v) (events s))) /\
  (forall r, currentRoundId s < r -> flat_map (revealed_in r) (events s) = []).

(** The fields no function of the contract writes. *)
Definition dormant_fields_unset (s : State) : Prop :=
  (forall r p, qualified (results s r p) = false) /\
  (forall r v, counted (votes s r v) = false) /\
  (forall r, totalProposals (votingRounds s r) = 0).

(** The part of a round that only the administrative calls write. *)
Definition schedule (r : VotingRound) : N * N * N * bool * N :=
  (startTime r, endTime r, commitEndTime r, finalized r, merkleRoot r).

(** The round of [VotingScenario] finalized after its end. *)
Definition closed : State :=
  transact Call_finalizeRound (by_at admin 201) revealed_five.

(** A round whose commit window (200) outlasts the round itself (100). *)
Definition overlong_commit : State :=
  transact (Call_startVotingRound 100 200 root) (by_at admin 0) deployed.

End VotingObservations.

(** ** Further observations on the escrow contract *)

Module FundingObservations.
Import MilestoneFunding MilestoneFunding.StandardToken FundingScenario.
Export Numbering.

(** What [createProject] lays down for a project and for a milestone. *)
Definition project_terms (p : Project)
  : N * string * string * N * N * N * bool * N :=
  (creator p, title p, project_description p, fundingToken p, totalFunding p,
   milestoneCount p, active p, createdAt p).

Definition milestone_terms (m : Milestone) : string * N * N * bool * N :=
  (description m, fundingAmount m, deadline m, autoReleaseEnabled m,
   autoReleaseTime m).

(** The ids the log reports as created, latest first. *)
Definition created_id (ev : Event) : list N :=
  match ev with
  | ProjectCreated id _ _ => [id]
  | _ => []
  end.

Section Contract.
Context {Ledger : Type}.
Implicit Types s : @State Ledger.

(** What [initialize] writes, and the fee rate, which nothing writes. *)
Definition configuration s : N * N * N :=
  (stakeToken s, treasury s, platformFeeRate s).

Definition created_ids s : list N := flat_map created_id (events s).

(** Projects live under the ids [1 .. nextProjectId - 1]; nothing is stored
    under any other id. *)
Definition registry_in_order s : Prop :=
  1 <= nextProjectId s /\
  created_ids s = countdown (N.to_nat (nextProjectId s - 1)) /\
  (forall p, 1 <= p < nextProjectId s ->
     active (projects s p) = true /\ creator (projects s p) <> 0 /\
     2 <= milestoneCount (projects s p) <= 8) /\
  (forall p, p = 0 \/ nextProjectId s <= p ->
     active (projects s p) = false /\ creator (projects s p) = 0 /\
     milestoneCount (projects s p) = 0 /\
     forall i, milestone_of s p i = zero_milestone).

(** A stake as [stakeAsReviewer] writes it, or none. *)
Definition stake_as_written (st : ReviewerStake) : Prop :=
  st = zero_stake \/ st = mkReviewerStake REVIEWER_STAKE_REQUIRED 0 0 true.

End Contract.

Section Deployed.
Context {Ledger : Type} {tokens : Tokens Ledger}.

(** The states of a contract deployed as [d]. *)
Inductive deployed_as (d : Deployment) : @State Ledger -> Prop :=
| deployed_as_init admin stake_token treasury_address l :
    deployed_as d (initialize d admin stake_token treasury_address l)
| deployed_as_step s s' c e :
    deployed_as d s -> valid_env e -> exec c e s = Ok s' -> deployed_as d s'
| deployed_as_tokens s l :
    deployed_as d s -> deployed_as d (set_ledger l s).

End Deployed.

(** The creator of the clinic submits an eighth milestone, which the
    project does not have. *)
Definition submitted_beyond : State :=
  transact (Call_submitMilestone 1 7 "Qm07") (by_at founder 60) created.

(** A second project, created after the first. *)
Definition created_twice : State := transact clinic (by_at founder 20) created.

End FundingObservations.

(** * Properties *)

(** ** Reasoning about results *)

Module EvmFacts.

Lemma upd_same {V : Type} (m : N -> V) k v : upd m k v k = v.
Proof. unfold upd. now rewrite N.eqb_refl. Qed.

Lemma upd_other {V : Type} (m : N -> V) k v k' : k' <> k -> upd m k v k' = m k'.
Proof. unfold upd. intros H. apply N.eqb_neq in H. now rewrite H. Qed.

Lemma bind_ok {A B : Type} (r : Result A) (k : A -> Result B) (b : B) :
  bind r k = Ok b -> exists a, r = Ok a /\ k a = Ok b.
Proof. destruct r as [a|e]; cbn; [eauto | discriminate]. Qed.

Lemma require_ok c reason u : require c reason = Ok u -> c = true.
Proof. destruct c; cbn; [reflexivity | discriminate]. Qed.

Lemma revert_if_ok c e u : revert_if c e = Ok u -> c = false.
Proof. destruct c; cbn; [discriminate | reflexivity]. Qed.

Lemma checked_add_ok a b c :
  checked_add a b = Ok c -> c = a + b /\ a + b <= MAX_UINT256.
Proof.
  unfold checked_add. destruct (N.leb_spec (a + b) MAX_UINT256); intros E;
    inversion E; auto.
Qed.

Lemma checked_mul_ok a b c :
  checked_mul a b = Ok c -> c = a * b /\ a * b <= MAX_UINT256.
Proof.
  unfold checked_mul. destruct (N.leb_spec (a * b) MAX_UINT256); intros E;
    inversion E; auto.
Qed.

Lemma checked_sub_ok a b c :
  checked_sub a b = Ok c -> c = a - b /\ b <= a.
Proof.
  unfold checked_sub. destruct (N.leb_spec b a); intros E; inversion E; auto.
Qed.

Lemma checked_div_ok a b c :
  checked_div a b = Ok c -> c = a / b /\ b <> 0.
Proof.
  unfold checked_div. destruct (N.eqb_spec b 0); intros E; inversion E; auto.
Qed.

Lemma checked_add_fits a b :
  a + b <= MAX_UINT256 -> checked_add a b = Ok (a + b).
Proof. intros H. unfold checked_add. apply N.leb_le in H. now rewrite H. Qed.

Lemma checked_mul_fits a b :
  a * b <= MAX_UINT256 -> checked_mul a b = Ok (a * b).
Proof. intros H. unfold checked_mul. apply N.leb_le in H. now rewrite H. Qed.

Lemma is_ok_false {A : Type} (r : Result A) :
  is_ok r = false <-> exists e, r = Revert e.
Proof.
  destruct r; cbn; split; intros H; try discriminate; eauto.
  destruct H as [? H]; discriminate.
Qed.

Lemma ok_value_or {A : Type} (default : A) (r : Result A) :
  is_ok r = true -> r = Ok (value_or default r).
Proof. destruct r; cbn; [reflexivity | discriminate]. Qed.

End EvmFacts.

Import EvmFacts.

(** Splits a successful run of monadic code into its successful steps. *)
Ltac ok_inv H :=
  lazymatch type of H with
  | bind _ _ = Ok _ =>
      let a := fresh "a" in
      let Hl := fresh "Hstep" in
      apply bind_ok in H; destruct H as (a & Hl & H);
      ok_inv Hl; ok_inv H
  | require _ _ = Ok _ => apply require_ok in H
  | revert_if _ _ = Ok _ => apply revert_if_ok in H
  | checked_add _ _ = Ok _ => apply checked_add_ok in H; destruct H as [-> H]
  | checked_mul _ _ = Ok _ => apply checked_mul_ok in H; destruct H as [-> H]
  | checked_sub _ _ = Ok _ => apply checked_sub_ok in H; destruct H as [-> H]
  | checked_div _ _ = Ok _ => apply checked_div_ok in H; destruct H as [-> H]
  | Ok _ = Ok _ => injection H as H
  | Revert _ = Ok _ => discriminate H
  | _ => idtac
  end.

(** Closes a goal on closed terms by evaluation. *)
Ltac by_computation :=
  vm_compute; first [reflexivity | discriminate | intro; discriminate].

Ltac valid_env_by_computation :=
  unfold valid_env, is_uint256; repeat split; by_computation.

(** ** The integer square root *)

Module SqrtFacts.
Import Sqrt.

Lemma sqrt_loop_unfold x z y :
  sqrt_loop x z y =
  if z <? y
  then match newton x z with
       | Ok z' => sqrt_loop x z' z
       | Revert e => Revert e
       end
  else Ok y.
Proof.
  funelim (sqrt_loop x z y).
  all: repeat match goal with
       | H : (_ <? _) = _ |- _ => rewrite H
       | H : newton _ _ = _ |- _ => rewrite H
       end.
  all: reflexivity.
Qed.

(** Integer form of the arithmetic-geometric mean inequality: a Newton step
    from any positive [y] lands at or above the floor square root. *)
Lemma newton_lower_bound x y :
  1 <= y -> 2 * N.sqrt x <= x / y + y.
Proof.
  intros Hy.
  pose proof (N.sqrt_spec x (N.le_0_l x)) as [Hs _].
  set (s := N.sqrt x) in *. clearbody s.
  pose proof (N.div_mod x y ltac:(lia)) as Hdm.
  pose proof (N.mod_lt x y ltac:(lia)) as Hr.
  set (q := x / y) in *. clearbody q.
  set (r := x mod y) in *. clearbody r.
  destruct (N.le_gt_cases (2 * s) (q + y)) as [H|H]; [exact H|].
  exfalso.
  assert (Hsq : (q + 1 + y) * (q + 1 + y) <= (2 * s) * (2 * s))
    by (apply N.mul_le_mono; lia).
  assert (Ham : 4 * ((q + 1) * y) <= (q + 1 + y) * (q + 1 + y)).
  { zify. assert (0 <= (Z.of_N q + 1 - Z.of_N y) * (Z.of_N q + 1 - Z.of_N y))%Z
      by apply Z.square_nonneg. nia. }
  assert (Hx : x < (q + 1) * y) by nia.
  nia.
Qed.

Lemma newton_sum_bound x y :
  1 <= y -> y <= x -> x / y + y <= x + 1.
Proof.
  intros Hy Hyx.
  pose proof (N.div_mod x y ltac:(lia)) as Hdm.
  pose proof (N.mod_lt x y ltac:(lia)) as Hr.
  set (q := x / y) in *. clearbody q.
  set (r := x mod y) in *. clearbody r.
  assert (Hq : 1 <= q) by (destruct (N.le_gt_cases 1 q); [assumption | nia]).
  assert (Hprod : q + y <= y * q + 1).
  { zify. assert (0 <= (Z.of_N y - 1) * (Z.of_N q - 1))%Z
      by (apply Z.mul_nonneg_nonneg; lia). nia. }
  lia.
Qed.

Lemma newton_ok x y :
  1 <= y -> y <= x -> x < MAX_UINT256 ->
  newton x y = Ok ((x / y + y) / 2).
Proof.
  intros Hy Hyx Hx. unfold newton, checked_div, checked_add.
  destruct (N.eqb_spec y 0) as [->|_]; [lia|]. cbn [bind].
  pose proof (newton_sum_bound x y Hy Hyx) as Hb.
  destruct (N.leb_spec (x / y + y) MAX_UINT256) as [_|Hgt]; [|lia].
  reflexivity.
Qed.

(** The loop invariant: [y] is at or above the floor square root and [z] is
    the Newton step taken from [y]. *)
Lemma sqrt_loop_correct x :
  1 <= x -> x < MAX_UINT256 ->
  forall y z, 1 <= y -> y <= x -> x < (y + 1) * (y + 1) ->
    z = (x / y + y) / 2 ->
    sqrt_loop x z y = Ok (N.sqrt x).
Proof.
  intros Hx1 Hx.
  induction y as [y IH] using (well_founded_induction N.lt_wf_0).
  intros z Hy Hyx Hup Hz.
  pose proof (N.sqrt_spec x (N.le_0_l x)) as [Hs1 Hs2].
  assert (Hs : 1 <= N.sqrt x) by (apply N.sqrt_le_square; lia).
  assert (Hzs : N.sqrt x <= z).
  { subst z. apply N.div_le_lower_bound; [lia|].
    apply newton_lower_bound; assumption. }
  rewrite sqrt_loop_unfold.
  destruct (N.ltb_spec z y) as [Hlt|Hge].
  - rewrite newton_ok by lia.
    apply IH; try lia.
    + nia.
  - f_equal. symmetry. apply N.sqrt_unique. split; [|lia].
    subst z.
    set (q := x / y) in *.
    assert (Hq : y <= q).
    { destruct (N.le_gt_cases y q) as [Hle|Hgt]; [exact Hle|]. exfalso.
      assert (Hlt : (q + y) / 2 < y) by (apply N.Div0.div_lt_upper_bound; lia).
      lia. }
    pose proof (N.Div0.mul_div_le x y) as Hm. fold q in Hm.
    clearbody q. nia.
Qed.

Lemma sqrt_exact x :
  x < MAX_UINT256 -> _sqrt x = Ok (N.sqrt x).
Proof.
  intros Hx. unfold _sqrt.
  destruct (N.eqb_spec x 0) as [->|Hx0]; [reflexivity|].
  unfold checked_add.
  destruct (N.leb_spec (x + 1) MAX_UINT256) as [_|Hgt]; [|lia].
  cbn [bind]. unfold checked_div. cbn [N.eqb bind].
  apply sqrt_loop_correct; try lia.
  rewrite N.div_same by lia. f_equal. lia.
Qed.

(** C8 (amended). For every [uint256] input other than [2^256 - 1], 0
    included, [_sqrt] returns the floor square root [r]:
    [r * r <= x < (r + 1) * (r + 1)]. The loop terminates on every input:
    [sqrt_loop] is defined by well-founded recursion on [y], which each
    iteration decreases. *)
Theorem sqrt_floor_below_max x :
  x < MAX_UINT256 ->
  exists r, _sqrt x = Ok r /\ r * r <= x /\ x < (r + 1) * (r + 1).
Proof.
  intros Hx. exists (N.sqrt x). split; [now apply sqrt_exact|].
  pose proof (N.sqrt_spec x (N.le_0_l x)) as [H1 H2].
  split; [exact H1|].
  replace (N.sqrt x + 1) with (N.succ (N.sqrt x)) by lia. exact H2.
Qed.

Lemma sqrt_floor_below_max_witness :
  exists r, _sqrt (5 * 10 ^ 18) = Ok r /\
            r * r <= 5 * 10 ^ 18 /\ 5 * 10 ^ 18 < (r + 1) * (r + 1).
Proof.
  apply (sqrt_floor_below_max (5 * 10 ^ 18)).
  vm_compute. reflexivity.
Defined.

(** C8 as stated fails at the largest [uint256]: there the seed
    [(x + 1) / 2] overflows and [_sqrt] reverts. *)
Lemma sqrt_max_uint256_reverts :
  is_uint256 MAX_UINT256 /\
  _sqrt MAX_UINT256 = Revert Panic /\
  ~ (exists r, _sqrt MAX_UINT256 = Ok r /\
               r * r <= MAX_UINT256 /\ MAX_UINT256 < (r + 1) * (r + 1)).
Proof.
  split; [unfold is_uint256; lia|]. split; [reflexivity|].
  intros (r & H & _). discriminate H.
Qed.

End SqrtFacts.

(** ** The voting rounds *)

Module VotingFacts.
Import QuadraticVoting.

Section WithCrypto.
Context {crypto : Crypto}.

Lemma voting_exec_ok c e s :
  is_ok (exec c e s) = true -> exec c e s = Ok (transact c e s).
Proof. unfold transact. destruct (exec c e s); cbn; [reflexivity | discriminate]. Qed.

Lemma voting_revert_keeps_state c e s err :
  exec c e s = Revert err -> transact c e s = s.
Proof. unfold transact. now intros ->. Qed.


Lemma startVotingRound_ok d cd root e s s' :
  startVotingRound d cd root e s = Ok s' ->
  (currentRoundId s = 0 \/ finalized (votingRounds s (currentRoundId s)) = true) /\
  currentRoundId s' = currentRoundId s + 1 /\
  finalized (votingRounds s' (currentRoundId s')) = false /\
  forall r, r <> currentRoundId s + 1 -> votingRounds s' r = votingRounds s r.
Proof.
  unfold startVotingRound. intros H. ok_inv H. subst s'. cbn.
  apply orb_true_iff in Hstep0. rewrite N.eqb_eq in Hstep0.
  split; [exact Hstep0|]. split; [reflexivity|].
  split; [now rewrite upd_same|].
  intros r Hr. now apply upd_other.
Qed.

Lemma step_keeps_rounds c e s s' :
  exec c e s = Ok s' ->
  (exists d cd root, c = Call_startVotingRound d cd root) \/
  (currentRoundId s' = currentRoundId s /\
   forall r, r <> currentRoundId s -> votingRounds s' r = votingRounds s r).
Proof.
  destruct c; cbn [exec]; intros H.
  - left. eauto.
  - right. unfold commitVote in H. ok_inv H. subst s'. cbn. auto.
  - right. unfold revealVote in H. ok_inv H. subst s'. cbn.
    split; [reflexivity|]. intros r Hr. now apply upd_other.
  - right. unfold finalizeRound in H. ok_inv H. subst s'. cbn.
    split; [reflexivity|]. intros r Hr. now apply upd_other.
  - right. unfold pause in H. ok_inv H. subst s'. cbn. auto.
  - right. unfold unpause in H. ok_inv H. subst s'. cbn. auto.
  - right. unfold grantRole in H. ok_inv H. subst s'. cbn. auto.
  - right. unfold revokeRole in H. ok_inv H. subst s'. cbn. auto.
  - right. unfold renounceRole in H. ok_inv H. subst s'. cbn. auto.
Qed.

Lemma reachable_earlier_rounds_finalized s :
  reachable s -> earlier_rounds_finalized s.
Proof.
  induction 1 as [admin | s s' c e Hreach IH Henv Hexec].
  - intros r H1 H2. cbn in H2. lia.
  - intros r H1 H2.
    destruct (step_keeps_rounds _ _ _ _ Hexec) as [(d & cd & root & ->) | [Hid Hframe]].
    + cbn [exec] in Hexec.
      apply startVotingRound_ok in Hexec as (Hprev & Hid & _ & Hframe).
      rewrite Hid in H2. rewrite Hframe by lia.
      destruct (N.eq_dec r (currentRoundId s)) as [->|Hne].
      * destruct Hprev as [H0|Hfin]; [lia | exact Hfin].
      * apply IH; lia.
    + rewrite Hid in H2. rewrite Hframe by lia. apply IH; lia.
Qed.

(** C10. In every reachable state at most one round is not finalized, the
    current one; [startVotingRound] fails while the current round exists and
    is not finalized; when it succeeds the new round has the previous id plus
    one and the earlier rounds, all finalized, are unchanged. *)
Theorem one_open_round s :
  reachable s ->
  (forall r, 1 <= r -> r <= currentRoundId s ->
     finalized (votingRounds s r) = false -> r = currentRoundId s) /\
  (forall d cd root e,
     currentRoundId s <> 0 ->
     finalized (votingRounds s (currentRoundId s)) = false ->
     is_ok (startVotingRound d cd root e s) = false /\
     (_roles s ADMIN_ROLE (msg_sender e) = true ->
      startVotingRound d cd root e s
      = Revert (RequireFailed "Previous round not finalized"))) /\
  (forall d cd root e s',
     startVotingRound d cd root e s = Ok s' ->
     currentRoundId s' = currentRoundId s + 1 /\
     (forall r, r <> currentRoundId s' -> votingRounds s' r = votingRounds s r) /\
     (forall r, 1 <= r -> r <= currentRoundId s ->
        finalized (votingRounds s' r) = true)).
Proof.
  intros Hreach.
  pose proof (reachable_earlier_rounds_finalized s Hreach) as Hinv.
  split; [|split].
  - intros r H1 H2 Hopen.
    destruct (N.eq_dec r (currentRoundId s)) as [Heq|Hne]; [exact Heq|].
    rewrite Hinv in Hopen by lia. discriminate.
  - intros d cd root e Hcur Hopen.
    unfold startVotingRound, onlyRole.
    apply N.eqb_neq in Hcur. rewrite Hcur, Hopen.
    destruct (_roles s ADMIN_ROLE (msg_sender e)); cbn; split; auto.
    intros; discriminate.
  - intros d cd root e s' Hok.
    apply startVotingRound_ok in Hok as (Hprev & Hid & _ & Hframe).
    split; [exact Hid|]. split.
    + intros r Hr. apply Hframe. now rewrite <- Hid.
    + intros r H1 H2. rewrite Hframe by lia.
      destruct (N.eq_dec r (currentRoundId s)) as [->|Hne].
      * destruct Hprev as [H0|Hfin]; [lia | exact Hfin].
      * apply Hinv; lia.
Qed.

(** A successful [commitVote] found no commitment and stores its own. *)
Lemma commitVote_ok commit proof e s s' :
  commitVote commit proof e s = Ok s' ->
  commitment (votes s (currentRoundId s) (msg_sender e)) = 0 /\
  commitment (votes s' (currentRoundId s) (msg_sender e)) = commit /\
  forall r v, (r, v) <> (currentRoundId s, msg_sender e) ->
              votes s' r v = votes s r v.
Proof.
  unfold commitVote. intros H. ok_inv H. subst s'. cbn.
  apply negb_false_iff, N.eqb_eq in Hstep2.
  split; [exact Hstep2|]. split; [now rewrite !upd_same|].
  intros r v Hne. unfold upd.
  destruct (N.eqb_spec r (currentRoundId s)) as [->|]; [|reflexivity].
  destruct (N.eqb_spec v (msg_sender e)) as [->|]; [congruence | reflexivity].
Qed.

(** A successful [revealVote] keeps the commitment and records a count
    between 1 and [MAX_VOTES_PER_PROPOSAL]. *)
Lemma revealVote_ok proposalId voteCount nonce e s s' :
  revealVote proposalId voteCount nonce e s = Ok s' ->
  1 <= voteCount /\ voteCount <= MAX_VOTES_PER_PROPOSAL /\
  votes s' (currentRoundId s) (msg_sender e)
  = mkVote (commitment (votes s (currentRoundId s) (msg_sender e))) voteCount true
           (counted (votes s (currentRoundId s) (msg_sender e))) /\
  forall r v, (r, v) <> (currentRoundId s, msg_sender e) ->
              votes s' r v = votes s r v.
Proof.
  unfold revealVote. intros H. ok_inv H. subst s'. cbn.
  apply orb_false_iff in Hstep3 as [Hz Hmax].
  apply N.eqb_neq in Hz. apply N.ltb_ge in Hmax.
  split; [lia|]. split; [exact Hmax|]. split; [now rewrite !upd_same|].
  intros r v Hne. unfold upd.
  destruct (N.eqb_spec r (currentRoundId s)) as [->|]; [|reflexivity].
  destruct (N.eqb_spec v (msg_sender e)) as [->|]; [congruence | reflexivity].
Qed.

(** How a transaction changes the table of votes. *)
Lemma step_votes c e s s' :
  exec c e s = Ok s' ->
  forall r v,
    votes s' r v = votes s r v \/
    (commitment (votes s r v) = 0 /\
     votesRevealed (votes s' r v) = votesRevealed (votes s r v) /\
     revealed (votes s' r v) = revealed (votes s r v)) \/
    (commitment (votes s' r v) = commitment (votes s r v) /\
     revealed (votes s' r v) = true /\
     1 <= votesRevealed (votes s' r v) <= MAX_VOTES_PER_PROPOSAL).
Proof.
  intros H r v. destruct c; cbn [exec] in H.
  - left. unfold startVotingRound in H. ok_inv H. now subst s'.
  - destruct (commitVote_ok _ _ _ _ _ H) as (Hzero & Hnew & Hframe).
    destruct (N.eq_dec r (currentRoundId s)) as [->|Hr];
      [destruct (N.eq_dec v (msg_sender e)) as [->|Hv]|].
    + right; left. split; [exact Hzero|].
      unfold commitVote in H. ok_inv H. subst s'. cbn. now rewrite !upd_same.
    + left. apply Hframe. congruence.
    + left. apply Hframe. congruence.
  - destruct (revealVote_ok _ _ _ _ _ _ H) as (H1 & H2 & Hnew & Hframe).
    destruct (N.eq_dec r (currentRoundId s)) as [->|Hr];
      [destruct (N.eq_dec v (msg_sender e)) as [->|Hv]|].
    + right; right. rewrite Hnew. cbn. auto.
    + left. apply Hframe. congruence.
    + left. apply Hframe. congruence.
  - left. unfold finalizeRound in H. ok_inv H. now subst s'.
  - left. unfold pause in H. ok_inv H. now subst s'.
  - left. unfold unpause in H. ok_inv H. now subst s'.
  - left. unfold grantRole in H. ok_inv H. now subst s'.
  - left. unfold revokeRole in H. ok_inv H. now subst s'.
  - left. unfold renounceRole in H. ok_inv H. now subst s'.
Qed.

(** C4 (amended). A zero commitment counts as none. Once a non-zero
    commitment is stored for (round, caller) no transaction changes it, and
    every further [commitVote] of that caller in that round fails and leaves
    the state as it is: with [AlreadyVoted] when the contract is not paused,
    the call is inside the commit window and the proof is valid, with the
    error of the earlier guard otherwise. A [commitVote] that succeeds found
    the zero commitment and stores its own. *)
Theorem nonzero_commitment_is_final s :
  (forall c e s' r v,
     exec c e s = Ok s' -> commitment (votes s r v) <> 0 ->
     commitment (votes s' r v) = commitment (votes s r v)) /\
  (forall commit proof e,
     commitment (votes s (currentRoundId s) (msg_sender e)) <> 0 ->
     is_ok (commitVote commit proof e s) = false /\
     transact (Call_commitVote commit proof) e s = s /\
     (_paused s = false ->
      startTime (votingRounds s (currentRoundId s)) <= block_timestamp e ->
      block_timestamp e <= commitEndTime (votingRounds s (currentRoundId s)) ->
      _verifyVoter (msg_sender e) proof
        (merkleRoot (votingRounds s (currentRoundId s))) = true ->
      commitVote commit proof e s = Revert AlreadyVoted)) /\
  (forall commit proof e s',
     commitVote commit proof e s = Ok s' ->
     commitment (votes s (currentRoundId s) (msg_sender e)) = 0 /\
     commitment (votes s' (currentRoundId s) (msg_sender e)) = commit).
Proof.
  split; [|split].
  - intros c e s' r v Hexec Hne.
    destruct (step_votes _ _ _ _ Hexec r v) as [-> | [(H0 & _) | (Hc & _)]];
      [reflexivity | contradiction | exact Hc].
  - intros commit proof e Hne.
    assert (Hfail : is_ok (commitVote commit proof e s) = false).
    { destruct (commitVote commit proof e s) as [s'|err] eqn:E; [|reflexivity].
      apply commitVote_ok in E as (H0 & _). contradiction. }
    split; [exact Hfail|]. split.
    + apply is_ok_false in Hfail as [err Herr].
      now apply (voting_revert_keeps_state _ _ _ err).
    + intros Hp H1 H2 Hv. unfold commitVote, whenNotPaused.
      rewrite Hp. cbn [bind].
      apply N.ltb_ge in H1. apply N.ltb_ge in H2. rewrite H1, H2.
      cbn [orb revert_if bind]. rewrite Hv. cbn [negb revert_if bind].
      apply N.eqb_neq in Hne. now rewrite Hne.
  - intros commit proof e s' Hok.
    destruct (commitVote_ok _ _ _ _ _ Hok) as (H0 & Hnew & _). auto.
Qed.


Lemma reachable_revealed_in_range s : reachable s -> revealed_in_range s.
Proof.
  induction 1 as [admin | s s' c e Hreach IH Henv Hexec]; intros r v Hrev.
  - cbn in Hrev. discriminate.
  - destruct (step_votes _ _ _ _ Hexec r v) as [Heq | [(_ & Hn & Hr) | (_ & _ & Hb)]].
    + rewrite Heq in *. now apply IH.
    + rewrite Hn. apply IH. now rewrite <- Hr.
    + exact Hb.
Qed.

(** C7. [revealVote] never succeeds with a count of 0 or above
    [MAX_VOTES_PER_PROPOSAL] (10), and fails with [InvalidVoteCount] when the
    call is otherwise valid (not paused, inside the reveal window, not yet
    revealed, matching commitment); so in every reachable state a vote
    recorded as revealed has [1 <= votesRevealed <= 10] and
    [votesRevealed * votesRevealed <= CREDITS_PER_ROUND]. *)
Theorem reveal_count_bounds s :
  reachable s ->
  (forall proposalId voteCount nonce e,
     voteCount = 0 \/ MAX_VOTES_PER_PROPOSAL < voteCount ->
     is_ok (revealVote proposalId voteCount nonce e s) = false /\
     (_paused s = false ->
      commitEndTime (votingRounds s (currentRoundId s)) <= block_timestamp e ->
      block_timestamp e <= endTime (votingRounds s (currentRoundId s)) ->
      revealed (votes s (currentRoundId s) (msg_sender e)) = false ->
      keccak_vote proposalId voteCount nonce
      = commitment (votes s (currentRoundId s) (msg_sender e)) ->
      revealVote proposalId voteCount nonce e s = Revert InvalidVoteCount)) /\
  (forall r v,
     revealed (votes s r v) = true ->
     1 <= votesRevealed (votes s r v) /\
     votesRevealed (votes s r v) <= 10 /\
     votesRevealed (votes s r v) * votesRevealed (votes s r v) <= CREDITS_PER_ROUND).
Proof.
  intros Hreach. split.
  - intros proposalId voteCount nonce e Hbad. split.
    + destruct (revealVote proposalId voteCount nonce e s) as [s'|err] eqn:E;
        [|reflexivity].
      apply revealVote_ok in E as (H1 & H2 & _). lia.
    + intros Hp H1 H2 Hrev Hhash. unfold revealVote, whenNotPaused.
      rewrite Hp. cbn [bind].
      apply N.ltb_ge in H1. apply N.ltb_ge in H2. rewrite H1, H2, Hrev.
      cbn [orb revert_if bind].
      rewrite Hhash, N.eqb_refl. cbn [negb revert_if bind].
      assert (Hc : (voteCount =? 0) || (MAX_VOTES_PER_PROPOSAL <? voteCount) = true).
      { apply orb_true_iff. destruct Hbad as [->|Hgt]; [left; reflexivity|].
        right. now apply N.ltb_lt. }
      now rewrite Hc.
  - intros r v Hrev.
    destruct (reachable_revealed_in_range s Hreach r v Hrev) as [H1 H2].
    unfold MAX_VOTES_PER_PROPOSAL, CREDITS_PER_ROUND in *. nia.
Qed.

End WithCrypto.

(** *** The concrete execution of [VotingScenario] *)

Import QuadraticVoting.Toy VotingScenario.

Ltac run_voting_transaction :=
  eapply reachable_step;
  [ | | apply voting_exec_ok; by_computation ];
  [ | valid_env_by_computation ].

Lemma started_reachable : reachable started.
Proof. unfold started. run_voting_transaction. apply reachable_init. Qed.

Lemma committed_reachable : reachable committed.
Proof. unfold committed. run_voting_transaction. apply started_reachable. Qed.

Lemma revealed_five_reachable : reachable revealed_five.
Proof. unfold revealed_five. run_voting_transaction. apply committed_reachable. Qed.

(** The end-to-end scenario of the specification: commit at 10, reveal at
    150; a reveal at 250 is past the window. *)
Example reveal_tally :
  totalVotes (getProposalScore 1 1 revealed_five) = 5 /\
  uniqueVoters (getProposalScore 1 1 revealed_five) = 1 /\
  quadraticScore (getProposalScore 1 1 revealed_five) = 2236067977 /\
  revealVote 1 5 7 (by_at voter 250) committed = Revert InvalidVotingPhase.
Proof. repeat split; by_computation. Qed.

Lemma one_open_round_witness :
  reachable started /\
  is_ok (startVotingRound 200 100 root (by_at admin 20) started) = false.
Proof.
  split; [exact started_reachable|].
  apply (one_open_round started started_reachable); by_computation.
Defined.

(** C4 as stated fails when the first commitment is [bytes32(0)]: the
    second [commitVote] of the same voter in the same round succeeds and
    replaces it. *)
Lemma zero_commitment_allows_second_commit :
  reachable started /\
  commitVote 0 [] (by_at voter 10) started = Ok committed_zero /\
  commitment (votes committed_zero 1 voter) = 0 /\
  commitVote 77 [] (by_at voter 20) committed_zero = Ok committed_again /\
  commitVote 77 [] (by_at voter 20) committed_zero <> Revert AlreadyVoted /\
  commitment (votes committed_again 1 voter) = 77.
Proof.
  assert (H1 : commitVote 0 [] (by_at voter 10) started = Ok committed_zero)
    by (apply (voting_exec_ok (Call_commitVote 0 [])); by_computation).
  assert (H2 : commitVote 77 [] (by_at voter 20) committed_zero = Ok committed_again)
    by (apply (voting_exec_ok (Call_commitVote 77 [])); by_computation).
  split; [exact started_reachable|].
  repeat split; try assumption; by_computation.
Qed.

Lemma nonzero_commitment_is_final_witness :
  commitment (votes committed (currentRoundId committed) voter) <> 0 /\
  is_ok (commitVote 77 [] (by_at voter 20) committed) = false /\
  commitVote 77 [] (by_at voter 20) committed = Revert AlreadyVoted.
Proof.
  assert (Hne : commitment (votes committed (currentRoundId committed)
                              (msg_sender (by_at voter 20))) <> 0)
    by by_computation.
  destruct (nonzero_commitment_is_final committed) as (_ & Hfinal & _).
  destruct (Hfinal 77 [] (by_at voter 20) Hne) as (Hfail & _ & Herr).
  split; [exact Hne|]. split; [exact Hfail|].
  apply Herr; by_computation.
Defined.

Lemma committed_count_reachable count :
  is_ok (commitVote (pack_vote 1 count 7) [] (by_at voter 10) started) = true ->
  reachable (committed_count count).
Proof.
  intros Hok. unfold committed_count.
  apply (reachable_step started _ (Call_commitVote (pack_vote 1 count 7) [])
           (by_at voter 10));
    [exact started_reachable | valid_env_by_computation | now apply voting_exec_ok].
Qed.

(** The counts 0, 11 and 1000, each revealed against a commitment to that
    very count, inside the reveal window. *)
Example reveal_rejects_0_11_1000 :
  revealVote 1 0 7 (by_at voter 150) (committed_count 0) = Revert InvalidVoteCount /\
  revealVote 1 11 7 (by_at voter 150) (committed_count 11) = Revert InvalidVoteCount /\
  revealVote 1 1000 7 (by_at voter 150) (committed_count 1000) = Revert InvalidVoteCount.
Proof. repeat split; by_computation. Qed.

Lemma reveal_count_bounds_witness :
  reachable (committed_count 11) /\
  revealVote 1 11 7 (by_at voter 150) (committed_count 11) = Revert InvalidVoteCount.
Proof.
  assert (Hreach : reachable (committed_count 11))
    by (apply committed_count_reachable; by_computation).
  split; [exact Hreach|].
  destruct (reveal_count_bounds (committed_count 11) Hreach) as [Hfail _].
  apply (Hfail 1 11 7 (by_at voter 150)); [right|..]; by_computation.
Defined.

End VotingFacts.

(** ** The milestone escrow *)

Module FundingFacts.
Import MilestoneFunding.

Section WithTokens.
Context {Ledger : Type} {tokens : Tokens Ledger}.
Implicit Types s : @State Ledger.

Lemma funding_exec_ok c e s :
  is_ok (exec c e s) = true -> exec c e s = Ok (transact c e s).
Proof. unfold transact. destruct (exec c e s); cbn; [reflexivity | discriminate]. Qed.

Lemma status_eqb_eq a b : status_eqb a b = true <-> a = b.
Proof. destruct a, b; cbn; split; intros H; try reflexivity; discriminate. Qed.

Lemma status_eqb_neq a b : status_eqb a b = false <-> a <> b.
Proof. destruct a, b; cbn; split; intros H; try reflexivity; try discriminate;
  congruence. Qed.

(** *** Sums over the milestones of a project *)

Lemma sum_upto_ext f g n :
  (forall i, i < N.of_nat n -> f i = g i) -> sum_upto f n = sum_upto g n.
Proof.
  induction n as [|n IH]; intros H; [reflexivity|]. cbn [sum_upto].
  rewrite IH by (intros i Hi; apply H; lia). rewrite H by lia. reflexivity.
Qed.

Lemma sum_upto_zero f n :
  (forall i, i < N.of_nat n -> f i = 0) -> sum_upto f n = 0.
Proof.
  induction n as [|n IH]; intros H; [reflexivity|]. cbn [sum_upto].
  rewrite IH by (intros i Hi; apply H; lia). rewrite H by lia. reflexivity.
Qed.

Lemma sum_upto_bump f g n k d :
  k < N.of_nat n -> g k = f k + d -> (forall i, i <> k -> g i = f i) ->
  sum_upto g n = sum_upto f n + d.
Proof.
  induction n as [|n IH]; intros Hk Hgk Hother; [lia|]. cbn [sum_upto].
  destruct (N.eq_dec k (N.of_nat n)) as [->|Hne].
  - rewrite Hgk. rewrite (sum_upto_ext g f) by (intros i Hi; apply Hother; lia).
    lia.
  - rewrite IH by (auto; lia). rewrite Hother by auto. lia.
Qed.

Lemma sum_upto_le_slack f g n k d :
  (forall i, f i <= g i) -> k < N.of_nat n -> f k + d <= g k ->
  sum_upto f n + d <= sum_upto g n.
Proof.
  intros Hle. induction n as [|n IH]; intros Hk Hd; [lia|]. cbn [sum_upto].
  assert (Hsum : forall m, sum_upto f m <= sum_upto g m).
  { induction m as [|m IHm]; cbn [sum_upto]; [lia|].
    specialize (Hle (N.of_nat m)). lia. }
  destruct (N.eq_dec k (N.of_nat n)) as [->|Hne].
  - specialize (Hsum n). lia.
  - specialize (IH ltac:(lia) Hd). specialize (Hle (N.of_nat n)). lia.
Qed.

Lemma Nsum_app l l' : Nsum (l ++ l') = Nsum l + Nsum l'.
Proof.
  induction l as [|a l IH]; cbn [app Nsum fold_right]; [reflexivity|].
  fold (Nsum (l ++ l')). fold (Nsum l). rewrite IH. lia.
Qed.

Lemma sum_upto_list f l :
  (forall k, (k < List.length l)%nat -> f (N.of_nat k) = nth k l 0) ->
  sum_upto f (List.length l) = Nsum l.
Proof.
  induction l as [|a l IH] using rev_ind; intros H; [reflexivity|].
  rewrite length_app, Nat.add_comm. cbn [List.length Nat.add sum_upto].
  rewrite IH.
  - rewrite H by (rewrite length_app; cbn; lia).
    rewrite app_nth2, Nat.sub_diag by lia. cbn [nth].
    rewrite Nsum_app. cbn. lia.
  - intros k Hk. rewrite H by (rewrite length_app; cbn; lia).
    now rewrite app_nth1.
Qed.

(** *** Reading a milestone after a write *)

Lemma milestone_of_set_same pid mid m s :
  milestone_of (set_milestone_of pid mid m s) pid mid = m.
Proof.
  cbv [milestone_of set_milestone_of set_project set_milestone projects
       milestones upd].
  now rewrite !N.eqb_refl.
Qed.

Lemma milestone_of_set_other pid mid m s p i :
  (p, i) <> (pid, mid) ->
  milestone_of (set_milestone_of pid mid m s) p i = milestone_of s p i.
Proof.
  intros Hne.
  cbv [milestone_of set_milestone_of set_project set_milestone projects
       milestones upd].
  destruct (N.eqb_spec p pid) as [->|]; [|reflexivity].
  destruct (N.eqb_spec i mid) as [->|]; [congruence | reflexivity].
Qed.

Lemma milestone_of_emit ev s p i :
  milestone_of (emit ev s) p i = milestone_of s p i.
Proof. reflexivity. Qed.

(** *** What a successful call has checked and written *)

Lemma same_scalars_set_milestone_of pid mid m s p :
  same_scalars (projects s p) (projects (set_milestone_of pid mid m s) p).
Proof.
  cbv [same_scalars set_milestone_of set_project set_milestone projects upd].
  destruct (N.eqb_spec p pid) as [->|]; repeat split; reflexivity.
Qed.

Lemma submitMilestone_ok pid mid h e s s' :
  submitMilestone pid mid h e s = Ok s' ->
  msg_sender e = creator (projects s pid) /\
  status (milestone_of s pid mid) = Pending /\
  nextProjectId s' = nextProjectId s /\
  platformFeeRate s' = platformFeeRate s /\
  events s' = MilestoneSubmitted pid mid h :: events s /\
  (forall p, same_scalars (projects s p) (projects s' p)) /\
  (forall p i, (p, i) <> (pid, mid) -> milestone_of s' p i = milestone_of s p i) /\
  milestone_of s' pid mid =
    mkMilestone (description (milestone_of s pid mid))
                (fundingAmount (milestone_of s pid mid))
                (deadline (milestone_of s pid mid)) h InReview [0; 0]
                (approvalCount (milestone_of s pid mid)) (block_timestamp e)
                (autoReleaseEnabled (milestone_of s pid mid))
                (autoReleaseTime (milestone_of s pid mid)).
Proof.
  unfold submitMilestone. intros H. ok_inv H. subst s'.
  apply N.eqb_eq in Hstep. apply status_eqb_eq in Hstep0.
  split; [exact Hstep|]. split; [exact Hstep0|].
  split; [reflexivity|]. split; [reflexivity|]. split; [reflexivity|].
  unfold _assignReviewers. split; [|split].
  - intros p.
    pose proof (same_scalars_set_milestone_of pid mid
      (mkMilestone (description (milestones (projects s pid) mid))
         (fundingAmount (milestones (projects s pid) mid))
         (deadline (milestones (projects s pid) mid)) h InReview
         (assignedReviewers (milestones (projects s pid) mid))
         (approvalCount (milestones (projects s pid) mid)) (block_timestamp e)
         (autoReleaseEnabled (milestones (projects s pid) mid))
         (autoReleaseTime (milestones (projects s pid) mid))) s p) as H1.
    match goal with
    | |- same_scalars _ (projects (emit _ (set_milestone_of _ _ ?m ?s1)) _) =>
        pose proof (same_scalars_set_milestone_of pid mid m s1 p) as H2
    end.
    unfold same_scalars in *. cbn [emit projects] in *.
    destruct H1 as (? & ? & ? & ?), H2 as (? & ? & ? & ?).
    repeat split; congruence.
  - intros p i Hne. rewrite milestone_of_emit.
    rewrite !milestone_of_set_other by assumption. reflexivity.
  - rewrite milestone_of_emit. rewrite !milestone_of_set_same. reflexivity.
Qed.

Lemma release_conditions_cases now m :
  (status m = Approved /\ release_conditions now m = (true, m)) \/
  (status m = InReview /\ autoReleaseEnabled m = true /\ autoReleaseTime m < now /\
   release_conditions now m = (true, set_status Approved m)) \/
  (status m <> Approved /\ release_conditions now m = (false, m) /\
   (status m = InReview -> autoReleaseEnabled m = true -> now <= autoReleaseTime m)).
Proof.
  unfold release_conditions.
  destruct (status_eqb (status m) Approved) eqn:Ha.
  - left. apply status_eqb_eq in Ha. auto.
  - apply status_eqb_neq in Ha.
    destruct (autoReleaseEnabled m) eqn:Hen; cbn [andb].
    + destruct (N.ltb_spec (autoReleaseTime m) now) as [Hlt|Hge]; cbn [andb].
      * destruct (status_eqb (status m) InReview) eqn:Hr.
        -- right; left. apply status_eqb_eq in Hr. auto.
        -- right; right. apply status_eqb_neq in Hr.
           repeat split; auto. intros; contradiction.
      * right; right. repeat split; auto.
    + right; right. repeat split; auto. intros; discriminate.
Qed.

Lemma releaseMilestoneFunds_ok pid mid e s s' :
  releaseMilestoneFunds pid mid e s = Ok s' ->
  fst (release_conditions (block_timestamp e) (milestone_of s pid mid)) = true /\
  status (milestone_of s pid mid) <> Released /\
  nextProjectId s' = nextProjectId s /\
  platformFeeRate s' = platformFeeRate s /\
  events s' = MilestoneReleased pid mid (fundingAmount (milestone_of s pid mid))
              :: events s /\
  (forall p, p <> pid -> projects s' p = projects s p) /\
  creator (projects s' pid) = creator (projects s pid) /\
  totalFunding (projects s' pid) = totalFunding (projects s pid) /\
  milestoneCount (projects s' pid) = milestoneCount (projects s pid) /\
  releasedFunding (projects s' pid)
  = releasedFunding (projects s pid) + fundingAmount (milestone_of s pid mid) /\
  (forall i, i <> mid -> milestone_of s' pid i = milestone_of s pid i) /\
  milestone_of s' pid mid = set_status Released (milestone_of s pid mid).
Proof.
  unfold releaseMilestoneFunds. intros H. ok_inv H. subst s'.
  fold (milestone_of s pid mid) in *.
  set (m := milestone_of s pid mid) in *.
  assert (Hsnd : fundingAmount (snd (release_conditions (block_timestamp e) m))
                 = fundingAmount m /\
                 set_status Released (snd (release_conditions (block_timestamp e) m))
                 = set_status Released m /\ status m <> Released).
  { destruct (release_conditions_cases (block_timestamp e) m)
      as [(Hs & ->) | [(Hs & _ & _ & ->) | (_ & Hc & _)]]; cbn [snd].
    - repeat split; congruence.
    - repeat split; congruence.
    - rewrite Hc in Hstep. discriminate. }
  destruct Hsnd as (Hf & Hst & Hnr). rewrite Hf in *. rewrite Hst in *.
  split; [exact Hstep|]. split; [exact Hnr|].
  split; [reflexivity|]. split; [reflexivity|]. split; [reflexivity|].
  unfold _rewardReviewers.
  cbv [emit set_ledger set_project set_releasedFunding set_milestone
       projects milestone_of milestones creator totalFunding milestoneCount
       releasedFunding upd].
  rewrite !N.eqb_refl.
  split; [intros p Hp; apply N.eqb_neq in Hp; now rewrite Hp|].
  split; [reflexivity|]. split; [reflexivity|]. split; [reflexivity|].
  split; [reflexivity|].
  split; [intros i Hi; apply N.eqb_neq in Hi; now rewrite Hi|].
  reflexivity.
Qed.

(** The transfers of a successful release, and the state it leaves. *)
Lemma releaseMilestoneFunds_written p i e s s' :
  releaseMilestoneFunds p i e s = Ok s' ->
  fst (release_conditions (block_timestamp e) (milestone_of s p i)) = true /\
  status (milestone_of s p i) <> Released /\
  exists fee l1 l2,
    fee = fundingAmount (milestone_of s p i) * platformFeeRate s / 10000 /\
    fee <= fundingAmount (milestone_of s p i) /\
    safeTransfer (fundingToken (projects s p)) (creator (projects s p))
      (fundingAmount (milestone_of s p i) - fee) (ledger s) = Ok l1 /\
    safeTransfer (fundingToken (projects s p)) (treasury s) fee l1 = Ok l2 /\
    s' = emit (MilestoneReleased p i (fundingAmount (milestone_of s p i)))
           (set_ledger l2
              (set_project p
                 (set_releasedFunding
                    (releasedFunding (projects s p)
                     + fundingAmount (milestone_of s p i))
                    (set_milestone i (set_status Released (milestone_of s p i))
                       (projects s p))) s)).
Proof.
  unfold releaseMilestoneFunds. intros H.
  fold (milestone_of s p i) in H.
  set (m := milestone_of s p i) in *.
  assert (Hsnd : fst (release_conditions (block_timestamp e) m) = true ->
                 fundingAmount (snd (release_conditions (block_timestamp e) m))
                 = fundingAmount m /\
                 set_status Released (snd (release_conditions (block_timestamp e) m))
                 = set_status Released m /\ status m <> Released).
  { destruct (release_conditions_cases (block_timestamp e) m)
      as [(Hs & ->) | [(Hs & _ & _ & ->) | (_ & -> & _)]]; cbn [fst snd]; intros Hg.
    - repeat split; congruence.
    - repeat split; congruence.
    - discriminate Hg. }
  apply bind_ok in H. destruct H as (u1 & Hgate & H). apply require_ok in Hgate.
  destruct (Hsnd Hgate) as (Hf & Hst & Hnr). rewrite Hf, Hst in H.
  ok_inv H. subst s'.
  split; [exact Hgate|]. split; [exact Hnr|].
  eexists _, _, _. repeat split; eassumption.
Qed.

(** The loop of [createProject]: what it writes from index [i] on. *)
Lemma createProject_loop_ok now amounts :
  forall descriptions deadlines i ms total ms' total',
    total <= MAX_UINT256 ->
    createProject_loop now i amounts descriptions deadlines ms total
    = Ok (ms', total') ->
    total' = total + Nsum amounts /\
    total' <= MAX_UINT256 /\
    (forall j, j < i \/ i + len amounts <= j -> ms' j = ms j) /\
    (forall k, (k < List.length amounts)%nat ->
       fundingAmount (ms' (i + N.of_nat k)) = nth k amounts 0 /\
       deadline (ms' (i + N.of_nat k)) = nth k deadlines 0 /\
       now < deadline (ms' (i + N.of_nat k)) /\
       status (ms' (i + N.of_nat k)) = Pending /\
       autoReleaseEnabled (ms' (i + N.of_nat k)) = true /\
       autoReleaseTime (ms' (i + N.of_nat k))
       = deadline (ms' (i + N.of_nat k)) + AUTO_RELEASE_DELAY /\
       assignedReviewers (ms' (i + N.of_nat k))
       = assignedReviewers (ms (i + N.of_nat k)) /\
       approvalCount (ms' (i + N.of_nat k)) = approvalCount (ms (i + N.of_nat k))).
Proof.
  induction amounts as [|a amounts IH];
    intros descriptions deadlines i ms total ms' total' Htotal H.
  - cbn in H. injection H as <- <-. cbn.
    split; [lia|]. split; [exact Htotal|]. split; [reflexivity|].
    intros k Hk. lia.
  - cbn [createProject_loop] in H.
    destruct descriptions as [|text descriptions]; [discriminate H|].
    destruct deadlines as [|due deadlines]; [discriminate H|].
    ok_inv H. apply N.ltb_lt in Hstep.
    apply IH in H; [|lia].
    destruct H as (Hsum & Hmax & Hframe & Hwritten).
    unfold len in *. cbn [List.length Nsum fold_right] in *.
    fold (Nsum amounts).
    split; [lia|]. split; [exact Hmax|]. split.
    + intros j Hj. rewrite Hframe by lia. apply upd_other. lia.
    + intros [|k] Hk.
      * rewrite N.add_0_r. rewrite Hframe by lia. rewrite upd_same. cbn.
        repeat split; auto.
      * replace (i + N.of_nat (S k)) with (i + 1 + N.of_nat k) by lia.
        destruct (Hwritten k ltac:(lia)) as (H1 & H2 & H3 & H4 & H5 & H6 & H7 & H8).
        rewrite upd_other in H7, H8 by lia. cbn [nth].
        repeat split; assumption.
Qed.

Lemma createProject_ok name text token amounts descriptions deadlines e s pid s' :
  createProject name text token amounts descriptions deadlines e s = Ok (pid, s') ->
  2 <= len amounts /\ len amounts <= 8 /\
  len amounts = len descriptions /\ len descriptions = len deadlines /\
  pid = nextProjectId s /\
  nextProjectId s' = nextProjectId s + 1 /\
  platformFeeRate s' = platformFeeRate s /\
  (exists total,
     events s' = ProjectCreated pid (msg_sender e) total :: events s) /\
  (forall p, p <> pid -> projects s' p = projects s p) /\
  exists ms total,
    createProject_loop (block_timestamp e) 0 amounts descriptions deadlines
      (milestones (projects s pid)) 0 = Ok (ms, total) /\
    projects s' pid
    = mkProject (msg_sender e) name text token total
                (releasedFunding (projects s pid)) (len amounts) true
                (block_timestamp e) ms.
Proof.
  unfold createProject. intros H. ok_inv H. subst pid s'.
  apply N.leb_le in Hstep, Hstep0.
  apply andb_true_iff in Hstep1 as [Hl1 Hl2].
  apply N.eqb_eq in Hl1, Hl2.
  repeat (split; [first [assumption | reflexivity]|]).
  split; [eexists; reflexivity|].
  split.
  - intros p Hp.
    cbv [emit set_project set_nextProjectId projects upd].
    apply N.eqb_neq in Hp. now rewrite Hp.
  - destruct a2 as [ms total]. exists ms, total. split; [exact Hstep3|].
    cbv [emit set_project set_nextProjectId projects upd fst snd].
    now rewrite N.eqb_refl.
Qed.


(** *** The invariant of the escrow *)

Lemma Inv_initialize d admin stake_token treasury_address (l : Ledger) :
  Inv (initialize d admin stake_token treasury_address l).
Proof.
  constructor; cbn; intros; auto; try discriminate.
  - split; [reflexivity | unfold MAX_UINT256; lia].
  - destruct d; cbn; auto.
Qed.

(** Calls that leave the projects and the release log alone. *)
Lemma Inv_frame s s' :
  nextProjectId s' = nextProjectId s ->
  projects s' = projects s ->
  platformFeeRate s' = platformFeeRate s ->
  (forall p i, release_count p i s' = release_count p i s) ->
  Inv s -> Inv s'.
Proof.
  intros Hn Hp Hf Hl [I1 I2 I3 I4 I5 I6 I7 I8 I9 I10].
  constructor; unfold milestone_of in *; rewrite ?Hn, ?Hp, ?Hf; auto.
  intros p i. rewrite Hl. apply I4.
Qed.

(** With every panel entry the zero address, no account other than
    [address(0)] passes the assigned-panel check. *)
Lemma not_assigned panel a :
  Forall (fun r => r = 0) panel -> a <> 0 ->
  existsb (fun r => r =? a) panel = false.
Proof.
  intros Hall Ha. induction Hall as [|r panel Hr _ IH]; [reflexivity|].
  cbn. rewrite IH, orb_false_r. subst r. apply N.eqb_neq. lia.
Qed.

Lemma reviewMilestone_reverts pid mid approved comments e s :
  Forall (fun r => r = 0) (assignedReviewers (milestone_of s pid mid)) ->
  msg_sender e <> 0 ->
  is_ok (reviewMilestone pid mid approved comments e s) = false /\
  (_roles s REVIEWER_ROLE (msg_sender e) = true ->
   stake_active (reviewerStakes s (msg_sender e)) = true ->
   status (milestone_of s pid mid) = InReview ->
   reviewerVotes s pid mid (msg_sender e) = false ->
   reviewMilestone pid mid approved comments e s
   = Revert (RequireFailed "Not assigned reviewer")).
Proof.
  intros Hpanel Hsender.
  pose proof (not_assigned _ _ Hpanel Hsender) as Hno.
  unfold reviewMilestone, onlyRole. split.
  - destruct (_roles s REVIEWER_ROLE (msg_sender e)); [|reflexivity].
    cbn [bind].
    destruct (stake_active (reviewerStakes s (msg_sender e))); [|reflexivity].
    cbn [require bind].
    destruct (status_eqb (status (milestone_of s pid mid)) InReview); [|reflexivity].
    cbn [require bind].
    destruct (reviewerVotes s pid mid (msg_sender e)); [reflexivity|].
    cbn [negb require bind]. rewrite Hno. reflexivity.
  - intros Hrole Hactive Hstatus Hvote.
    rewrite Hrole, Hactive, Hstatus, Hvote. cbn. rewrite Hno. reflexivity.
Qed.

Lemma release_count_cons ev p i s s' :
  events s' = ev :: events s ->
  release_count p i s'
  = ((if is_release_of p i ev then 1 else 0) + release_count p i s)%nat.
Proof.
  intros H. unfold release_count. rewrite H. cbn [filter].
  destruct (is_release_of p i ev); reflexivity.
Qed.

Lemma released_amount_not_released m :
  status m <> Released -> released_amount m = 0.
Proof.
  intros H. unfold released_amount. apply status_eqb_neq in H. now rewrite H.
Qed.

Lemma Inv_submitMilestone pid mid h e s s' :
  valid_env e -> Inv s -> submitMilestone pid mid h e s = Ok s' -> Inv s'.
Proof.
  intros Henv [I1 I2 I3 I4 I5 I6 I7 I8 I9 I10] H.
  apply submitMilestone_ok in H
    as (Hsender & Hpending & Hnext & Hfee & Hev & Hsc & Hother & Hnew).
  assert (Hcase : forall p i,
            milestone_of s' p i = milestone_of s p i \/
            ((p, i) = (pid, mid) /\ milestone_of s' p i = milestone_of s' pid mid)).
  { intros p i. destruct (N.eq_dec p pid) as [->|Hp];
      [destruct (N.eq_dec i mid) as [->|Hi]|].
    - right. auto.
    - left. apply Hother. congruence.
    - left. apply Hother. congruence. }
  assert (Hamount : forall p i,
            fundingAmount (milestone_of s' p i) = fundingAmount (milestone_of s p i) /\
            autoReleaseEnabled (milestone_of s' p i)
            = autoReleaseEnabled (milestone_of s p i) /\
            autoReleaseTime (milestone_of s' p i)
            = autoReleaseTime (milestone_of s p i) /\
            deadline (milestone_of s' p i) = deadline (milestone_of s p i) /\
            approvalCount (milestone_of s' p i) = approvalCount (milestone_of s p i) /\
            released_amount (milestone_of s' p i)
            = released_amount (milestone_of s p i) /\
            status_eqb (status (milestone_of s' p i)) Released
            = status_eqb (status (milestone_of s p i)) Released).
  { intros p i. destruct (Hcase p i) as [-> | (Heq & ->)]; [repeat split|].
    injection Heq as -> ->. rewrite Hnew. cbn.
    unfold released_amount. cbn. rewrite Hpending. cbn. repeat split. }
  assert (Hfresh : nextProjectId s <= pid -> False).
  { intros Hle. destruct (I1 pid Hle) as (Hc & _).
    destruct Henv as (Hpos & _). lia. }
  constructor.
  - intros p Hp. rewrite Hnext in Hp.
    destruct (Hsc p) as (-> & -> & -> & _).
    destruct (I1 p Hp) as (Hc & Ht & Hr & Hm).
    repeat split; auto. intros i. rewrite <- (Hm i). apply Hother.
    intros Heq. injection Heq as -> ->. now apply Hfresh.
  - intros p i Hi. destruct (Hsc p) as (_ & _ & _ & Hcount).
    rewrite Hcount in Hi. destruct (Hamount p i) as (-> & -> & _).
    now apply I2.
  - intros p. destruct (Hsc p) as (_ & _ & Hr & Hcount).
    rewrite Hr, I3. unfold released_sum. rewrite Hcount.
    apply sum_upto_ext. intros i _. symmetry. apply (Hamount p i).
  - intros p i. rewrite (release_count_cons _ p i s s' Hev). cbn.
    rewrite I4. destruct (Hamount p i) as (_ & _ & _ & _ & _ & _ & ->).
    reflexivity.
  - intros p i. destruct (Hcase p i) as [-> | (_ & ->)]; [apply I5|].
    rewrite Hnew. cbn. repeat constructor.
  - intros p i. destruct (Hamount p i) as (_ & _ & _ & _ & -> & _). apply I6.
  - intros p i. destruct (Hcase p i) as [-> | (_ & ->)]; [apply I7|].
    rewrite Hnew. cbn. auto.
  - intros p i. destruct (Hamount p i) as (_ & -> & -> & -> & _). apply I8.
  - intros p. destruct (Hsc p) as (_ & Ht & _ & Hcount).
    rewrite Ht. destruct (I9 p) as [Hsum Hmax]. split; [|exact Hmax].
    rewrite Hsum. unfold funding_sum. rewrite Hcount.
    apply sum_upto_ext. intros i _. symmetry. apply (Hamount p i).
  - now rewrite Hfee.
Qed.

(** In a state of the invariant a release goes through the auto-release
    branch, on a milestone created by [createProject]. *)
Lemma release_takes_auto_branch pid mid e s s' :
  Inv s -> releaseMilestoneFunds pid mid e s = Ok s' ->
  status (milestone_of s pid mid) = InReview /\
  autoReleaseEnabled (milestone_of s pid mid) = true /\
  autoReleaseTime (milestone_of s pid mid) < block_timestamp e /\
  mid < milestoneCount (projects s pid) /\
  pid < nextProjectId s.
Proof.
  intros [I1 I2 I3 I4 I5 I6 I7 I8 I9 I10] H.
  apply releaseMilestoneFunds_ok in H as (Hgate & _).
  destruct (release_conditions_cases (block_timestamp e) (milestone_of s pid mid))
    as [(Hs & _) | [(Hs & Hen & Htime & _) | (_ & Hc & _)]].
  - destruct (I7 pid mid) as [Hp | [Hp | Hp]]; congruence.
  - repeat split; auto.
    + destruct (N.lt_ge_cases mid (milestoneCount (projects s pid))) as [Hlt|Hge];
        [exact Hlt|].
      destruct (I2 pid mid Hge) as [_ Hoff]. congruence.
    + destruct (N.lt_ge_cases pid (nextProjectId s)) as [Hlt|Hge]; [exact Hlt|].
      destruct (I1 pid Hge) as (_ & _ & _ & Hz). rewrite Hz in Hs. discriminate.
  - rewrite Hc in Hgate. discriminate.
Qed.

Lemma Inv_releaseMilestoneFunds pid mid e s s' :
  Inv s -> releaseMilestoneFunds pid mid e s = Ok s' -> Inv s'.
Proof.
  intros HI H.
  destruct (release_takes_auto_branch _ _ _ _ _ HI H)
    as (Hreview & Hauto & Htime & Hmid & Hpid).
  destruct HI as [I1 I2 I3 I4 I5 I6 I7 I8 I9 I10].
  apply releaseMilestoneFunds_ok in H
    as (_ & _ & Hnext & Hfee & Hev & Hframe & Hcreator & Htotal & Hcount
        & Hreleased & Hother & Hnew).
  set (m := milestone_of s pid mid) in *.
  assert (Hcase : forall p i,
            milestone_of s' p i = milestone_of s p i \/
            ((p, i) = (pid, mid) /\ milestone_of s' p i = set_status Released m)).
  { intros p i. destruct (N.eq_dec p pid) as [->|Hp];
      [destruct (N.eq_dec i mid) as [->|Hi]|].
    - right. auto.
    - left. now apply Hother.
    - left. unfold milestone_of. now rewrite Hframe. }
  assert (Hkeep : forall p i,
            fundingAmount (milestone_of s' p i) = fundingAmount (milestone_of s p i) /\
            autoReleaseEnabled (milestone_of s' p i)
            = autoReleaseEnabled (milestone_of s p i) /\
            autoReleaseTime (milestone_of s' p i)
            = autoReleaseTime (milestone_of s p i) /\
            deadline (milestone_of s' p i) = deadline (milestone_of s p i) /\
            approvalCount (milestone_of s' p i) = approvalCount (milestone_of s p i) /\
            assignedReviewers (milestone_of s' p i)
            = assignedReviewers (milestone_of s p i)).
  { intros p i. destruct (Hcase p i) as [-> | (Heq & ->)]; [repeat split|].
    injection Heq as -> ->. cbn. repeat split. }
  assert (Hscalars : forall p, p <> pid ->
            milestoneCount (projects s' p) = milestoneCount (projects s p) /\
            releasedFunding (projects s' p) = releasedFunding (projects s p) /\
            totalFunding (projects s' p) = totalFunding (projects s p) /\
            creator (projects s' p) = creator (projects s p)).
  { intros p Hp. rewrite Hframe by exact Hp. repeat split. }
  constructor.
  - intros p Hp. rewrite Hnext in Hp.
    assert (Hne : p <> pid) by lia.
    rewrite Hframe by exact Hne. unfold milestone_of. rewrite Hframe by exact Hne.
    now apply I1.
  - intros p i Hi. destruct (Hkeep p i) as (-> & -> & _). apply I2.
    destruct (N.eq_dec p pid) as [->|Hne]; [now rewrite <- Hcount|].
    now destruct (Hscalars p Hne) as (<- & _).
  - intros p. destruct (N.eq_dec p pid) as [->|Hne].
    + rewrite Hreleased, I3. unfold released_sum. rewrite Hcount. symmetry.
      apply sum_upto_bump with (k := mid).
      * lia.
      * fold (milestone_of s' pid mid). fold (milestone_of s pid mid).
        rewrite Hnew. fold m. unfold released_amount. cbn.
        rewrite Hreview. cbn. reflexivity.
      * intros i Hi. fold (milestone_of s' pid i). now rewrite Hother.
    + now rewrite Hframe.
  - intros p i. rewrite (release_count_cons _ p i s s' Hev). rewrite I4.
    cbn [is_release_of].
    destruct (Hcase p i) as [Hsame | (Heq & Hset)].
    + rewrite Hsame.
      destruct (N.eqb_spec pid p) as [<-|]; [|reflexivity].
      destruct (N.eqb_spec mid i) as [<-|]; [|reflexivity].
      rewrite Hnew in Hsame. fold m in Hsame.
      assert (Hst : status (set_status Released m) = status m) by now rewrite Hsame.
      cbn in Hst. congruence.
    + injection Heq as -> ->. rewrite !N.eqb_refl, Hset. fold m.
      rewrite Hreview. reflexivity.
  - intros p i. destruct (Hkeep p i) as (_ & _ & _ & _ & _ & ->). apply I5.
  - intros p i. destruct (Hkeep p i) as (_ & _ & _ & _ & -> & _). apply I6.
  - intros p i. destruct (Hcase p i) as [-> | (_ & ->)]; [apply I7|]. cbn. auto.
  - intros p i. destruct (Hkeep p i) as (_ & -> & -> & -> & _). apply I8.
  - intros p.
    assert (Hsum : funding_sum (projects s' p) = funding_sum (projects s p)).
    { unfold funding_sum.
      replace (milestoneCount (projects s' p)) with (milestoneCount (projects s p))
        by (destruct (N.eq_dec p pid) as [->|Hne];
            [now rewrite Hcount | now destruct (Hscalars p Hne) as (-> & _)]).
      apply sum_upto_ext. intros i _. apply (Hkeep p i). }
    rewrite Hsum.
    replace (totalFunding (projects s' p)) with (totalFunding (projects s p))
      by (destruct (N.eq_dec p pid) as [->|Hne];
          [now rewrite Htotal | now destruct (Hscalars p Hne) as (_ & _ & -> & _)]).
    apply I9.
  - now rewrite Hfee.
Qed.

Lemma Inv_createProject name text token amounts descriptions deadlines e s pid s' :
  Inv s ->
  createProject name text token amounts descriptions deadlines e s = Ok (pid, s') ->
  Inv s'.
Proof.
  intros [I1 I2 I3 I4 I5 I6 I7 I8 I9 I10] H.
  apply createProject_ok in H
    as (_ & _ & _ & _ & -> & Hnext & Hfee & (total0 & Hev) & Hframe
        & ms & total & Hloop & Hproj).
  set (pid := nextProjectId s) in *.
  destruct (I1 pid (N.le_refl _)) as (_ & _ & Hrel0 & Hzero).
  unfold milestone_of in Hzero.
  apply createProject_loop_ok in Hloop; [|unfold MAX_UINT256; lia].
  destruct Hloop as (Hsum & Hmax & Hfr & Hw).
  assert (Hnewm : forall i, milestone_of s' pid i = ms i)
    by (intros i; unfold milestone_of; now rewrite Hproj).
  assert (Hin : forall i, i < len amounts ->
            fundingAmount (ms i) = nth (N.to_nat i) amounts 0 /\
            status (ms i) = Pending /\
            autoReleaseEnabled (ms i) = true /\
            autoReleaseTime (ms i) = deadline (ms i) + AUTO_RELEASE_DELAY /\
            assignedReviewers (ms i) = [] /\
            approvalCount (ms i) = 0).
  { intros i Hi. unfold len in Hi.
    destruct (Hw (N.to_nat i) ltac:(lia)) as (H1 & _ & _ & H4 & H5 & H6 & H7 & H8).
    replace (0 + N.of_nat (N.to_nat i)) with i in * by lia.
    rewrite Hzero in H7, H8. cbn in H7, H8. repeat split; assumption. }
  assert (Hout : forall i, len amounts <= i -> ms i = zero_milestone)
    by (intros i Hi; rewrite Hfr by lia; apply Hzero).
  assert (Hall : forall i,
            status (ms i) = Pending /\ assignedReviewers (ms i) = [] /\
            approvalCount (ms i) = 0 /\
            (autoReleaseEnabled (ms i) = true ->
             autoReleaseTime (ms i) = deadline (ms i) + AUTO_RELEASE_DELAY)).
  { intros i. destruct (N.lt_ge_cases i (len amounts)) as [Hi|Hi].
    - destruct (Hin i Hi) as (_ & H2 & _ & H4 & H5 & H6). auto.
    - rewrite (Hout i Hi). cbn. repeat split; auto. intros; discriminate. }
  assert (Hold : forall p, p <> pid ->
            forall i, milestone_of s' p i = milestone_of s p i)
    by (intros p Hp i; unfold milestone_of; now rewrite Hframe).
  constructor.
  - intros p Hp. rewrite Hnext in Hp. assert (Hne : p <> pid) by lia.
    rewrite Hframe by exact Hne.
    destruct (I1 p ltac:(lia)) as (H1 & H2 & H3 & H4).
    repeat split; auto. intros i. rewrite Hold by exact Hne. apply H4.
  - intros p i Hi. destruct (N.eq_dec p pid) as [->|Hne].
    + rewrite Hnewm. rewrite Hproj in Hi. cbn in Hi.
      rewrite (Hout i Hi). cbn. auto.
    + rewrite Hold by exact Hne. rewrite Hframe in Hi by exact Hne. now apply I2.
  - intros p. destruct (N.eq_dec p pid) as [->|Hne].
    + rewrite Hproj. unfold released_sum. cbn [releasedFunding milestoneCount milestones].
      rewrite Hrel0. symmetry. apply sum_upto_zero. intros i Hi.
      apply released_amount_not_released.
      destruct (Hall i) as (-> & _). discriminate.
    + rewrite Hframe by exact Hne. apply I3.
  - intros p i. rewrite (release_count_cons _ p i s s' Hev). cbn [is_release_of Nat.add].
    rewrite I4. destruct (N.eq_dec p pid) as [->|Hne].
    + rewrite Hnewm. destruct (Hall i) as (-> & _).
      unfold milestone_of. rewrite Hzero. reflexivity.
    + now rewrite Hold.
  - intros p i. destruct (N.eq_dec p pid) as [->|Hne].
    + rewrite Hnewm. destruct (Hall i) as (_ & -> & _). constructor.
    + rewrite Hold by exact Hne. apply I5.
  - intros p i. destruct (N.eq_dec p pid) as [->|Hne].
    + rewrite Hnewm. apply (Hall i).
    + rewrite Hold by exact Hne. apply I6.
  - intros p i. destruct (N.eq_dec p pid) as [->|Hne].
    + rewrite Hnewm. left. apply (Hall i).
    + rewrite Hold by exact Hne. apply I7.
  - intros p i. destruct (N.eq_dec p pid) as [->|Hne].
    + rewrite Hnewm. apply (Hall i).
    + rewrite Hold by exact Hne. apply I8.
  - intros p. destruct (N.eq_dec p pid) as [->|Hne].
    + rewrite Hproj. unfold funding_sum. cbn [totalFunding milestoneCount milestones].
      split; [|exact Hmax].
      rewrite Hsum, N.add_0_l. unfold len. rewrite Nat2N.id. symmetry.
      apply sum_upto_list. intros k Hk.
      destruct (Hin (N.of_nat k) ltac:(unfold len; lia)) as (H1 & _).
      now rewrite Nat2N.id in H1.
    + rewrite Hframe by exact Hne. apply I9.
  - now rewrite Hfee.
Qed.

Lemma release_count_same_events s s' :
  events s' = events s -> forall p i, release_count p i s' = release_count p i s.
Proof. intros H p i. unfold release_count. now rewrite H. Qed.

Lemma Inv_step c e s s' :
  valid_env e -> Inv s -> exec c e s = Ok s' -> Inv s'.
Proof.
  intros Henv HI H. destruct c; cbn [exec] in H.
  - ok_inv H. subst s'. destruct a as [pid s']. cbn [snd].
    eapply Inv_createProject; eassumption.
  - unfold fundProject in H. ok_inv H. subst s'.
    apply (Inv_frame s); auto using release_count_same_events.
  - eapply Inv_submitMilestone; eassumption.
  - exfalso.
    destruct (reviewMilestone_reverts projectId milestoneId approved comments e s)
      as [Hfail _].
    + apply (inv_panel s HI).
    + destruct Henv as (Hpos & _). lia.
    + rewrite H in Hfail. discriminate.
  - eapply Inv_releaseMilestoneFunds; eassumption.
  - unfold stakeAsReviewer in H. ok_inv H. subst s'.
    apply (Inv_frame s); auto.
  - unfold grantRole in H. ok_inv H. subst s'.
    apply (Inv_frame s); auto using release_count_same_events.
  - unfold revokeRole in H. ok_inv H. subst s'.
    apply (Inv_frame s); auto using release_count_same_events.
  - unfold renounceRole in H. ok_inv H. subst s'.
    apply (Inv_frame s); auto using release_count_same_events.
Qed.

Lemma reachable_Inv s : reachable s -> Inv s.
Proof.
  induction 1 as [d admin st tr l | s s' c e Hreach IH Henv Hexec | s l Hreach IH].
  - apply Inv_initialize.
  - eapply Inv_step; eassumption.
  - apply (Inv_frame s); auto using release_count_same_events.
Qed.

(** *** Project creation *)

Lemma createProject_rejects_past_deadline name text token amounts descriptions
    deadlines e s d :
  In d deadlines -> d <= block_timestamp e ->
  is_ok (createProject name text token amounts descriptions deadlines e s) = false.
Proof.
  intros Hin Hd.
  destruct (createProject name text token amounts descriptions deadlines e s)
    as [[pid s']|err] eqn:E; [|reflexivity].
  exfalso. apply createProject_ok in E
    as (_ & _ & Hl1 & Hl2 & _ & _ & _ & _ & _ & ms & total & Hloop & _).
  apply createProject_loop_ok in Hloop; [|unfold MAX_UINT256; lia].
  destruct Hloop as (_ & _ & _ & Hw).
  destruct (In_nth _ _ 0 Hin) as (k & Hk & Hnth).
  unfold len in *.
  destruct (Hw k ltac:(lia)) as (_ & Hdl & Hfuture & _).
  rewrite Hdl, Hnth in Hfuture. lia.
Qed.

(** C2 (amended). [createProject] takes absolute milestone amounts and puts
    no condition on their sum. It fails, creating no project and changing no
    state, when fewer than 2 or more than 8 amounts are given, when the three
    arrays differ in length, or when some deadline is not after the current
    time. For every project it creates, the stored amounts are the given
    ones and [totalFunding] is their sum. *)
Theorem createProject_checks name text token amounts descriptions deadlines e s :
  (len amounts < 2 \/ 8 < len amounts \/
   len amounts <> len descriptions \/ len descriptions <> len deadlines \/
   (exists d, In d deadlines /\ d <= block_timestamp e) ->
   is_ok (createProject name text token amounts descriptions deadlines e s) = false /\
   transact (Call_createProject name text token amounts descriptions deadlines) e s
   = s) /\
  (forall pid s',
     createProject name text token amounts descriptions deadlines e s
     = Ok (pid, s') ->
     pid = nextProjectId s /\
     milestoneCount (projects s' pid) = len amounts /\
     (forall k, (k < List.length amounts)%nat ->
        fundingAmount (milestone_of s' pid (N.of_nat k)) = nth k amounts 0) /\
     totalFunding (projects s' pid) = Nsum amounts /\
     totalFunding (projects s' pid) = funding_sum (projects s' pid)).
Proof.
  split.
  - intros Hbad.
    assert (Hfail : is_ok (createProject name text token amounts descriptions
                             deadlines e s) = false).
    { destruct Hbad as [H | [H | [H | [H | (d & Hin & Hd)]]]];
        try (destruct (createProject name text token amounts descriptions
                         deadlines e s) as [[pid s']|err] eqn:E; [|reflexivity];
             exfalso; apply createProject_ok in E as (H1 & H2 & H3 & H4 & _); lia).
      eapply createProject_rejects_past_deadline; eassumption. }
    split; [exact Hfail|].
    unfold transact. cbn [exec].
    destruct (createProject name text token amounts descriptions deadlines e s);
      [discriminate Hfail | reflexivity].
  - intros pid s' H.
    apply createProject_ok in H
      as (_ & _ & _ & _ & -> & _ & _ & _ & _ & ms & total & Hloop & Hproj).
    apply createProject_loop_ok in Hloop; [|unfold MAX_UINT256; lia].
    destruct Hloop as (Hsum & _ & _ & Hw).
    assert (Hamounts : forall k, (k < List.length amounts)%nat ->
              fundingAmount (ms (N.of_nat k)) = nth k amounts 0).
    { intros k Hk. destruct (Hw k Hk) as (H1 & _).
      now rewrite N.add_0_l in H1. }
    unfold milestone_of, funding_sum. rewrite Hproj.
    cbn [milestoneCount totalFunding milestones].
    split; [reflexivity|]. split; [reflexivity|]. split; [exact Hamounts|].
    split; [lia|].
    rewrite Hsum, N.add_0_l. unfold len. rewrite Nat2N.id. symmetry.
    now apply sum_upto_list.
Qed.

(** *** Release *)

Lemma release_of_released_reverts pid mid e s :
  status (milestone_of s pid mid) = Released ->
  releaseMilestoneFunds pid mid e s = Revert (RequireFailed "Cannot release funds").
Proof.
  intros Hs. unfold releaseMilestoneFunds. fold (milestone_of s pid mid).
  destruct (release_conditions_cases (block_timestamp e) (milestone_of s pid mid))
    as [(Ha & _) | [(Hr & _) | (_ & -> & _)]]; try congruence.
  reflexivity.
Qed.

(** No transaction takes a milestone out of [Released]. *)
Lemma released_is_final c e s s' pid mid :
  Inv s -> valid_env e -> exec c e s = Ok s' ->
  status (milestone_of s pid mid) = Released ->
  status (milestone_of s' pid mid) = Released.
Proof.
  intros HI Henv H Hs. destruct c; cbn [exec] in H.
  - ok_inv H. subst s'. destruct a as [p s']. cbn [snd].
    apply createProject_ok in Hstep
      as (_ & _ & _ & _ & -> & _ & _ & _ & Hframe & _).
    destruct (N.eq_dec pid (nextProjectId s)) as [->|Hne].
    + destruct (inv_fresh s HI (nextProjectId s) (N.le_refl _)) as (_ & _ & _ & Hz).
      rewrite Hz in Hs. discriminate.
    + unfold milestone_of. now rewrite Hframe.
  - unfold fundProject in H. ok_inv H. now subst s'.
  - apply submitMilestone_ok in H as (_ & Hp & _ & _ & _ & _ & Hother & _).
    rewrite Hother; [exact Hs|]. intros Heq. injection Heq as -> ->. congruence.
  - exfalso.
    destruct (reviewMilestone_reverts projectId milestoneId approved comments e s)
      as [Hfail _].
    + apply (inv_panel s HI).
    + destruct Henv as (Hpos & _). lia.
    + rewrite H in Hfail. discriminate.
  - apply releaseMilestoneFunds_ok in H
      as (_ & Hnr & _ & _ & _ & Hframe & _ & _ & _ & _ & Hother & _).
    destruct (N.eq_dec pid projectId) as [->|Hp].
    + rewrite Hother; [exact Hs|]. intros ->. contradiction.
    + unfold milestone_of. now rewrite Hframe.
  - unfold stakeAsReviewer in H. ok_inv H. now subst s'.
  - unfold grantRole in H. ok_inv H. now subst s'.
  - unfold revokeRole in H. ok_inv H. now subst s'.
  - unfold renounceRole in H. ok_inv H. now subst s'.
Qed.

(** C3. A successful [releaseMilestoneFunds] finds the milestone not yet
    [Released], transfers its [fundingAmount] out of the escrow, in two
    transfers that add up to it (to the creator, and the fee to the
    treasury), and leaves it [Released]. Once a milestone is [Released],
    every later [releaseMilestoneFunds] on it fails and moves no funds, and
    no transaction takes it out of [Released]; so in every reachable state
    the log holds exactly one release for each [Released] milestone and none
    for any other, and [releasedFunding] is the sum of [fundingAmount] over
    the [Released] milestones of the project (those below [milestoneCount];
    an index at or above it holds no funds). *)
Theorem release_exactly_once s :
  reachable s ->
  (forall pid mid e s',
     releaseMilestoneFunds pid mid e s = Ok s' ->
     status (milestone_of s pid mid) <> Released /\
     status (milestone_of s' pid mid) = Released /\
     exists toCreator fee l1,
       toCreator + fee = fundingAmount (milestone_of s pid mid) /\
       safeTransfer (fundingToken (projects s pid)) (creator (projects s pid))
         toCreator (ledger s) = Ok l1 /\
       safeTransfer (fundingToken (projects s pid)) (treasury s) fee l1
       = Ok (ledger s')) /\
  (forall pid mid,
     status (milestone_of s pid mid) = Released ->
     (forall e,
        releaseMilestoneFunds pid mid e s
        = Revert (RequireFailed "Cannot release funds") /\
        transact (Call_releaseMilestoneFunds pid mid) e s = s /\
        ledger (transact (Call_releaseMilestoneFunds pid mid) e s) = ledger s) /\
     (forall c e s', valid_env e -> exec c e s = Ok s' ->
        status (milestone_of s' pid mid) = Released)) /\
  (forall pid mid,
     release_count pid mid s
     = if status_eqb (status (milestone_of s pid mid)) Released
       then 1%nat else 0%nat) /\
  (forall pid, releasedFunding (projects s pid) = released_sum (projects s pid)) /\
  (forall pid mid,
     milestoneCount (projects s pid) <= mid ->
     fundingAmount (milestone_of s pid mid) = 0).
Proof.
  intros Hreach. pose proof (reachable_Inv s Hreach) as HI.
  split; [|split; [|split; [|split]]].
  - intros pid mid e s' Hrel.
    pose proof (releaseMilestoneFunds_ok _ _ _ _ _ Hrel)
      as (_ & Hopen & _ & _ & _ & _ & _ & _ & _ & _ & _ & Hdone).
    split; [exact Hopen|]. split; [now rewrite Hdone|].
    apply releaseMilestoneFunds_written in Hrel.
    destruct Hrel as (_ & _ & fee & l1 & l2 & _ & Hle & Hpay & Hcut & ->).
    exists (fundingAmount (milestone_of s pid mid) - fee), fee, l1.
    split; [lia|]. split; [exact Hpay | exact Hcut].
  - intros pid mid Hs. split.
    + intros e. pose proof (release_of_released_reverts pid mid e s Hs) as Hrev.
      assert (Hsame : transact (Call_releaseMilestoneFunds pid mid) e s = s)
        by (unfold transact; cbn [exec]; now rewrite Hrev).
      split; [exact Hrev|]. split; [exact Hsame | now rewrite Hsame].
    + intros c e s' Henv Hexec. eapply released_is_final; eassumption.
  - apply (inv_log s HI).
  - apply (inv_released s HI).
  - intros pid mid Hmid. apply (inv_beyond s HI pid mid Hmid).
Qed.

(** *** The reviewer panel *)

(** C6. [submitMilestone] leaves a panel of [MIN_REVIEWERS] (2) zero
    addresses; so in every reachable state [reviewMilestone] fails for every
    caller other than [address(0)] (at the assigned-panel check when the
    earlier checks pass), every [approvalCount] is 0, no stored status is
    [Approved], and a release that succeeds went through the auto-release
    branch, the only place that sets [Approved]. *)
Theorem panel_is_zero_addresses s :
  reachable s ->
  (forall pid mid hash e s',
     submitMilestone pid mid hash e s = Ok s' ->
     assignedReviewers (milestone_of s' pid mid) = [0; 0] /\
     len (assignedReviewers (milestone_of s' pid mid)) = MIN_REVIEWERS) /\
  (forall pid mid approved comments e,
     msg_sender e <> 0 ->
     is_ok (reviewMilestone pid mid approved comments e s) = false /\
     (_roles s REVIEWER_ROLE (msg_sender e) = true ->
      stake_active (reviewerStakes s (msg_sender e)) = true ->
      status (milestone_of s pid mid) = InReview ->
      reviewerVotes s pid mid (msg_sender e) = false ->
      reviewMilestone pid mid approved comments e s
      = Revert (RequireFailed "Not assigned reviewer"))) /\
  (forall pid mid,
     approvalCount (milestone_of s pid mid) = 0 /\
     status (milestone_of s pid mid) <> Approved) /\
  (forall pid mid e s',
     releaseMilestoneFunds pid mid e s = Ok s' ->
     status (milestone_of s pid mid) = InReview /\
     release_conditions (block_timestamp e) (milestone_of s pid mid)
     = (true, set_status Approved (milestone_of s pid mid))).
Proof.
  intros Hreach. pose proof (reachable_Inv s Hreach) as HI.
  split; [|split; [|split]].
  - intros pid mid hash e s' H.
    apply submitMilestone_ok in H as (_ & _ & _ & _ & _ & _ & _ & ->). cbn. auto.
  - intros pid mid approved comments e Hsender.
    apply reviewMilestone_reverts; [apply (inv_panel s HI) | exact Hsender].
  - intros pid mid. split; [apply (inv_approvals s HI)|].
    destruct (inv_status s HI pid mid) as [H | [H | H]]; congruence.
  - intros pid mid e s' H.
    destruct (release_takes_auto_branch _ _ _ _ _ HI H) as (Hs & Hen & Ht & _).
    split; [exact Hs|].
    destruct (release_conditions_cases (block_timestamp e) (milestone_of s pid mid))
      as [(Ha & _) | [(_ & _ & _ & Hc) | (_ & _ & Hnot)]].
    + congruence.
    + exact Hc.
    + specialize (Hnot Hs Hen). lia.
Qed.

(** *** The quorum *)



(** *** Auto-release *)

Lemma released_amount_le m : released_amount m <= fundingAmount m.
Proof. unfold released_amount. destruct (status_eqb _ _); lia. Qed.

(** C9 (amended). For a milestone with deadline [D] that is still [InReview]
    with auto-release enabled: [releaseMilestoneFunds] at any time up to
    [D + AUTO_RELEASE_DELAY], so at [D + AUTO_RELEASE_DELAY - 1], fails and
    changes nothing; at any later time, so at [D + AUTO_RELEASE_DELAY + 1], it
    succeeds and sets the status to [Released], provided
    [fundingAmount * platformFeeRate] fits a [uint256] and the two token
    transfers succeed: of [fundingAmount] less the fee to the creator, and of
    the fee, [fundingAmount * platformFeeRate / 10000], to the treasury. The
    rate is the one the storage holds, whatever the deployment. *)
Theorem auto_release_window s pid mid :
  reachable s ->
  status (milestone_of s pid mid) = InReview ->
  autoReleaseEnabled (milestone_of s pid mid) = true ->
  (forall e,
     block_timestamp e <= deadline (milestone_of s pid mid) + AUTO_RELEASE_DELAY ->
     releaseMilestoneFunds pid mid e s
     = Revert (RequireFailed "Cannot release funds") /\
     transact (Call_releaseMilestoneFunds pid mid) e s = s) /\
  (forall e l1 l2,
     deadline (milestone_of s pid mid) + AUTO_RELEASE_DELAY < block_timestamp e ->
     fundingAmount (milestone_of s pid mid) * platformFeeRate s <= MAX_UINT256 ->
     safeTransfer (fundingToken (projects s pid)) (creator (projects s pid))
       (fundingAmount (milestone_of s pid mid)
        - fundingAmount (milestone_of s pid mid) * platformFeeRate s / 10000)
       (ledger s)
     = Ok l1 ->
     safeTransfer (fundingToken (projects s pid)) (treasury s)
       (fundingAmount (milestone_of s pid mid) * platformFeeRate s / 10000) l1
     = Ok l2 ->
     exists s',
       releaseMilestoneFunds pid mid e s = Ok s' /\
       status (milestone_of s' pid mid) = Released /\
       releasedFunding (projects s' pid)
       = releasedFunding (projects s pid) + fundingAmount (milestone_of s pid mid) /\
       ledger s' = l2).
Proof.
  intros Hreach Hs Hen. pose proof (reachable_Inv s Hreach) as HI.
  pose proof (inv_auto s HI pid mid Hen) as Hauto.
  split.
  - intros e Hnow.
    assert (Hrev : releaseMilestoneFunds pid mid e s
                   = Revert (RequireFailed "Cannot release funds")).
    { unfold releaseMilestoneFunds. fold (milestone_of s pid mid).
      destruct (release_conditions_cases (block_timestamp e) (milestone_of s pid mid))
        as [(Ha & _) | [(_ & _ & Ht & _) | (_ & -> & _)]];
        [congruence | lia | reflexivity]. }
    split; [exact Hrev|]. unfold transact. cbn [exec]. now rewrite Hrev.
  - intros e l1 l2 Hnow Hfits Ht1 Ht2.
    set (m := milestone_of s pid mid) in *.
    assert (Hgate : release_conditions (block_timestamp e) m
                    = (true, set_status Approved m)).
    { destruct (release_conditions_cases (block_timestamp e) m)
        as [(Ha & _) | [(_ & _ & _ & Hc) | (_ & _ & Hnot)]];
        [congruence | exact Hc | specialize (Hnot Hs Hen); lia]. }
    assert (Hmid : mid < milestoneCount (projects s pid)).
    { destruct (N.lt_ge_cases mid (milestoneCount (projects s pid))) as [Hlt|Hge];
        [exact Hlt|].
      destruct (inv_beyond s HI pid mid Hge) as [_ Hoff]. fold m in Hoff. congruence. }
    assert (Hroom : releasedFunding (projects s pid) + fundingAmount m <= MAX_UINT256).
    { destruct (inv_total s HI pid) as [Htot Hmax].
      rewrite (inv_released s HI pid).
      apply N.le_trans with (m := funding_sum (projects s pid)); [|lia].
      unfold released_sum, funding_sum.
      apply sum_upto_le_slack with (k := mid).
      - intros i. apply released_amount_le.
      - lia.
      - fold (milestone_of s pid mid). fold m.
        rewrite released_amount_not_released by congruence. lia. }
    assert (Hfee : fundingAmount m * platformFeeRate s / 10000 <= fundingAmount m).
    { apply N.Div0.div_le_upper_bound.
      destruct (inv_fee s HI) as [-> | ->]; lia. }
    eexists. split.
    + unfold releaseMilestoneFunds. fold (milestone_of s pid mid). fold m.
      rewrite Hgate. cbn [fst snd require bind set_status status fundingAmount
                          status_eqb negb].
      rewrite checked_mul_fits by exact Hfits. cbn [bind].
      unfold checked_div. cbn [N.eqb bind].
      unfold checked_sub. apply N.leb_le in Hfee. rewrite Hfee. cbn [bind].
      rewrite checked_add_fits by exact Hroom. cbn [bind].
      rewrite Ht1. cbn [bind]. rewrite Ht2. cbn [bind]. reflexivity.
    + unfold _rewardReviewers.
      cbv [emit set_ledger set_project set_releasedFunding set_milestone
           projects milestone_of milestones releasedFunding ledger status
           set_status upd].
      rewrite !N.eqb_refl. auto.
Qed.

End WithTokens.

(** *** The concrete execution of [FundingScenario] *)

Import MilestoneFunding.StandardToken FundingScenario.

Ltac run_funding_transaction :=
  eapply reachable_step;
  [ | | apply funding_exec_ok; by_computation ];
  [ | valid_env_by_computation ].

Lemma created_reachable : reachable created.
Proof. unfold created. run_funding_transaction. apply reachable_init. Qed.

Lemma submitted_reachable : reachable submitted.
Proof. unfold submitted. run_funding_transaction. apply created_reachable. Qed.

Lemma funded_reachable : reachable funded.
Proof. apply reachable_tokens, submitted_reachable. Qed.

Lemma released_reachable : reachable released.
Proof. unfold released. run_funding_transaction. apply funded_reachable. Qed.

Lemma staked_reachable : reachable staked.
Proof.
  unfold staked. run_funding_transaction. run_funding_transaction.
  run_funding_transaction. exact funded_reachable.
Qed.


(** C2 as stated fails: the amounts 50, 30 and 10, which sum to 90, are
    accepted and stored. *)
Lemma createProject_accepts_sum_90 :
  Nsum [50; 30; 10] = 90 /\
  createProject "Clinic" "Three stages" funding_token
    [50; 30; 10] ["Plan"; "Build"; "Open"]%string [100; 200; 300]
    (by_at founder 10) deployed = Ok (1, created) /\
  nextProjectId deployed = 1 /\ nextProjectId created = 2 /\
  milestoneCount (projects created 1) = 3 /\
  totalFunding (projects created 1) = 90 /\
  fundingAmount (milestone_of created 1 0) = 50 /\
  fundingAmount (milestone_of created 1 1) = 30 /\
  fundingAmount (milestone_of created 1 2) = 10.
Proof.
  split; [reflexivity|]. split.
  - destruct (createProject "Clinic" "Three stages" funding_token
                [50; 30; 10] ["Plan"; "Build"; "Open"]%string [100; 200; 300]
                (by_at founder 10) deployed) as [[pid s']|err] eqn:E.
    + assert (Hpid : pid = 1)
        by (apply createProject_ok in E as (_ & _ & _ & _ & -> & _); reflexivity).
      assert (Hs : s' = created)
        by (unfold created, transact, clinic; cbn [exec]; rewrite E; reflexivity).
      now rewrite Hpid, Hs.
    + apply (f_equal is_ok) in E. vm_compute in E. discriminate.
  - repeat split; by_computation.
Qed.

Lemma createProject_checks_witness :
  is_ok (createProject "Clinic" "Three stages" funding_token
           [50; 30; 10] ["Plan"; "Build"; "Open"]%string [100; 9; 300]
           (by_at founder 10) deployed) = false.
Proof.
  apply (createProject_checks "Clinic" "Three stages" funding_token
           [50; 30; 10] ["Plan"; "Build"; "Open"]%string [100; 9; 300]
           (by_at founder 10) deployed).
  right; right; right; right. exists 9. split.
  - right; left; reflexivity.
  - by_computation.
Defined.

Lemma release_exactly_once_witness :
  reachable funded /\
  fundingAmount (milestone_of funded 1 0) = 50 /\
  (exists s' toCreator fee l1,
     releaseMilestoneFunds 1 0 (by_at outsider after_delay) funded = Ok s' /\
     status (milestone_of s' 1 0) = Released /\
     toCreator + fee = fundingAmount (milestone_of funded 1 0) /\
     safeTransfer (fundingToken (projects funded 1)) (creator (projects funded 1))
       toCreator (ledger funded) = Ok l1 /\
     safeTransfer (fundingToken (projects funded 1)) (treasury funded) fee l1
     = Ok (ledger s')) /\
  balanceOf (ledger released) funding_token escrow + 50
  = balanceOf (ledger funded) funding_token escrow /\
  reachable released /\
  status (milestone_of released 1 0) = Released /\
  releaseMilestoneFunds 1 0 (by_at outsider (after_delay + 5)) released
  = Revert (RequireFailed "Cannot release funds") /\
  release_count 1 0 released = 1%nat /\
  releasedFunding (projects released 1) = released_sum (projects released 1).
Proof.
  assert (Hrel : exists s', releaseMilestoneFunds 1 0 (by_at outsider after_delay)
                              funded = Ok s')
    by (eexists; apply (ok_value_or funded); by_computation).
  destruct Hrel as [s' Hrel].
  destruct (release_exactly_once funded funded_reachable) as (Hpaid & _).
  destruct (Hpaid 1 0 _ s' Hrel)
    as (_ & Hdone & toCreator & fee & l1 & Hadd & Hpay & Hcut).
  assert (Hs : status (milestone_of released 1 0) = Released) by by_computation.
  destruct (release_exactly_once released released_reachable)
    as (_ & Hfinal & Hlog & Hsum & _).
  split; [exact funded_reachable|]. split; [by_computation|].
  split; [exists s', toCreator, fee, l1; auto|].
  split; [by_computation|].
  split; [exact released_reachable|]. split; [exact Hs|].
  split; [apply (Hfinal 1 0 Hs)|].
  split; [|apply Hsum].
  rewrite Hlog, Hs. reflexivity.
Defined.

Lemma panel_is_zero_addresses_witness :
  reachable created /\
  assignedReviewers (milestone_of submitted 1 0) = [0; 0] /\
  is_ok (reviewMilestone 1 0 true "yes" (by_at 11 60) submitted) = false.
Proof.
  split; [exact created_reachable|]. split.
  - destruct (panel_is_zero_addresses created created_reachable) as (Hpanel & _).
    apply (Hpanel 1 0 "Qm01"%string (by_at founder 50) submitted).
    apply (funding_exec_ok (Call_submitMilestone 1 0 "Qm01")). by_computation.
  - destruct (panel_is_zero_addresses submitted submitted_reachable)
      as (_ & Hreview & _).
    apply Hreview. by_computation.
Defined.

(** C9 as stated fails: one time unit after the delay the release still
    reverts when the escrow does not hold the funds of the milestone. *)
Lemma auto_release_can_still_revert :
  reachable submitted /\
  status (milestone_of submitted 1 0) = InReview /\
  autoReleaseEnabled (milestone_of submitted 1 0) = true /\
  deadline (milestone_of submitted 1 0) = 100 /\
  after_delay = 100 + AUTO_RELEASE_DELAY + 1 /\
  releaseMilestoneFunds 1 0 (by_at outsider after_delay) submitted
  = Revert TransferFailed /\
  status (milestone_of
            (transact (Call_releaseMilestoneFunds 1 0)
               (by_at outsider after_delay) submitted) 1 0) = InReview.
Proof.
  split; [exact submitted_reachable|].
  repeat split; by_computation.
Qed.

Lemma auto_release_window_witness :
  reachable funded /\
  releaseMilestoneFunds 1 0 (by_at outsider before_delay) funded
  = Revert (RequireFailed "Cannot release funds") /\
  exists s', releaseMilestoneFunds 1 0 (by_at outsider after_delay) funded = Ok s' /\
             status (milestone_of s' 1 0) = Released.
Proof.
  assert (Hs : status (milestone_of funded 1 0) = InReview) by by_computation.
  assert (Hen : autoReleaseEnabled (milestone_of funded 1 0) = true)
    by by_computation.
  destruct (auto_release_window funded 1 0 funded_reachable Hs Hen)
    as [Hearly Hlate].
  split; [exact funded_reachable|]. split.
  - apply (Hearly (by_at outsider before_delay)). by_computation.
  - set (paid := value_or (ledger funded)
                   (safeTransfer (fundingToken (projects funded 1))
                      (creator (projects funded 1))
                      (fundingAmount (milestone_of funded 1 0)
                       - fundingAmount (milestone_of funded 1 0)
                         * platformFeeRate funded / 10000)
                      (ledger funded))).
    set (settled := value_or paid
                      (safeTransfer (fundingToken (projects funded 1))
                         (treasury funded)
                         (fundingAmount (milestone_of funded 1 0)
                          * platformFeeRate funded / 10000)
                         paid)).
    destruct (Hlate (by_at outsider after_delay) paid settled)
      as (s' & Hok & Hrel & _).
    + by_computation.
    + by_computation.
    + apply ok_value_or. by_computation.
    + apply ok_value_or. by_computation.
    + exists s'. split; assumption.
Defined.



End FundingFacts.

(** ** The pause flag *)

Module CoreFacts.
Import Core.

Section WithCollaborators.
Context {crypto : QuadraticVoting.Crypto}
        {Ledger : Type} {tokens : MilestoneFunding.Tokens Ledger}.

(** C5 (amended). While the pause flag of the voting contract is set,
    [commitVote] and [revealVote] fail and change nothing, and the read-only
    queries answer as they do when the flag is not set. *)
Theorem pause_stops_commit_and_reveal sys :
  paused sys = true ->
  (forall commit proof e,
     exec (Voting (QuadraticVoting.Call_commitVote commit proof)) e sys
     = Revert PausablePaused /\
     transact (Voting (QuadraticVoting.Call_commitVote commit proof)) e sys = sys) /\
  (forall proposalId voteCount nonce e,
     exec (Voting (QuadraticVoting.Call_revealVote proposalId voteCount nonce)) e sys
     = Revert PausablePaused /\
     transact (Voting (QuadraticVoting.Call_revealVote proposalId voteCount nonce))
       e sys = sys) /\
  (forall roundId proposalId,
     QuadraticVoting.getProposalScore roundId proposalId (voting sys)
     = QuadraticVoting.getProposalScore roundId proposalId
         (voting (with_flag false sys))) /\
  (forall projectId milestoneId,
     MilestoneFunding.getProject projectId (funding sys)
     = MilestoneFunding.getProject projectId (funding (with_flag false sys)) /\
     MilestoneFunding.getMilestone projectId milestoneId (funding sys)
     = MilestoneFunding.getMilestone projectId milestoneId
         (funding (with_flag false sys))).
Proof.
  unfold paused, QuadraticVoting.paused. intros Hp.
  split; [|split; [|split]].
  - intros commit proof e.
    assert (H : exec (Voting (QuadraticVoting.Call_commitVote commit proof)) e sys
                = Revert PausablePaused).
    { cbn [exec QuadraticVoting.exec].
      unfold QuadraticVoting.commitVote, QuadraticVoting.whenNotPaused.
      rewrite Hp. reflexivity. }
    split; [exact H|]. unfold transact. now rewrite H.
  - intros proposalId voteCount nonce e.
    assert (H : exec (Voting (QuadraticVoting.Call_revealVote proposalId voteCount
                                nonce)) e sys
                = Revert PausablePaused).
    { cbn [exec QuadraticVoting.exec].
      unfold QuadraticVoting.revealVote, QuadraticVoting.whenNotPaused.
      rewrite Hp. reflexivity. }
    split; [exact H|]. unfold transact. now rewrite H.
  - reflexivity.
  - split; reflexivity.
Qed.

End WithCollaborators.

Import QuadraticVoting.Toy MilestoneFunding.StandardToken CoreScenario.

(** C5 as stated fails: with the flag set, [startVotingRound] and
    [createProject] succeed and change the state. *)
Lemma pause_leaves_other_calls_open :
  paused halted_system = true /\
  is_ok (exec (Voting (QuadraticVoting.Call_startVotingRound 200 100 VotingScenario.root))
           (mkEnv VotingScenario.admin 1) halted_system) = true /\
  QuadraticVoting.currentRoundId (voting halted_system) = 0 /\
  QuadraticVoting.currentRoundId
    (voting (transact
               (Voting (QuadraticVoting.Call_startVotingRound 200 100 VotingScenario.root))
               (mkEnv VotingScenario.admin 1) halted_system)) = 1 /\
  is_ok (exec (Funding FundingScenario.clinic)
           (mkEnv FundingScenario.founder 10) halted_system) = true /\
  MilestoneFunding.nextProjectId (funding halted_system) = 1 /\
  MilestoneFunding.nextProjectId
    (funding (transact (Funding FundingScenario.clinic)
                (mkEnv FundingScenario.founder 10) halted_system)) = 2.
Proof. repeat split; by_computation. Qed.

Lemma pause_stops_commit_and_reveal_witness :
  paused halted_system = true /\
  exec (Voting (QuadraticVoting.Call_commitVote 77 [])) (mkEnv VotingScenario.voter 10)
    halted_system = Revert PausablePaused.
Proof.
  assert (Hp : paused halted_system = true) by by_computation.
  split; [exact Hp|].
  apply (pause_stops_commit_and_reveal halted_system Hp).
Defined.

End CoreFacts.

(** * Further properties *)

(** ** How a call reverts *)

Module RevertFacts.

Lemma bind_revert {A B : Type} (r : Result A) (k : A -> Result B) (e : Error) :
  bind r k = Revert e -> r = Revert e \/ exists a, r = Ok a /\ k a = Revert e.
Proof.
  destruct r as [a|e']; cbn; intros H; [right; eauto|].
  left. now injection H as ->.
Qed.

Lemma require_revert c reason e :
  require c reason = Revert e -> c = false /\ e = RequireFailed reason.
Proof. destruct c; cbn; intros H; [discriminate | injection H as <-; auto]. Qed.

Lemma revert_if_revert c e' e :
  revert_if c e' = Revert e -> c = true /\ e = e'.
Proof. destruct c; cbn; intros H; [injection H as <-; auto | discriminate]. Qed.

Lemma checked_add_revert a b e :
  checked_add a b = Revert e -> e = Panic /\ MAX_UINT256 < a + b.
Proof.
  unfold checked_add. destruct (N.leb_spec (a + b) MAX_UINT256); intros E;
    [discriminate | injection E as <-; auto].
Qed.

Lemma checked_mul_revert a b e :
  checked_mul a b = Revert e -> e = Panic /\ MAX_UINT256 < a * b.
Proof.
  unfold checked_mul. destruct (N.leb_spec (a * b) MAX_UINT256); intros E;
    [discriminate | injection E as <-; auto].
Qed.

Lemma below_max a : a <= 10 ^ 30 -> a < MAX_UINT256.
Proof.
  intros H. apply N.le_lt_trans with (m := 10 ^ 30); [exact H|].
  vm_compute. reflexivity.
Qed.

End RevertFacts.

Import RevertFacts.

(** Splits a reverted run of monadic code at the step that reverted. *)
Ltac revert_inv H :=
  lazymatch type of H with
  | bind _ _ = Revert _ =>
      let a := fresh "a" in
      let Hl := fresh "Hstep" in
      apply bind_revert in H; destruct H as [H | (a & Hl & H)];
      [ revert_inv H | ok_inv Hl; revert_inv H ]
  | require _ _ = Revert _ => apply require_revert in H; destruct H as [H ?]
  | revert_if _ _ = Revert _ => apply revert_if_revert in H; destruct H as [H ?]
  | checked_add _ _ = Revert _ => apply checked_add_revert in H; destruct H as [? H]
  | checked_mul _ _ = Revert _ => apply checked_mul_revert in H; destruct H as [? H]
  | Ok _ = Revert _ => discriminate H
  | _ => idtac
  end.

(** ** The integer square root, continued *)

Module SqrtExtras.
Import Sqrt SqrtFacts.

(** X1. [_sqrt] is exact on perfect squares and monotone: for [k * k] below
    [2^256 - 1] it returns [k], and for [x <= y] below [2^256 - 1] the root of
    [x] is at most the root of [y]. *)
Theorem sqrt_squares_and_order :
  (forall k, k * k < MAX_UINT256 -> _sqrt (k * k) = Ok k) /\
  (forall x y, x <= y -> y < MAX_UINT256 ->
     exists a b, _sqrt x = Ok a /\ _sqrt y = Ok b /\ a <= b).
Proof.
  split.
  - intros k Hk. rewrite sqrt_exact by exact Hk. f_equal. apply N.sqrt_square.
  - intros x y Hxy Hy. exists (N.sqrt x), (N.sqrt y).
    rewrite !sqrt_exact by lia. repeat split. now apply N.sqrt_le_mono.
Qed.

Lemma sqrt_squares_and_order_witness :
  _sqrt (3000000000 * 3000000000) = Ok 3000000000.
Proof.
  apply sqrt_squares_and_order. vm_compute. reflexivity.
Defined.

End SqrtExtras.

(** ** The voting rounds, continued *)

Module VotingExtras.
Import QuadraticVoting VotingObservations VotingFacts.

Section WithCrypto.
Context {crypto : Crypto}.

Lemma scaled_root voteCount :
  voteCount <= MAX_VOTES_PER_PROPOSAL ->
  Sqrt._sqrt (voteCount * 10 ^ 18) = Ok (N.sqrt (voteCount * 10 ^ 18)).
Proof.
  intros Hv. apply SqrtFacts.sqrt_exact, below_max.
  unfold MAX_VOTES_PER_PROPOSAL in Hv.
  apply N.le_trans with (m := 10 * 10 ^ 18);
    [apply N.mul_le_mono_r; exact Hv | vm_compute; discriminate].
Qed.

(** What a successful [revealVote] has checked and written. *)
Lemma revealVote_written proposalId voteCount nonce e s s' :
  revealVote proposalId voteCount nonce e s = Ok s' ->
  (_paused s = false /\
   commitEndTime (votingRounds s (currentRoundId s)) <= block_timestamp e /\
   block_timestamp e <= endTime (votingRounds s (currentRoundId s)) /\
   revealed (votes s (currentRoundId s) (msg_sender e)) = false /\
   keccak_vote proposalId voteCount nonce
   = commitment (votes s (currentRoundId s) (msg_sender e)) /\
   1 <= voteCount /\ voteCount <= MAX_VOTES_PER_PROPOSAL) /\
  (_paused s' = _paused s /\ _roles s' = _roles s /\
   currentRoundId s' = currentRoundId s /\
   events s' = VoteRevealed (currentRoundId s) (msg_sender e) proposalId voteCount
               :: events s) /\
  (results s' (currentRoundId s) proposalId
   = mkProposalResult
       (totalVotes (results s (currentRoundId s) proposalId) + voteCount)
       (quadraticScore (results s (currentRoundId s) proposalId)
        + N.sqrt (voteCount * 10 ^ 18))
       (uniqueVoters (results s (currentRoundId s) proposalId) + 1)
       (qualified (results s (currentRoundId s) proposalId)) /\
   forall r p, (r, p) <> (currentRoundId s, proposalId) ->
               results s' r p = results s r p) /\
  (votingRounds s' (currentRoundId s)
   = mkVotingRound (startTime (votingRounds s (currentRoundId s)))
       (endTime (votingRounds s (currentRoundId s)))
       (commitEndTime (votingRounds s (currentRoundId s)))
       (totalCredits (votingRounds s (currentRoundId s)) + voteCount * voteCount)
       (totalProposals (votingRounds s (currentRoundId s)))
       (finalized (votingRounds s (currentRoundId s)))
       (merkleRoot (votingRounds s (currentRoundId s))) /\
   forall r, r <> currentRoundId s -> votingRounds s' r = votingRounds s r) /\
  (voterReputationScore s' (msg_sender e)
   = voterReputationScore s (msg_sender e) + 1 /\
   forall a, a <> msg_sender e ->
             voterReputationScore s' a = voterReputationScore s a).
Proof.
  unfold revealVote. intros H. ok_inv H.
  apply orb_false_iff in Hstep0 as [Ht1 Ht2].
  apply N.ltb_ge in Ht1, Ht2.
  apply negb_false_iff, N.eqb_eq in Hstep2.
  apply orb_false_iff in Hstep3 as [Hz Hmax].
  apply N.eqb_neq in Hz. apply N.ltb_ge in Hmax.
  rewrite (scaled_root voteCount Hmax) in Hstep8. injection Hstep8 as <-.
  unfold whenNotPaused in Hstep.
  destruct (_paused s) eqn:Hp; [discriminate Hstep|].
  subst s'.
  split; [repeat split; try assumption; lia|].
  split; [repeat split; first [reflexivity | exact Hp]|].
  split; [|split].
  - cbv [emit set_reputation set_round set_result set_vote results upd].
    rewrite !N.eqb_refl. split; [reflexivity|].
    intros r p Hne.
    destruct (N.eqb_spec r (currentRoundId s)) as [->|]; [|reflexivity].
    destruct (N.eqb_spec p proposalId) as [->|]; [congruence | reflexivity].
  - cbv [emit set_reputation set_round set_result set_vote votingRounds upd].
    rewrite !N.eqb_refl. split; [reflexivity|].
    intros r Hne. apply N.eqb_neq in Hne. now rewrite Hne.
  - cbv [emit set_reputation set_round set_result set_vote voterReputationScore upd].
    rewrite !N.eqb_refl. split; [reflexivity|].
    intros who Hne. apply N.eqb_neq in Hne. now rewrite Hne.
Qed.

(** X2. A reveal that matches the stored commitment, inside the reveal
    window, with a count between 1 and 10, succeeds (short of an overflow of
    the counters) and adds the count to [totalVotes], [floor (sqrt (count *
    1e18))] to [quadraticScore], one to [uniqueVoters], the squared count to
    the round's [totalCredits] and one to the voter's reputation. *)
Theorem matching_reveal_is_counted proposalId voteCount nonce e s :
  _paused s = false ->
  commitEndTime (votingRounds s (currentRoundId s)) <= block_timestamp e ->
  block_timestamp e <= endTime (votingRounds s (currentRoundId s)) ->
  revealed (votes s (currentRoundId s) (msg_sender e)) = false ->
  keccak_vote proposalId voteCount nonce
  = commitment (votes s (currentRoundId s) (msg_sender e)) ->
  1 <= voteCount -> voteCount <= 10 ->
  totalVotes (results s (currentRoundId s) proposalId) + voteCount <= MAX_UINT256 ->
  quadraticScore (results s (currentRoundId s) proposalId)
  + N.sqrt (voteCount * 10 ^ 18) <= MAX_UINT256 ->
  uniqueVoters (results s (currentRoundId s) proposalId) + 1 <= MAX_UINT256 ->
  totalCredits (votingRounds s (currentRoundId s)) + voteCount * voteCount
  <= MAX_UINT256 ->
  voterReputationScore s (msg_sender e) + 1 <= MAX_UINT256 ->
  exists s',
    revealVote proposalId voteCount nonce e s = Ok s' /\
    votes s' (currentRoundId s) (msg_sender e)
    = mkVote (commitment (votes s (currentRoundId s) (msg_sender e)))
             voteCount true (counted (votes s (currentRoundId s) (msg_sender e))) /\
    results s' (currentRoundId s) proposalId
    = mkProposalResult
        (totalVotes (results s (currentRoundId s) proposalId) + voteCount)
        (quadraticScore (results s (currentRoundId s) proposalId)
         + N.sqrt (voteCount * 10 ^ 18))
        (uniqueVoters (results s (currentRoundId s) proposalId) + 1)
        (qualified (results s (currentRoundId s) proposalId)) /\
    totalCredits (votingRounds s' (currentRoundId s))
    = totalCredits (votingRounds s (currentRoundId s)) + voteCount * voteCount /\
    voterReputationScore s' (msg_sender e)
    = voterReputationScore s (msg_sender e) + 1.
Proof.
  intros Hp Ht1 Ht2 Hrev Hhash Hv1 Hv2 Ho1 Ho2 Ho3 Ho4 Ho5.
  assert (Hok : exists s', revealVote proposalId voteCount nonce e s = Ok s').
  { unfold revealVote, whenNotPaused. rewrite Hp. cbn [bind].
    apply N.ltb_ge in Ht1, Ht2. rewrite Ht1, Ht2, Hrev.
    cbn [orb revert_if bind]. rewrite Hhash, N.eqb_refl.
    cbn [negb revert_if bind].
    assert (Hz : (voteCount =? 0) = false) by (apply N.eqb_neq; lia).
    assert (Hm : (MAX_VOTES_PER_PROPOSAL <? voteCount) = false)
      by (apply N.ltb_ge; exact Hv2).
    rewrite Hz, Hm. cbn [orb revert_if bind].
    assert (Hsq : voteCount * voteCount <= 100) by nia.
    rewrite checked_mul_fits
      by (apply N.lt_le_incl, below_max;
          apply N.le_trans with (m := 100); [exact Hsq | vm_compute; discriminate]).
    cbn [bind].
    assert (Hc : (CREDITS_PER_ROUND <? voteCount * voteCount) = false)
      by (apply N.ltb_ge; exact Hsq).
    rewrite Hc. cbn [revert_if bind].
    rewrite checked_add_fits by exact Ho1. cbn [bind].
    rewrite checked_mul_fits
      by (apply N.lt_le_incl, below_max;
          apply N.le_trans with (m := 10 * 10 ^ 18);
          [apply N.mul_le_mono_r; exact Hv2 | vm_compute; discriminate]).
    cbn [bind]. rewrite (scaled_root voteCount Hv2). cbn [bind].
    rewrite checked_add_fits by exact Ho2. cbn [bind].
    rewrite checked_add_fits by exact Ho3. cbn [bind].
    rewrite checked_add_fits by exact Ho4. cbn [bind].
    rewrite checked_add_fits by exact Ho5. cbn [bind].
    eexists. reflexivity. }
  destruct Hok as [s' Hok]. exists s'. split; [exact Hok|].
  destruct (revealVote_ok _ _ _ _ _ _ Hok) as (_ & _ & Hvote & _).
  destruct (revealVote_written _ _ _ _ _ _ Hok)
    as (_ & _ & (Hres & _) & (Hround & _) & (Hrep & _)).
  split; [exact Hvote|]. split; [exact Hres|].
  split; [now rewrite Hround | exact Hrep].
Qed.

(** X3. [revealVote] never fails with [InsufficientCredits]: a count that
    passes the range check costs at most 100 credits, [CREDITS_PER_ROUND]. *)
Theorem reveal_never_lacks_credits proposalId voteCount nonce e s :
  revealVote proposalId voteCount nonce e s <> Revert InsufficientCredits.
Proof.
  intros H. unfold revealVote in H. revert_inv H; try discriminate.
  - unfold whenNotPaused in H. destruct (_paused s); discriminate.
  - apply orb_false_iff in Hstep3 as [_ Hmax].
    apply N.ltb_ge in Hmax. unfold MAX_VOTES_PER_PROPOSAL in Hmax.
    apply N.ltb_lt in H. unfold CREDITS_PER_ROUND in H. nia.
  - apply orb_false_iff in Hstep3 as [_ Hmax]. apply N.ltb_ge in Hmax.
    rewrite (scaled_root voteCount Hmax) in H. discriminate.
Qed.

Lemma commitVote_keeps_reveal commit proof e s s' r v :
  commitVote commit proof e s = Ok s' ->
  revealed (votes s' r v) = revealed (votes s r v) /\
  votesRevealed (votes s' r v) = votesRevealed (votes s r v).
Proof.
  unfold commitVote. intros H. ok_inv H. subst s'.
  cbv [emit set_vote votes upd].
  destruct (N.eqb_spec r (currentRoundId s)) as [->|]; [|auto].
  destruct (N.eqb_spec v (msg_sender e)) as [->|]; auto.
Qed.

(** X4. A vote is revealed once: when [revealed] is set for (round, voter),
    no transaction clears it or changes the recorded count, and every further
    [revealVote] of that voter in that round fails, with [AlreadyVoted] when
    the contract is not paused and the call is inside the reveal window. *)
Theorem reveal_is_final s r v :
  revealed (votes s r v) = true ->
  (forall c e s',
     exec c e s = Ok s' ->
     revealed (votes s' r v) = true /\
     votesRevealed (votes s' r v) = votesRevealed (votes s r v)) /\
  (forall proposalId voteCount nonce e,
     r = currentRoundId s -> v = msg_sender e ->
     is_ok (revealVote proposalId voteCount nonce e s) = false /\
     (_paused s = false ->
      commitEndTime (votingRounds s r) <= block_timestamp e ->
      block_timestamp e <= endTime (votingRounds s r) ->
      revealVote proposalId voteCount nonce e s = Revert AlreadyVoted)).
Proof.
  intros Hrev. split.
  - intros c e s' Hexec.
    destruct c; cbn [exec] in Hexec.
    + unfold startVotingRound in Hexec. ok_inv Hexec. subst s'. auto.
    + destruct (commitVote_keeps_reveal _ _ _ _ _ r v Hexec) as [-> ->]. auto.
    + destruct (revealVote_written _ _ _ _ _ _ Hexec)
        as ((_ & _ & _ & Hnot & _) & _).
      destruct (revealVote_ok _ _ _ _ _ _ Hexec) as (_ & _ & _ & Hframe).
      rewrite Hframe; [auto|].
      intros Heq. injection Heq as -> ->. congruence.
    + unfold finalizeRound in Hexec. ok_inv Hexec. subst s'. auto.
    + unfold pause in Hexec. ok_inv Hexec. subst s'. auto.
    + unfold unpause in Hexec. ok_inv Hexec. subst s'. auto.
    + unfold grantRole in Hexec. ok_inv Hexec. subst s'. auto.
    + unfold revokeRole in Hexec. ok_inv Hexec. subst s'. auto.
    + unfold renounceRole in Hexec. ok_inv Hexec. subst s'. auto.
  - intros proposalId voteCount nonce e -> ->. split.
    + destruct (revealVote proposalId voteCount nonce e s) as [s'|err] eqn:E;
        [|reflexivity].
      destruct (revealVote_written _ _ _ _ _ _ E) as ((_ & _ & _ & Hnot & _) & _).
      congruence.
    + intros Hp H1 H2. unfold revealVote, whenNotPaused. rewrite Hp. cbn [bind].
      apply N.ltb_ge in H1, H2. rewrite H1, H2, Hrev. reflexivity.
Qed.

(** What the other successful calls have checked and written. *)
Lemma startVotingRound_written d cd root e s s' :
  startVotingRound d cd root e s = Ok s' ->
  _roles s ADMIN_ROLE (msg_sender e) = true /\
  s' = emit (RoundStarted (currentRoundId s + 1) (block_timestamp e)
                          (block_timestamp e + d))
         (set_round (currentRoundId s + 1)
            (mkVotingRound (block_timestamp e) (block_timestamp e + d)
                           (block_timestamp e + cd) 0 0 false root)
            (set_currentRoundId (currentRoundId s + 1) s)).
Proof.
  unfold startVotingRound, onlyRole. intros H.
  destruct (_roles s ADMIN_ROLE (msg_sender e)) eqn:Hrole; [|discriminate H].
  cbn [bind] in H. ok_inv H. now subst s'.
Qed.

Lemma finalizeRound_written e s s' :
  finalizeRound e s = Ok s' ->
  _roles s ADMIN_ROLE (msg_sender e) = true /\
  endTime (votingRounds s (currentRoundId s)) < block_timestamp e /\
  finalized (votingRounds s (currentRoundId s)) = false /\
  s' = emit (RoundFinalized (currentRoundId s)
                            (totalCredits (votingRounds s (currentRoundId s))))
         (set_round (currentRoundId s)
            (mkVotingRound (startTime (votingRounds s (currentRoundId s)))
                           (endTime (votingRounds s (currentRoundId s)))
                           (commitEndTime (votingRounds s (currentRoundId s)))
                           (totalCredits (votingRounds s (currentRoundId s)))
                           (totalProposals (votingRounds s (currentRoundId s)))
                           true
                           (merkleRoot (votingRounds s (currentRoundId s)))) s).
Proof.
  unfold finalizeRound, onlyRole. intros H.
  destruct (_roles s ADMIN_ROLE (msg_sender e)) eqn:Hrole; [|discriminate H].
  cbn [bind] in H. ok_inv H. subst s'.
  apply N.ltb_lt in Hstep. apply negb_true_iff in Hstep0. auto.
Qed.

Lemma commitVote_written commit proof e s s' :
  commitVote commit proof e s = Ok s' ->
  s' = emit (VoteCommitted (currentRoundId s) (msg_sender e) commit)
         (set_vote (currentRoundId s) (msg_sender e)
            (mkVote commit
               (votesRevealed (votes s (currentRoundId s) (msg_sender e)))
               (revealed (votes s (currentRoundId s) (msg_sender e)))
               (counted (votes s (currentRoundId s) (msg_sender e)))) s).
Proof. unfold commitVote. intros H. ok_inv H. now subst s'. Qed.

Lemma pause_written e s s' :
  pause e s = Ok s' ->
  _roles s ADMIN_ROLE (msg_sender e) = true /\ s' = set_paused true s.
Proof.
  unfold pause, onlyRole. intros H.
  destruct (_roles s ADMIN_ROLE (msg_sender e)) eqn:Hrole; [|discriminate H].
  cbn [bind] in H. ok_inv H. now subst s'.
Qed.

Lemma unpause_written e s s' :
  unpause e s = Ok s' ->
  _roles s ADMIN_ROLE (msg_sender e) = true /\ s' = set_paused false s.
Proof.
  unfold unpause, onlyRole. intros H.
  destruct (_roles s ADMIN_ROLE (msg_sender e)) eqn:Hrole; [|discriminate H].
  cbn [bind] in H. ok_inv H. now subst s'.
Qed.

(** Takes a successful call apart: one goal per function, with the
    post-state replaced by what the function wrote where that is a closed
    expression. *)
Ltac voting_cases Hexec :=
  match type of Hexec with
  | exec ?c _ _ = Ok ?s' =>
      destruct c; cbn [exec] in Hexec;
      [ apply startVotingRound_written in Hexec; destruct Hexec as [?Hadmin ->]
      | pose proof (commitVote_written _ _ _ _ _ Hexec) as ?Hpost
      | idtac
      | apply finalizeRound_written in Hexec;
        destruct Hexec as (?Hadmin & ?Hend & ?Hopen & ->)
      | apply pause_written in Hexec; destruct Hexec as [?Hadmin ->]
      | apply unpause_written in Hexec; destruct Hexec as [?Hadmin ->]
      | unfold grantRole in Hexec; ok_inv Hexec; subst s'
      | unfold revokeRole in Hexec; ok_inv Hexec; subst s'
      | unfold renounceRole in Hexec; ok_inv Hexec; subst s' ]
  end.

(** X5. A transaction writes no vote record but the sender's own in the
    current round, and no reputation score but the sender's own. *)
Theorem only_own_vote_is_written c e s s' :
  exec c e s = Ok s' ->
  (forall r v, (r, v) <> (currentRoundId s, msg_sender e) ->
               votes s' r v = votes s r v) /\
  (forall a, a <> msg_sender e ->
             voterReputationScore s' a = voterReputationScore s a).
Proof.
  intros Hexec. voting_cases Hexec; try (split; reflexivity).
  - split; [|now subst s'].
    now destruct (commitVote_ok _ _ _ _ _ Hexec) as (_ & _ & Hframe).
  - destruct (revealVote_ok _ _ _ _ _ _ Hexec) as (_ & _ & _ & Hframe).
    destruct (revealVote_written _ _ _ _ _ _ Hexec)
      as (_ & _ & _ & _ & (_ & Hrep)).
    auto.
Qed.

(** *** The tallies *)

Lemma root_of_count voteCount :
  1 <= voteCount -> voteCount <= MAX_VOTES_PER_PROPOSAL ->
  10 ^ 9 <= N.sqrt (voteCount * 10 ^ 18) <= 3162277660.
Proof.
  unfold MAX_VOTES_PER_PROPOSAL. intros H1 H10. split.
  - replace (10 ^ 9) with (N.sqrt (1 * 10 ^ 18)) by (vm_compute; reflexivity).
    apply N.sqrt_le_mono, N.mul_le_mono_r, H1.
  - replace 3162277660 with (N.sqrt (10 * 10 ^ 18)) by (vm_compute; reflexivity).
    apply N.sqrt_le_mono, N.mul_le_mono_r, H10.
Qed.

(** X6. In every reachable state each proposal's tally satisfies
    [uniqueVoters <= totalVotes <= 10 * uniqueVoters] and
    [1e9 * uniqueVoters <= quadraticScore <= 3162277660 * uniqueVoters]: each
    reveal adds one voter, 1 to 10 votes and the root of the scaled count. *)
Theorem tallies_stay_in_bounds s :
  reachable s -> forall r p, tally_in_bounds (results s r p).
Proof.
  induction 1 as [admin | s s' c e Hreach IH Henv Hexec]; intros r p.
  - unfold tally_in_bounds. cbn. lia.
  - voting_cases Hexec; try apply IH.
    + subst s'. apply IH.
    + destruct (revealVote_written _ _ _ _ _ _ Hexec)
        as ((_ & _ & _ & _ & _ & Hv1 & Hv10) & _ & (Hres & Hframe) & _).
      destruct (N.eq_dec r (currentRoundId s)) as [->|Hr];
        [destruct (N.eq_dec p proposalId) as [->|Hp]|].
      * rewrite Hres. pose proof (IH (currentRoundId s) proposalId) as Hold.
        pose proof (root_of_count voteCount Hv1 Hv10) as Hroot.
        unfold tally_in_bounds in *. cbn [totalVotes quadraticScore uniqueVoters].
        unfold MAX_VOTES_PER_PROPOSAL in Hv10.
        generalize dependent (N.sqrt (voteCount * 10 ^ 18)).
        replace (10 ^ 9) with 1000000000 by (vm_compute; reflexivity).
        intros root Hroot. lia.
      * rewrite Hframe by congruence. apply IH.
      * rewrite Hframe by congruence. apply IH.
Qed.

(** *** Rounds *)

Lemma reachable_unused_rounds_empty s : reachable s -> unused_rounds_empty s.
Proof.
  induction 1 as [admin | s s' c e Hreach IH Henv Hexec]; intros r Hr.
  - cbn. auto.
  - voting_cases Hexec; try (apply IH; exact Hr).
    + cbn in Hr |- *. rewrite upd_other by lia. apply IH. lia.
    + subst s'. cbn in Hr |- *. rewrite upd_other by lia. apply IH. exact Hr.
    + destruct (revealVote_written _ _ _ _ _ _ Hexec)
        as (_ & (_ & _ & Hcur & _) & (_ & Hres) & (_ & Hround) & _).
      destruct (revealVote_ok _ _ _ _ _ _ Hexec) as (_ & _ & _ & Hvotes).
      rewrite Hcur in Hr. destruct (IH r Hr) as (Hr0 & Hv0 & Hp0).
      split; [rewrite Hround by lia; exact Hr0|].
      split.
      * intros v. rewrite Hvotes; [apply Hv0|].
        intros Heq. injection Heq as Heq _. lia.
      * intros p. rewrite Hres; [apply Hp0|].
        intros Heq. injection Heq as Heq _. lia.
    + cbn in Hr |- *. rewrite upd_other by lia. apply IH. exact Hr.
Qed.

(** X7. A round opens empty: in a reachable state a successful
    [startVotingRound] at time [now] moves to round [currentRoundId + 1],
    whose windows are [now .. now + commitDuration] for commits and
    [now + commitDuration .. now + duration] for reveals, with no credits
    spent, no vote record and no tally. *)
Theorem new_round_is_empty s d cd root e s' :
  reachable s ->
  startVotingRound d cd root e s = Ok s' ->
  currentRoundId s' = currentRoundId s + 1 /\
  votingRounds s' (currentRoundId s')
  = mkVotingRound (block_timestamp e) (block_timestamp e + d)
                  (block_timestamp e + cd) 0 0 false root /\
  (forall v, votes s' (currentRoundId s') v = zero_vote) /\
  (forall p, getProposalScore (currentRoundId s') p s' = zero_result).
Proof.
  intros Hreach Hstart.
  apply startVotingRound_written in Hstart. destruct Hstart as [_ ->].
  destruct (reachable_unused_rounds_empty s Hreach (currentRoundId s + 1))
    as (_ & Hv0 & Hp0); [lia|].
  unfold getProposalScore.
  cbn. rewrite upd_same. auto.
Qed.

(** X8. [startVotingRound] does not compare its two durations: with
    [duration < commitDuration] the round is opened all the same, and no
    [revealVote] succeeds in it at any time. *)
Theorem overlong_commit_window_blocks_reveal d cd root e s s' :
  startVotingRound d cd root e s = Ok s' ->
  d < cd ->
  endTime (votingRounds s' (currentRoundId s'))
  < commitEndTime (votingRounds s' (currentRoundId s')) /\
  forall proposalId voteCount nonce e',
    is_ok (revealVote proposalId voteCount nonce e' s') = false.
Proof.
  intros Hstart Hlt.
  apply startVotingRound_written in Hstart. destruct Hstart as [_ ->].
  match goal with |- ?A /\ _ => assert (Hwin : A) end.
  { cbn. rewrite upd_same. cbn. lia. }
  split; [exact Hwin|].
  intros proposalId voteCount nonce e'.
  match goal with |- is_ok ?r = false => destruct r as [s''|err] eqn:E end;
    [|reflexivity].
  destruct (revealVote_written _ _ _ _ _ _ E) as ((_ & H1 & H2 & _) & _).
  lia.
Qed.

(** X9. A successful [finalizeRound] sets [finalized] on the current round,
    logs the credits spent in it and leaves every tally as it is; in the
    state it leaves, a second [finalizeRound] fails, and so does every
    [revealVote] at the same or a later time. *)
Theorem finalized_round_is_closed e s s' :
  finalizeRound e s = Ok s' ->
  (currentRoundId s' = currentRoundId s /\
   finalized (votingRounds s' (currentRoundId s)) = true /\
   events s'
   = RoundFinalized (currentRoundId s)
       (totalCredits (votingRounds s (currentRoundId s))) :: events s /\
   forall r p, getProposalScore r p s' = getProposalScore r p s) /\
  (forall e', is_ok (finalizeRound e' s') = false) /\
  (forall proposalId voteCount nonce e',
     block_timestamp e <= block_timestamp e' ->
     is_ok (revealVote proposalId voteCount nonce e' s') = false).
Proof.
  intros Hfin. apply finalizeRound_written in Hfin.
  destruct Hfin as (_ & Hend & _ & ->).
  split; [|split].
  - cbn. rewrite upd_same. auto.
  - intros e'.
    match goal with |- is_ok ?r = false => destruct r as [s''|err] eqn:E end;
      [|reflexivity].
    apply finalizeRound_written in E. destruct E as (_ & _ & Hopen & _).
    revert Hopen. cbn. rewrite upd_same. discriminate.
  - intros proposalId voteCount nonce e' Hlater.
    match goal with |- is_ok ?r = false => destruct r as [s''|err] eqn:E end;
      [|reflexivity].
    destruct (revealVote_written _ _ _ _ _ _ E) as ((_ & _ & H2 & _) & _).
    revert H2. cbn. rewrite upd_same. cbn. lia.
Qed.

(** X10. An account without [ADMIN_ROLE] changes neither the pause flag, nor
    the current round id, nor the schedule (start, end, commit end,
    finalized, Merkle root) of any round. *)
Theorem schedule_is_admin_only c e s s' :
  exec c e s = Ok s' ->
  _roles s ADMIN_ROLE (msg_sender e) = false ->
  paused s' = paused s /\
  currentRoundId s' = currentRoundId s /\
  forall r, schedule (votingRounds s' r) = schedule (votingRounds s r).
Proof.
  intros Hexec Hnot. unfold paused.
  voting_cases Hexec; try congruence; try (repeat split; reflexivity).
  - subst s'. repeat split; reflexivity.
  - destruct (revealVote_written _ _ _ _ _ _ Hexec)
      as (_ & (Hp & _ & Hcur & _) & _ & (Hround & Hframe) & _).
    repeat split; [exact Hp | exact Hcur |].
    intros r. destruct (N.eq_dec r (currentRoundId s)) as [->|Hr].
    + rewrite Hround. reflexivity.
    + now rewrite Hframe.
Qed.

Lemma countdown_succ n :
  countdown (N.to_nat (n + 1)) = (n + 1) :: countdown (N.to_nat n).
Proof.
  replace (N.to_nat (n + 1)) with (S (N.to_nat n)) by lia.
  cbn [countdown]. f_equal. lia.
Qed.

(** X11. Round ids are allocated 1, 2, 3, ... without gaps, and the log has
    one [RoundStarted] per allocated id: in every reachable state the ids of
    the [RoundStarted] events are [currentRoundId, ..., 2, 1]. *)
Theorem rounds_are_numbered_in_order s :
  reachable s -> started_ids s = countdown (N.to_nat (currentRoundId s)).
Proof.
  induction 1 as [admin | s s' c e Hreach IH Henv Hexec].
  - reflexivity.
  - voting_cases Hexec; try exact IH.
    + unfold started_ids in *.
      cbn [emit set_round set_currentRoundId events currentRoundId flat_map
           started_id app].
      rewrite countdown_succ. f_equal. exact IH.
    + subst s'. exact IH.
    + destruct (revealVote_written _ _ _ _ _ _ Hexec)
        as (_ & (_ & _ & Hcur & Hev) & _).
      unfold started_ids in *. rewrite Hev, Hcur. exact IH.
Qed.

(** *** The log and the tallies *)

Lemma count_of_cons a l : count_of (a :: l) = count_of l + 1.
Proof. unfold count_of. cbn [List.length]. lia. Qed.

(** X12. The tallies are what the log reports: in every reachable state
    [totalVotes], [quadraticScore] and [uniqueVoters] of a proposal are the
    sum of the counts, the sum of their scaled roots and the number of the
    [VoteRevealed] events for that round and proposal; [totalCredits] of a
    round is the sum of the squared counts revealed in it; and an account's
    reputation score is the number of its reveals. *)
Theorem tallies_follow_the_log s : reachable s -> tallies_match_log s.
Proof.
  induction 1 as [admin | s s' c e Hreach IH Henv Hexec].
  - repeat split.
  - destruct IH as (Hres & Hcred & Hrep & Hnone).
    voting_cases Hexec; try (repeat split; first [apply Hres | apply Hcred
                                                | apply Hrep | apply Hnone]).
    + (* startVotingRound *)
      split; [|split; [|split]];
        cbn [emit set_round set_currentRoundId set_vote events results votingRounds
             voterReputationScore currentRoundId flat_map revealed_for
             revealed_in revealed_by app].
      * exact Hres.
      * intros r. destruct (N.eq_dec r (currentRoundId s + 1)) as [->|Hr].
        -- rewrite upd_same, Hnone by lia. reflexivity.
        -- rewrite upd_other by exact Hr. apply Hcred.
      * exact Hrep.
      * intros r Hr. apply Hnone. lia.
    + (* commitVote *)
      subst s'. split; [|split; [|split]];
        cbn [emit set_round set_currentRoundId set_vote events results votingRounds
             voterReputationScore currentRoundId flat_map revealed_for
             revealed_in revealed_by app]; assumption.
    + (* revealVote *)
      destruct (revealVote_written _ _ _ _ _ _ Hexec)
        as (_ & (_ & _ & Hcur & Hev) & (Hres' & Hresf) & (Hround & Hroundf)
            & (Hrep' & Hrepf)).
      split; [|split; [|split]].
      * intros r p. rewrite Hev. cbn [flat_map revealed_for].
        destruct (N.eqb_spec (currentRoundId s) r) as [<-|Hr];
          [destruct (N.eqb_spec proposalId p) as [<-|Hp]|]; cbn [andb app].
        -- rewrite Hres'. cbn [totalVotes quadraticScore uniqueVoters map total
                                 fold_right].
           destruct (Hres (currentRoundId s) proposalId) as (-> & -> & ->).
           rewrite count_of_cons. unfold total. repeat split; lia.
        -- rewrite Hresf by congruence. apply Hres.
        -- rewrite Hresf by congruence. apply Hres.
      * intros r. rewrite Hev. cbn [flat_map revealed_in].
        destruct (N.eqb_spec (currentRoundId s) r) as [<-|Hr]; cbn [app].
        -- rewrite Hround. cbn [totalCredits map total fold_right].
           rewrite Hcred. unfold total. lia.
        -- rewrite Hroundf by congruence. apply Hcred.
      * intros v. rewrite Hev. cbn [flat_map revealed_by].
        destruct (N.eqb_spec (msg_sender e) v) as [<-|Hv]; cbn [app].
        -- rewrite Hrep', count_of_cons, Hrep. reflexivity.
        -- rewrite Hrepf by congruence. apply Hrep.
      * intros r Hr. rewrite Hev. rewrite Hcur in Hr. cbn [flat_map revealed_in].
        assert (Hne : (currentRoundId s =? r) = false) by (apply N.eqb_neq; lia).
        rewrite Hne. cbn [app]. apply Hnone, Hr.
    + (* finalizeRound *)
      split; [|split; [|split]];
        cbn [emit set_round set_currentRoundId set_vote events results votingRounds
             voterReputationScore currentRoundId flat_map revealed_for
             revealed_in revealed_by app]; try assumption.
      intros r. destruct (N.eq_dec r (currentRoundId s)) as [->|Hr].
      * rewrite upd_same. apply Hcred.
      * rewrite upd_other by exact Hr. apply Hcred.
Qed.

(** X13. Nothing writes [qualified], [counted] or [totalProposals]: in every
    reachable state no proposal is qualified, no vote is counted and every
    round has [totalProposals = 0]; [finalizeRound] in particular marks no
    proposal qualified. *)
Theorem dormant_fields_stay_unset s : reachable s -> dormant_fields_unset s.
Proof.
  induction 1 as [admin | s s' c e Hreach IH Henv Hexec].
  - repeat split.
  - destruct IH as (Hq & Hc & Hp).
    voting_cases Hexec; try (repeat split; first [apply Hq | apply Hc | apply Hp]).
    + split; [|split]; cbn; try assumption.
      intros r. destruct (N.eq_dec r (currentRoundId s + 1)) as [->|Hr].
      * now rewrite upd_same.
      * rewrite upd_other by exact Hr. apply Hp.
    + subst s'. split; [|split]; cbn; try assumption.
      intros r v. unfold upd.
      destruct (r =? currentRoundId s); [|apply Hc].
      destruct (v =? msg_sender e); [apply Hc | apply Hc].
    + destruct (revealVote_written _ _ _ _ _ _ Hexec)
        as (_ & _ & (Hres' & Hresf) & (Hround & Hroundf) & _).
      destruct (revealVote_ok _ _ _ _ _ _ Hexec) as (_ & _ & Hvote & Hvotef).
      split; [|split].
      * intros r p.
        destruct (N.eq_dec r (currentRoundId s)) as [->|Hr];
          [destruct (N.eq_dec p proposalId) as [->|Hne]|].
        -- rewrite Hres'. apply Hq.
        -- rewrite Hresf by congruence. apply Hq.
        -- rewrite Hresf by congruence. apply Hq.
      * intros r v.
        destruct (N.eq_dec r (currentRoundId s)) as [->|Hr];
          [destruct (N.eq_dec v (msg_sender e)) as [->|Hne]|].
        -- rewrite Hvote. apply Hc.
        -- rewrite Hvotef by congruence. apply Hc.
        -- rewrite Hvotef by congruence. apply Hc.
      * intros r. destruct (N.eq_dec r (currentRoundId s)) as [->|Hr].
        -- rewrite Hround. apply Hp.
        -- rewrite Hroundf by exact Hr. apply Hp.
    + split; [|split]; cbn; try assumption.
      intros r. destruct (N.eq_dec r (currentRoundId s)) as [->|Hr].
      * rewrite upd_same. apply Hp.
      * rewrite upd_other by exact Hr. apply Hp.
Qed.

(** *** Eligibility and the pause switch *)

(** X14. Only voters whose Merkle proof verifies against the round's root
    commit: a call whose proof does not verify fails, with
    [NotQualifiedVoter] when the contract is not paused and the call is
    inside the commit window; a call inside the window whose proof verifies
    and that finds no commitment stores its own and logs it. *)
Theorem commit_is_for_verified_voters commit proof e s :
  (_verifyVoter (msg_sender e) proof
     (merkleRoot (votingRounds s (currentRoundId s))) = false ->
   is_ok (commitVote commit proof e s) = false /\
   (_paused s = false ->
    startTime (votingRounds s (currentRoundId s)) <= block_timestamp e ->
    block_timestamp e <= commitEndTime (votingRounds s (currentRoundId s)) ->
    commitVote commit proof e s = Revert NotQualifiedVoter)) /\
  (_verifyVoter (msg_sender e) proof
     (merkleRoot (votingRounds s (currentRoundId s))) = true ->
   _paused s = false ->
   startTime (votingRounds s (currentRoundId s)) <= block_timestamp e ->
   block_timestamp e <= commitEndTime (votingRounds s (currentRoundId s)) ->
   commitment (votes s (currentRoundId s) (msg_sender e)) = 0 ->
   exists s',
     commitVote commit proof e s = Ok s' /\
     commitment (votes s' (currentRoundId s) (msg_sender e)) = commit /\
     events s' = VoteCommitted (currentRoundId s) (msg_sender e) commit :: events s).
Proof.
  split.
  - intros Hnot. split.
    + destruct (commitVote commit proof e s) as [s'|err] eqn:E; [|reflexivity].
      unfold commitVote in E. ok_inv E.
      apply negb_false_iff in Hstep1. congruence.
    + intros Hp H1 H2. unfold commitVote, whenNotPaused. rewrite Hp. cbn [bind].
      apply N.ltb_ge in H1, H2. rewrite H1, H2. cbn [orb revert_if bind].
      rewrite Hnot. reflexivity.
  - intros Hyes Hp H1 H2 Hnone.
    assert (Hok : exists s', commitVote commit proof e s = Ok s').
    { unfold commitVote, whenNotPaused. rewrite Hp. cbn [bind].
      apply N.ltb_ge in H1, H2. rewrite H1, H2. cbn [orb revert_if bind].
      rewrite Hyes. cbn [negb revert_if bind]. rewrite Hnone.
      cbn [N.eqb negb revert_if bind]. eauto. }
    destruct Hok as [s' Hok]. exists s'. split; [exact Hok|].
    destruct (commitVote_ok _ _ _ _ _ Hok) as (_ & Hstored & _).
    split; [exact Hstored|].
    apply commitVote_written in Hok. now subst s'.
Qed.

(** X15. [pause] and [unpause] are for [ADMIN_ROLE] and undo each other:
    a successful [pause] followed by a successful [unpause] leaves the state
    exactly as it was; a paused contract cannot be paused again, nor a
    running one unpaused. *)
Theorem pause_then_unpause_restores e e' s s1 s2 :
  pause e s = Ok s1 -> unpause e' s1 = Ok s2 ->
  s2 = s /\
  _roles s ADMIN_ROLE (msg_sender e) = true /\
  _roles s ADMIN_ROLE (msg_sender e') = true /\
  (forall e'', is_ok (pause e'' s1) = false) /\
  (forall e'', is_ok (unpause e'' s) = false).
Proof.
  intros Hpause Hunpause.
  assert (Hrunning : _paused s = false).
  { unfold pause in Hpause. ok_inv Hpause. unfold whenNotPaused in Hstep0.
    destruct (_paused s); [discriminate Hstep0 | reflexivity]. }
  apply pause_written in Hpause. destruct Hpause as [Hadmin ->].
  apply unpause_written in Hunpause. destruct Hunpause as [Hadmin' ->].
  split; [destruct s; cbn in Hrunning |- *; now subst|].
  split; [exact Hadmin|]. split; [exact Hadmin'|]. split.
  - intros e''. unfold pause, onlyRole, whenNotPaused.
    destruct (_roles (set_paused true s) ADMIN_ROLE (msg_sender e''));
      reflexivity.
  - intros e''. unfold unpause, onlyRole, whenPaused. rewrite Hrunning.
    destruct (_roles s ADMIN_ROLE (msg_sender e'')); reflexivity.
Qed.

End WithCrypto.

(** *** On the concrete execution of [VotingScenario] *)

Import QuadraticVoting.Toy VotingScenario.

Lemma matching_reveal_is_counted_witness :
  is_ok (revealVote 1 5 7 (by_at voter 150) committed) = true.
Proof.
  destruct (matching_reveal_is_counted 1 5 7 (by_at voter 150) committed)
    as (s' & -> & _); solve [reflexivity | by_computation].
Defined.

Lemma reveal_is_final_witness :
  revealed (votes revealed_five 1 voter) = true /\
  revealVote 2 3 9 (by_at voter 160) revealed_five = Revert AlreadyVoted.
Proof.
  assert (Hrev : revealed (votes revealed_five 1 voter) = true) by by_computation.
  split; [exact Hrev|].
  destruct (reveal_is_final revealed_five 1 voter Hrev) as [_ Hagain].
  destruct (Hagain 2 3 9 (by_at voter 160)) as [_ Hrevert];
    [by_computation | by_computation |].
  apply Hrevert; by_computation.
Defined.

Lemma only_own_vote_is_written_witness :
  exec (Call_revealVote 1 5 7) (by_at voter 150) committed = Ok revealed_five /\
  votes revealed_five 1 admin = votes committed 1 admin.
Proof.
  assert (Hexec : exec (Call_revealVote 1 5 7) (by_at voter 150) committed
                  = Ok revealed_five)
    by (apply voting_exec_ok; by_computation).
  split; [exact Hexec|].
  destruct (only_own_vote_is_written _ _ _ _ Hexec) as [Hvotes _].
  apply Hvotes. by_computation.
Defined.

Lemma tallies_stay_in_bounds_witness :
  reachable revealed_five /\ tally_in_bounds (results revealed_five 1 1).
Proof.
  split; [exact revealed_five_reachable|].
  apply tallies_stay_in_bounds, revealed_five_reachable.
Defined.

Lemma new_round_is_empty_witness :
  reachable deployed /\
  startVotingRound 200 100 root (by_at admin 0) deployed = Ok started /\
  getProposalScore 1 1 started = zero_result.
Proof.
  assert (Hstart : startVotingRound 200 100 root (by_at admin 0) deployed = Ok started)
    by (apply (voting_exec_ok (Call_startVotingRound 200 100 root)); by_computation).
  split; [apply reachable_init|]. split; [exact Hstart|].
  destruct (new_round_is_empty deployed 200 100 root (by_at admin 0) started
              (reachable_init admin) Hstart) as (_ & _ & _ & Hempty).
  apply (Hempty 1).
Defined.

Lemma overlong_commit_window_blocks_reveal_witness :
  startVotingRound 100 200 root (by_at admin 0) deployed = Ok overlong_commit /\
  is_ok (revealVote 1 5 7 (by_at voter 150) overlong_commit) = false.
Proof.
  assert (Hstart : startVotingRound 100 200 root (by_at admin 0) deployed
                   = Ok overlong_commit)
    by (apply (voting_exec_ok (Call_startVotingRound 100 200 root)); by_computation).
  split; [exact Hstart|].
  destruct (overlong_commit_window_blocks_reveal _ _ _ _ _ _ Hstart) as [_ Hnone];
    [by_computation|].
  apply Hnone.
Defined.

Lemma finalized_round_is_closed_witness :
  finalizeRound (by_at admin 201) revealed_five = Ok closed /\
  is_ok (finalizeRound (by_at admin 300) closed) = false.
Proof.
  assert (Hfin : finalizeRound (by_at admin 201) revealed_five = Ok closed)
    by (apply (voting_exec_ok Call_finalizeRound); by_computation).
  split; [exact Hfin|].
  destruct (finalized_round_is_closed _ _ _ Hfin) as (_ & Hagain & _).
  apply Hagain.
Defined.

Lemma schedule_is_admin_only_witness :
  exec (Call_commitVote (pack_vote 1 5 7) []) (by_at voter 10) started = Ok committed /\
  _roles started ADMIN_ROLE voter = false /\
  schedule (votingRounds committed 1) = schedule (votingRounds started 1).
Proof.
  assert (Hexec : exec (Call_commitVote (pack_vote 1 5 7) []) (by_at voter 10) started
                  = Ok committed)
    by (apply voting_exec_ok; by_computation).
  assert (Hrole : _roles started ADMIN_ROLE (msg_sender (by_at voter 10)) = false)
    by by_computation.
  split; [exact Hexec|]. split; [exact Hrole|].
  destruct (schedule_is_admin_only _ _ _ _ Hexec Hrole) as (_ & _ & Hsame).
  apply Hsame.
Defined.

Lemma rounds_are_numbered_in_order_witness :
  reachable revealed_five /\ started_ids revealed_five = [1].
Proof.
  split; [exact revealed_five_reachable|].
  rewrite (rounds_are_numbered_in_order _ revealed_five_reachable).
  by_computation.
Defined.

Lemma tallies_follow_the_log_witness :
  reachable revealed_five /\ tallies_match_log revealed_five.
Proof.
  split; [exact revealed_five_reachable|].
  apply tallies_follow_the_log, revealed_five_reachable.
Defined.

Lemma dormant_fields_stay_unset_witness :
  reachable closed /\ dormant_fields_unset closed.
Proof.
  assert (Hreach : reachable closed).
  { unfold closed. run_voting_transaction. exact revealed_five_reachable. }
  split; [exact Hreach|].
  apply dormant_fields_stay_unset, Hreach.
Defined.

Lemma commit_is_for_verified_voters_witness :
  _verifyVoter admin [] (merkleRoot (votingRounds started 1)) = false /\
  commitVote 77 [] (by_at admin 10) started = Revert NotQualifiedVoter /\
  _verifyVoter voter [] (merkleRoot (votingRounds started 1)) = true /\
  is_ok (commitVote 77 [] (by_at voter 10) started) = true.
Proof.
  assert (Hno : _verifyVoter (msg_sender (by_at admin 10)) []
                  (merkleRoot (votingRounds started (currentRoundId started)))
                = false) by by_computation.
  assert (Hyes : _verifyVoter (msg_sender (by_at voter 10)) []
                   (merkleRoot (votingRounds started (currentRoundId started)))
                 = true) by by_computation.
  split; [exact Hno|]. split.
  - destruct (commit_is_for_verified_voters 77 [] (by_at admin 10) started)
      as [Hout _].
    destruct (Hout Hno) as [_ Hrevert]. apply Hrevert; by_computation.
  - split; [exact Hyes|].
    destruct (commit_is_for_verified_voters 77 [] (by_at voter 10) started)
      as [_ Hin].
    destruct (Hin Hyes) as (s' & -> & _); solve [reflexivity | by_computation].
Defined.

Lemma pause_then_unpause_restores_witness :
  pause (by_at admin 0) deployed = Ok halted /\
  unpause (by_at admin 5) halted = Ok deployed.
Proof.
  assert (Hpause : pause (by_at admin 0) deployed = Ok halted)
    by (apply (voting_exec_ok Call_pause); by_computation).
  split; [exact Hpause|].
  destruct (unpause (by_at admin 5) halted) as [s2|err] eqn:E.
  - now destruct (pause_then_unpause_restores _ _ _ _ _ Hpause E) as [-> _].
  - apply (f_equal is_ok) in E. vm_compute in E. discriminate E.
Defined.

End VotingExtras.

(** ** The milestone escrow, continued *)

Module FundingExtras.
Import MilestoneFunding FundingObservations FundingFacts.

Section WithTokens.
Context {Ledger : Type} {tokens : Tokens Ledger}.
Implicit Types s : @State Ledger.

(** What each successful call has checked, and the state it leaves. *)
Lemma createProject_written name text token amounts descriptions deadlines e s pid s' :
  createProject name text token amounts descriptions deadlines e s = Ok (pid, s') ->
  exists ms total,
    createProject_loop (block_timestamp e) 0 amounts descriptions deadlines
      (milestones (projects s (nextProjectId s))) 0 = Ok (ms, total) /\
    2 <= len amounts /\ len amounts <= 8 /\
    pid = nextProjectId s /\
    s' = emit (ProjectCreated (nextProjectId s) (msg_sender e) total)
           (set_project (nextProjectId s)
              (mkProject (msg_sender e) name text token total
                 (releasedFunding (projects s (nextProjectId s)))
                 (len amounts) true (block_timestamp e) ms)
              (set_nextProjectId (nextProjectId s + 1) s)).
Proof.
  unfold createProject. intros H. ok_inv H. subst pid s'.
  apply N.leb_le in Hstep, Hstep0.
  destruct a2 as [ms total]. exists ms, total. auto.
Qed.

Lemma fundProject_written p amount e s s' :
  fundProject p amount e s = Ok s' ->
  active (projects s p) = true /\
  exists l,
    safeTransferFrom (fundingToken (projects s p)) (msg_sender e) this amount
      (ledger s) = Ok l /\
    s' = set_ledger l s.
Proof. unfold fundProject. intros H. ok_inv H. subst s'. eauto. Qed.

Lemma submitMilestone_written p i h e s s' :
  submitMilestone p i h e s = Ok s' ->
  msg_sender e = creator (projects s p) /\
  status (milestone_of s p i) = Pending /\
  s' = emit (MilestoneSubmitted p i h)
         (_assignReviewers p i
            (set_milestone_of p i
               (mkMilestone (description (milestone_of s p i))
                  (fundingAmount (milestone_of s p i))
                  (deadline (milestone_of s p i)) h InReview
                  (assignedReviewers (milestone_of s p i))
                  (approvalCount (milestone_of s p i)) (block_timestamp e)
                  (autoReleaseEnabled (milestone_of s p i))
                  (autoReleaseTime (milestone_of s p i))) s)).
Proof.
  unfold submitMilestone. intros H. ok_inv H. subst s'.
  apply N.eqb_eq in Hstep. apply status_eqb_eq in Hstep0. auto.
Qed.

Lemma reviewMilestone_written p i approved comments e s s' :
  reviewMilestone p i approved comments e s = Ok s' ->
  _roles s REVIEWER_ROLE (msg_sender e) = true /\
  stake_active (reviewerStakes s (msg_sender e)) = true /\
  status (milestone_of s p i) = InReview /\
  reviewerVotes s p i (msg_sender e) = false /\
  In (msg_sender e) (assignedReviewers (milestone_of s p i)) /\
  exists count s3,
    count = (if approved then approvalCount (milestone_of s p i) + 1
             else approvalCount (milestone_of s p i)) /\
    s3 = emit (MilestoneReviewed p i (msg_sender e) approved)
           (set_stake (msg_sender e)
              (mkReviewerStake
                 (stakedAmount (reviewerStakes s (msg_sender e)))
                 (successfulReviews (reviewerStakes s (msg_sender e)))
                 (totalReviews (reviewerStakes s (msg_sender e)) + 1)
                 (stake_active (reviewerStakes s (msg_sender e))))
              (set_milestone_of p i
                 (set_approvalCount count (milestone_of s p i))
                 (set_reviewerVote p i (msg_sender e) true s))) /\
    milestone_of s3 p i = set_approvalCount count (milestone_of s p i) /\
    s' = if len (assignedReviewers (milestone_of s p i)) * APPROVAL_THRESHOLD / 100
            <=? count
         then set_milestone_of p i
                (set_status Approved (set_approvalCount count (milestone_of s p i))) s3
         else s3.
Proof.
  unfold reviewMilestone, onlyRole. intros H.
  destruct (_roles s REVIEWER_ROLE (msg_sender e)) eqn:Hrole; [|discriminate H].
  cbn [bind] in H.
  apply bind_ok in H. destruct H as (u1 & Hactive & H). apply require_ok in Hactive.
  apply bind_ok in H. destruct H as (u2 & Hstatus & H). apply require_ok in Hstatus.
  apply status_eqb_eq in Hstatus.
  apply bind_ok in H. destruct H as (u3 & Hvote & H). apply require_ok in Hvote.
  apply negb_true_iff in Hvote.
  apply bind_ok in H. destruct H as (u4 & Hpanel & H). apply require_ok in Hpanel.
  apply existsb_exists in Hpanel. destruct Hpanel as (a & Hin & Ha).
  apply N.eqb_eq in Ha. subst a.
  apply bind_ok in H. destruct H as (count & Hcount & H).
  assert (Hc : count = (if approved then approvalCount (milestone_of s p i) + 1
                        else approvalCount (milestone_of s p i))).
  { destruct approved; [now apply checked_add_ok in Hcount | now injection Hcount]. }
  apply bind_ok in H. destruct H as (reviews & Hreviews & H).
  apply checked_add_ok in Hreviews. destruct Hreviews as [-> _].
  split; [reflexivity|]. repeat (split; [assumption|]).
  exists count. eexists. split; [exact Hc|]. split; [reflexivity|].
  split.
  { rewrite milestone_of_emit.
    unfold milestone_of at 1. cbn [set_stake projects].
    fold (milestone_of (set_milestone_of p i
                          (set_approvalCount count (milestone_of s p i))
                          (set_reviewerVote p i (msg_sender e) true s)) p i).
    apply milestone_of_set_same. }
  unfold _checkMilestoneApproval in H.
  apply bind_ok in H. destruct H as (required & Hreq & H).
  match type of H with
  | context [milestone_of ?s3 p i] =>
      assert (Hm : milestone_of s3 p i
                   = set_approvalCount count (milestone_of s p i))
  end.
  { rewrite milestone_of_emit.
    unfold milestone_of at 1. cbn [set_stake projects].
    fold (milestone_of (set_milestone_of p i
                          (set_approvalCount count (milestone_of s p i))
                          (set_reviewerVote p i (msg_sender e) true s)) p i).
    apply milestone_of_set_same. }
  rewrite Hm in H, Hreq.
  cbn [set_approvalCount assignedReviewers approvalCount] in H, Hreq.
  unfold requiredApprovals in Hreq. ok_inv Hreq.
  destruct (_ <=? count); now injection H as <-.
Qed.

Lemma stakeAsReviewer_written e s s' :
  stakeAsReviewer e s = Ok s' ->
  stake_active (reviewerStakes s (msg_sender e)) = false /\
  exists l,
    safeTransferFrom (stakeToken s) (msg_sender e) this REVIEWER_STAKE_REQUIRED
      (ledger s) = Ok l /\
    s' = emit (ReviewerStaked (msg_sender e) REVIEWER_STAKE_REQUIRED)
           (set_role REVIEWER_ROLE (msg_sender e) true
              (set_stake (msg_sender e)
                 (mkReviewerStake REVIEWER_STAKE_REQUIRED 0 0 true)
                 (set_ledger l s))).
Proof.
  unfold stakeAsReviewer. intros H. ok_inv H. subst s'.
  apply negb_true_iff in Hstep. eauto.
Qed.

Lemma role_call_written c e s s' :
  exec c e s = Ok s' ->
  match c with
  | Call_grantRole r a | Call_revokeRole r a | Call_renounceRole r a =>
      exists b, s' = set_role r a b s
  | _ => True
  end.
Proof.
  destruct c; cbn [exec]; intros H; try exact I.
  - unfold grantRole in H. ok_inv H. subst s'. eauto.
  - unfold revokeRole in H. ok_inv H. subst s'. eauto.
  - unfold renounceRole in H. ok_inv H. subst s'. eauto.
Qed.

(** Takes a successful call apart: one goal per function, in the order of
    [Call], with the post-state replaced by what the function wrote. *)
Ltac funding_cases Hexec :=
  let c := lazymatch type of Hexec with exec ?c _ _ = Ok _ => c end in
  let s' := lazymatch type of Hexec with _ = Ok ?s' => s' end in
  pose proof (role_call_written _ _ _ _ Hexec) as Hrolecall;
  destruct c; cbn [exec] in Hexec; cbv beta iota in Hrolecall;
  [ let r := fresh "r" in
    let ms := fresh "ms" in
    let total := fresh "total" in
    apply bind_ok in Hexec; destruct Hexec as ([? r] & Hexec & Hr);
    injection Hr as <-; cbn [snd];
    apply createProject_written in Hexec;
    destruct Hexec as (ms & total & ?Hloop & ?Hmin & ?Hmax & _ & ->);
    clear Hrolecall
  | apply fundProject_written in Hexec;
    destruct Hexec as (?Hactive & ?l & ?Hpull & ->); clear Hrolecall
  | apply submitMilestone_written in Hexec;
    destruct Hexec as (?Hcreator & ?Hpending & ->); clear Hrolecall
  | apply reviewMilestone_written in Hexec;
    destruct Hexec as (?Hrole & ?Hactive & ?Hinreview & ?Hfirst & ?Hpanel
                       & ?count & ?s3 & ?Hcount & ?Hs3 & ?Hm3 & ->);
    clear Hrolecall
  | apply releaseMilestoneFunds_written in Hexec;
    destruct Hexec as (?Hgate & ?Hopen & ?fee & ?l1 & ?l2 & ?Hfee & ?Hfeele
                       & ?Hpay & ?Hcut & ->);
    clear Hrolecall
  | apply stakeAsReviewer_written in Hexec;
    destruct Hexec as (?Hnew & ?l & ?Hpull & ->); clear Hrolecall
  | destruct Hrolecall as [?b ->]
  | destruct Hrolecall as [?b ->]
  | destruct Hrolecall as [?b ->] ].

(** Reads a field of a written state. *)
Ltac read_state :=
  cbn [emit set_ledger set_project set_stake set_role set_reviewerVote
       set_nextProjectId set_milestone_of _assignReviewers _rewardReviewers
       _roles nextProjectId projects reviewerStakes reviewerVotes stakeToken
       treasury platformFeeRate ledger events].

(** No call rewrites the configuration or the terms of a project, the
    project that [createProject] is writing apart. *)
Lemma exec_keeps_terms c e s s' :
  exec c e s = Ok s' ->
  configuration s' = configuration s /\
  forall p,
    (forall name text token amounts descriptions deadlines,
       c = Call_createProject name text token amounts descriptions deadlines ->
       p <> nextProjectId s) ->
    project_terms (projects s' p) = project_terms (projects s p) /\
    forall i, milestone_terms (milestone_of s' p i)
              = milestone_terms (milestone_of s p i).
Proof.
  intros Hexec. unfold configuration.
  funding_cases Hexec.
  - (* createProject *)
    split; [reflexivity|]. intros p Hp. unfold milestone_of. read_state.
    rewrite upd_other by (eapply Hp; reflexivity). auto.
  - split; [reflexivity|]. auto.
  - (* submitMilestone *)
    split; [reflexivity|]. intros q _.
    unfold _assignReviewers, milestone_of, set_milestone_of. read_state.
    destruct (N.eq_dec q projectId) as [->|Hq];
      [|rewrite !upd_other by exact Hq; auto].
    rewrite !upd_same. split; [reflexivity|].
    intros j. cbn [set_milestone milestones].
    destruct (N.eq_dec j milestoneId) as [->|Hj];
      [|rewrite !upd_other by exact Hj; reflexivity].
    rewrite !upd_same. reflexivity.
  - (* reviewMilestone *)
    assert (Hkeep : configuration s3 = configuration s /\
                    forall q, project_terms (projects s3 q)
                              = project_terms (projects s q) /\
                      forall j, milestone_terms (milestone_of s3 q j)
                                = milestone_terms (milestone_of s q j)).
    { subst s3. split; [reflexivity|]. intros q.
      unfold milestone_of, set_milestone_of. read_state.
      destruct (N.eq_dec q projectId) as [->|Hq];
        [|rewrite !upd_other by exact Hq; auto].
      rewrite !upd_same. split; [reflexivity|].
      intros j. cbn [set_milestone milestones].
      destruct (N.eq_dec j milestoneId) as [->|Hj];
        [|rewrite !upd_other by exact Hj; reflexivity].
      rewrite !upd_same. reflexivity. }
    destruct Hkeep as (Hconf & Hterms).
    destruct (_ <=? count); [|split; [exact Hconf | intros q _; apply Hterms]].
    split; [exact Hconf|]. intros q _.
    destruct (Hterms q) as [Hq Hj].
    unfold milestone_of in Hj |- *. unfold set_milestone_of. read_state.
    destruct (N.eq_dec q projectId) as [->|Hne];
      [|rewrite !upd_other by exact Hne; auto].
    rewrite !upd_same. split; [exact Hq|].
    intros j. cbn [set_milestone milestones].
    destruct (N.eq_dec j milestoneId) as [->|Hne];
      [|rewrite !upd_other by exact Hne; apply Hj].
    rewrite !upd_same. rewrite <- (Hj milestoneId).
    fold (milestone_of s3 projectId milestoneId). rewrite Hm3. reflexivity.
  - (* releaseMilestoneFunds *)
    split; [reflexivity|]. intros q _.
    unfold milestone_of. read_state.
    destruct (N.eq_dec q projectId) as [->|Hq];
      [|rewrite !upd_other by exact Hq; auto].
    rewrite !upd_same. split; [reflexivity|].
    intros j. cbn [set_releasedFunding set_milestone milestones].
    destruct (N.eq_dec j milestoneId) as [->|Hj];
      [|rewrite !upd_other by exact Hj; reflexivity].
    rewrite !upd_same. reflexivity.
  - split; [reflexivity|]. auto.
  - split; [reflexivity|]. auto.
  - split; [reflexivity|]. auto.
  - split; [reflexivity|]. auto.
Qed.

(** X16. No call changes the stake token, the treasury or the fee rate, and
    no call changes what [createProject] laid down for an existing project:
    creator, title, description, funding token, total funding, milestone
    count, active flag and creation time, and each milestone's description,
    amount, deadline and auto-release time. *)
Theorem project_terms_are_fixed c e s s' :
  exec c e s = Ok s' ->
  configuration s' = configuration s /\
  forall p, p < nextProjectId s ->
    project_terms (projects s' p) = project_terms (projects s p) /\
    forall i, milestone_terms (milestone_of s' p i)
              = milestone_terms (milestone_of s p i).
Proof.
  intros Hexec. destruct (exec_keeps_terms _ _ _ _ Hexec) as [Hconf Hterms].
  split; [exact Hconf|]. intros p Hp. apply Hterms. intros; lia.
Qed.

(** X17. Tokens move only as the call says: [fundProject] and
    [stakeAsReviewer] pull from the caller into the escrow,
    [releaseMilestoneFunds] pays the creator of the project and the treasury
    two amounts that add up to the milestone's [fundingAmount], and no other
    call touches the ledger. *)
Theorem tokens_move_only_as_called c e s s' :
  exec c e s = Ok s' ->
  match c with
  | Call_fundProject p amount =>
      safeTransferFrom (fundingToken (projects s p)) (msg_sender e) this amount
        (ledger s) = Ok (ledger s')
  | Call_stakeAsReviewer =>
      safeTransferFrom (stakeToken s) (msg_sender e) this REVIEWER_STAKE_REQUIRED
        (ledger s) = Ok (ledger s')
  | Call_releaseMilestoneFunds p i =>
      exists toCreator fee l1,
        toCreator + fee = fundingAmount (milestone_of s p i) /\
        safeTransfer (fundingToken (projects s p)) (creator (projects s p))
          toCreator (ledger s) = Ok l1 /\
        safeTransfer (fundingToken (projects s p)) (treasury s) fee l1
        = Ok (ledger s')
  | _ => ledger s' = ledger s
  end.
Proof.
  intros Hexec. funding_cases Hexec; try reflexivity.
  - exact Hpull.
  - subst s3. destruct (_ <=? count); reflexivity.
  - exists (fundingAmount (milestone_of s projectId milestoneId) - fee), fee, l1.
    split; [lia|]. split; [exact Hpay | exact Hcut].
  - exact Hpull.
Qed.

Lemma deployed_as_reachable d s : deployed_as d s -> reachable s.
Proof.
  induction 1 as [admin stake_token treasury_address l
                 | s s' c e Hrun IH Henv Hexec | s l Hrun IH].
  - apply reachable_init.
  - eapply reachable_step; eassumption.
  - apply reachable_tokens, IH.
Qed.

Lemma deployed_as_fee d s :
  deployed_as d s -> platformFeeRate s = initial_platformFeeRate d.
Proof.
  induction 1 as [admin stake_token treasury_address l
                 | s s' c e Hrun IH Henv Hexec | s l Hrun IH].
  - reflexivity.
  - destruct (exec_keeps_terms _ _ _ _ Hexec) as [Hconf _].
    unfold configuration in Hconf. injection Hconf as _ _ ->. exact IH.
  - exact IH.
Qed.

(** X18. No function writes [platformFeeRate], [initialize] included, so
    the fee depends on how the contract is deployed. Behind the proxy of the
    deployment script the rate is 0: a successful release transfers the
    whole [fundingAmount] to the creator and 0 to the treasury. Deployed
    directly the rate is the declared 200: a release of amount [a] transfers
    [a - a / 50] to the creator and [a / 50] to the treasury. *)
Theorem release_fee_follows_deployment d s p i e s' :
  deployed_as d s ->
  releaseMilestoneFunds p i e s = Ok s' ->
  platformFeeRate s = initial_platformFeeRate d /\
  exists l1,
    safeTransfer (fundingToken (projects s p)) (creator (projects s p))
      (match d with
       | BehindProxy => fundingAmount (milestone_of s p i)
       | Direct => fundingAmount (milestone_of s p i)
                   - fundingAmount (milestone_of s p i) / 50
       end) (ledger s) = Ok l1 /\
    safeTransfer (fundingToken (projects s p)) (treasury s)
      (match d with
       | BehindProxy => 0
       | Direct => fundingAmount (milestone_of s p i) / 50
       end) l1 = Ok (ledger s').
Proof.
  intros Hrun Hrel. pose proof (deployed_as_fee d s Hrun) as Hrate.
  split; [exact Hrate|].
  apply releaseMilestoneFunds_written in Hrel.
  destruct Hrel as (_ & _ & fee & l1 & l2 & Hfee & _ & Hpay & Hcut & ->).
  rewrite Hrate in Hfee. exists l1. destruct d; cbn [initial_platformFeeRate] in Hfee.
  - assert (Hfifty : fee = fundingAmount (milestone_of s p i) / 50).
    { rewrite Hfee. change 10000 with (50 * 200).
      apply N.Div0.div_mul_cancel_r. discriminate. }
    rewrite Hfifty in Hpay, Hcut. split; [exact Hpay | exact Hcut].
  - rewrite N.mul_0_r in Hfee. change (0 / 10000) with 0 in Hfee.
    rewrite Hfee, N.sub_0_r in Hpay. rewrite Hfee in Hcut.
    split; [exact Hpay | exact Hcut].
Qed.

(** X19. A stake is never withdrawn: once [active] is set for a reviewer,
    no call clears it or changes the staked amount, and a second
    [stakeAsReviewer] of that account fails with [Already active reviewer]. *)
Theorem stake_is_permanent s a :
  stake_active (reviewerStakes s a) = true ->
  (forall c e s',
     exec c e s = Ok s' ->
     stake_active (reviewerStakes s' a) = true /\
     stakedAmount (reviewerStakes s' a) = stakedAmount (reviewerStakes s a)) /\
  (forall e,
     msg_sender e = a ->
     stakeAsReviewer e s = Revert (RequireFailed "Already active reviewer")).
Proof.
  intros Hactive. split.
  - intros c e s' Hexec. funding_cases Hexec; try (split; [exact Hactive | reflexivity]).
    + (* reviewMilestone *)
      assert (Hkeep : stake_active (reviewerStakes s3 a) = true /\
                      stakedAmount (reviewerStakes s3 a)
                      = stakedAmount (reviewerStakes s a)).
      { subst s3. unfold set_milestone_of. read_state.
        destruct (N.eq_dec a (msg_sender e)) as [->|Hne].
        - rewrite upd_same. cbn. auto.
        - rewrite upd_other by exact Hne. auto. }
      destruct (_ <=? count); [|exact Hkeep]. exact Hkeep.
    + (* stakeAsReviewer *)
      read_state.
      destruct (N.eq_dec a (msg_sender e)) as [->|Hne]; [congruence|].
      rewrite upd_other by exact Hne. auto.
  - intros e <-. unfold stakeAsReviewer. rewrite Hactive. reflexivity.
Qed.

(** *** Over the reachable states *)

Lemma sum_upto_le f g n :
  (forall i, i < N.of_nat n -> f i <= g i) -> sum_upto f n <= sum_upto g n.
Proof.
  induction n as [|n IH]; intros H; cbn [sum_upto]; [lia|].
  assert (sum_upto f n <= sum_upto g n) by (apply IH; intros; apply H; lia).
  specialize (H (N.of_nat n)). lia.
Qed.

(** X21. The escrow never records more as released than the project's
    total: in every reachable state [releasedFunding <= totalFunding], with
    equality once every milestone of the project is [Released], and
    [releasedFunding = 0] while none is. *)
Theorem released_within_total s p :
  reachable s ->
  releasedFunding (projects s p) <= totalFunding (projects s p) /\
  ((forall i, i < milestoneCount (projects s p) ->
      status (milestone_of s p i) = Released) ->
   releasedFunding (projects s p) = totalFunding (projects s p)) /\
  ((forall i, i < milestoneCount (projects s p) ->
      status (milestone_of s p i) <> Released) ->
   releasedFunding (projects s p) = 0).
Proof.
  intros Hreach. pose proof (reachable_Inv s Hreach) as HI.
  rewrite (inv_released s HI p). destruct (inv_total s HI p) as [-> _].
  unfold released_sum, funding_sum. split; [|split].
  - apply sum_upto_le. intros i _. apply released_amount_le.
  - intros Hall. apply sum_upto_ext. intros i Hi. rewrite N2Nat.id in Hi.
    specialize (Hall i Hi). unfold milestone_of in Hall.
    unfold released_amount. rewrite Hall. reflexivity.
  - intros Hnone. apply sum_upto_zero. intros i Hi. rewrite N2Nat.id in Hi.
    apply released_amount_not_released, (Hnone i Hi).
Qed.

Lemma review_never_succeeds p i approved comments e s s' :
  Inv s -> valid_env e -> reviewMilestone p i approved comments e s = Ok s' -> False.
Proof.
  intros HI Henv H.
  destruct (reviewMilestone_reverts p i approved comments e s) as [Hfail _].
  - apply (inv_panel s HI).
  - destruct Henv as (Hpos & _). lia.
  - rewrite H in Hfail. discriminate.
Qed.

(** What the loop of [createProject] leaves alone. *)
Lemma createProject_loop_keeps now amounts :
  forall descriptions deadlines i ms total ms' total',
    createProject_loop now i amounts descriptions deadlines ms total
    = Ok (ms', total') ->
    forall j,
      (status (ms' j) = Pending \/ ms' j = ms j) /\
      deliverableHash (ms' j) = deliverableHash (ms j) /\
      submissionTime (ms' j) = submissionTime (ms j).
Proof.
  induction amounts as [|a amounts IH];
    intros descriptions deadlines i ms total ms' total' H j.
  - cbn in H. injection H as <- _. auto.
  - cbn [createProject_loop] in H.
    destruct descriptions as [|text descriptions]; [discriminate H|].
    destruct deadlines as [|due deadlines]; [discriminate H|].
    ok_inv H. destruct (IH _ _ _ _ _ _ _ H j) as (Hs & Hh & Ht).
    destruct (N.eq_dec j i) as [->|Hne].
    + rewrite upd_same in Hs, Hh, Ht. cbn in Hs, Hh, Ht.
      split; [|auto]. destruct Hs as [Hs | Hs]; [auto|]. left. now rewrite Hs.
    + rewrite upd_other in Hs, Hh, Ht by exact Hne. auto.
Qed.

(** The milestones of a project as [createProject] leaves them. *)
Lemma createProject_milestones name text token amounts descriptions deadlines
    e s pid s' :
  Inv s ->
  createProject name text token amounts descriptions deadlines e s = Ok (pid, s') ->
  pid = nextProjectId s /\
  (forall q, q <> pid -> projects s' q = projects s q) /\
  forall i,
    milestone_of s pid i = zero_milestone /\
    status (milestone_of s' pid i) = Pending /\
    deliverableHash (milestone_of s' pid i) = ""%string /\
    submissionTime (milestone_of s' pid i) = 0.
Proof.
  intros HI H.
  pose proof (createProject_ok _ _ _ _ _ _ _ _ _ _ H)
    as (_ & _ & _ & _ & Hpid & _ & _ & _ & Hframe & _).
  split; [exact Hpid|]. split; [exact Hframe|].
  apply createProject_written in H.
  destruct H as (ms & total & Hloop & _ & _ & _ & ->). subst pid.
  destruct (inv_fresh s HI (nextProjectId s) (N.le_refl _)) as (_ & _ & _ & Hz).
  intros i. split; [apply Hz|].
  destruct (createProject_loop_keeps _ _ _ _ _ _ _ _ _ Hloop i) as (Hs & Hh & Ht).
  unfold milestone_of in Hz |- *. read_state. rewrite upd_same. cbn [milestones].
  rewrite Hz in Hs, Hh, Ht. cbn in Hs, Hh, Ht.
  split; [|auto]. destruct Hs as [Hs | Hs]; [exact Hs | now rewrite Hs].
Qed.

(** What one call does to one milestone, in a reachable state. *)
Lemma milestone_step c e s s' p i :
  Inv s -> valid_env e -> exec c e s = Ok s' ->
  milestone_of s' p i = milestone_of s p i \/
  (milestone_of s p i = zero_milestone /\
   (exists name text token amounts descriptions deadlines,
      c = Call_createProject name text token amounts descriptions deadlines) /\
   status (milestone_of s' p i) = Pending /\
   deliverableHash (milestone_of s' p i) = ""%string /\
   submissionTime (milestone_of s' p i) = 0) \/
  (status (milestone_of s p i) = Pending /\
   status (milestone_of s' p i) = InReview /\
   msg_sender e = creator (projects s p) /\
   exists h, c = Call_submitMilestone p i h) \/
  (status (milestone_of s p i) = InReview /\
   milestone_of s' p i = set_status Released (milestone_of s p i) /\
   deadline (milestone_of s p i) + AUTO_RELEASE_DELAY < block_timestamp e /\
   c = Call_releaseMilestoneFunds p i).
Proof.
  intros HI Henv Hexec. destruct c; cbn [exec] in Hexec.
  - (* createProject *)
    apply bind_ok in Hexec. destruct Hexec as ([pid t] & Hcreate & Hr).
    injection Hr as <-. cbn [snd].
    destruct (createProject_milestones _ _ _ _ _ _ _ _ _ _ HI Hcreate)
      as (-> & Hframe & Hnew).
    destruct (N.eq_dec p (nextProjectId s)) as [->|Hne].
    + right; left. destruct (Hnew i) as (Hz & Hs & Hh & Ht).
      repeat split; eauto 10.
    + left. unfold milestone_of. now rewrite Hframe.
  - left. apply fundProject_written in Hexec.
    destruct Hexec as (_ & l & _ & ->). reflexivity.
  - (* submitMilestone *)
    apply submitMilestone_ok in Hexec
      as (Hsender & Hpending & _ & _ & _ & _ & Hother & Hsame).
    destruct (N.eq_dec p projectId) as [->|Hp];
      [destruct (N.eq_dec i milestoneId) as [->|Hi]|].
    + right; right; left. rewrite Hsame. cbn [status]. eauto.
    + left. apply Hother. congruence.
    + left. apply Hother. congruence.
  - exfalso. eapply review_never_succeeds; eassumption.
  - (* releaseMilestoneFunds *)
    destruct (release_takes_auto_branch _ _ _ _ _ HI Hexec)
      as (Hs & Hen & Ht & _).
    rewrite (inv_auto s HI _ _ Hen) in Ht.
    apply releaseMilestoneFunds_ok in Hexec
      as (_ & _ & _ & _ & _ & Hframe & _ & _ & _ & _ & Hother & Hsame).
    destruct (N.eq_dec p projectId) as [->|Hp];
      [destruct (N.eq_dec i milestoneId) as [->|Hi]|].
    + right; right; right. auto.
    + left. apply Hother, Hi.
    + left. unfold milestone_of. now rewrite Hframe.
  - left. apply stakeAsReviewer_written in Hexec.
    destruct Hexec as (_ & l & _ & ->). reflexivity.
  - left. unfold grantRole in Hexec. ok_inv Hexec. now subst s'.
  - left. unfold revokeRole in Hexec. ok_inv Hexec. now subst s'.
  - left. unfold renounceRole in Hexec. ok_inv Hexec. now subst s'.
Qed.

(** X22. A milestone only moves forward: a transaction on a reachable
    state leaves its status as it is, or takes it from [Pending] to
    [InReview] (a [submitMilestone] by the project's creator), or from
    [InReview] to [Released] (a [releaseMilestoneFunds] later than the
    deadline plus [AUTO_RELEASE_DELAY]). *)
Theorem status_moves_forward c e s s' p i :
  reachable s -> valid_env e -> exec c e s = Ok s' ->
  status (milestone_of s' p i) = status (milestone_of s p i) \/
  (status (milestone_of s p i) = Pending /\
   status (milestone_of s' p i) = InReview /\
   msg_sender e = creator (projects s p) /\
   exists h, c = Call_submitMilestone p i h) \/
  (status (milestone_of s p i) = InReview /\
   status (milestone_of s' p i) = Released /\
   deadline (milestone_of s p i) + AUTO_RELEASE_DELAY < block_timestamp e /\
   c = Call_releaseMilestoneFunds p i).
Proof.
  intros Hreach Henv Hexec.
  destruct (milestone_step c e s s' p i (reachable_Inv s Hreach) Henv Hexec)
    as [Hsame | [(Hz & _ & Hs & _) | [Hsub | (Hs & Hrel & Ht & Hc)]]].
  - left. now rewrite Hsame.
  - left. rewrite Hs, Hz. reflexivity.
  - right; left. exact Hsub.
  - right; right. rewrite Hrel. cbn [set_status status]. auto.
Qed.

(** X23. [submitMilestone] does not compare the index with
    [milestoneCount]: the creator can submit a milestone the project does
    not have, which becomes [InReview]; in a reachable state such a
    milestone holds no funds and [releaseMilestoneFunds] always fails on it. *)
Theorem milestone_index_is_not_checked s p i :
  reachable s -> milestoneCount (projects s p) <= i ->
  fundingAmount (milestone_of s p i) = 0 /\
  (forall e,
     releaseMilestoneFunds p i e s = Revert (RequireFailed "Cannot release funds")) /\
  (forall h e,
     msg_sender e = creator (projects s p) ->
     status (milestone_of s p i) = Pending ->
     exists s',
       submitMilestone p i h e s = Ok s' /\
       status (milestone_of s' p i) = InReview /\
       milestoneCount (projects s' p) = milestoneCount (projects s p)).
Proof.
  intros Hreach Hi. pose proof (reachable_Inv s Hreach) as HI.
  destruct (inv_beyond s HI p i Hi) as [Hzero Hoff].
  split; [exact Hzero|]. split.
  - intros e. unfold releaseMilestoneFunds. fold (milestone_of s p i).
    destruct (release_conditions_cases (block_timestamp e) (milestone_of s p i))
      as [(Ha & _) | [(_ & Hen & _) | (_ & -> & _)]].
    + destruct (inv_status s HI p i) as [H | [H | H]]; congruence.
    + congruence.
    + reflexivity.
  - intros h e Hsender Hpending.
    assert (Hok : exists s', submitMilestone p i h e s = Ok s').
    { unfold submitMilestone. rewrite Hsender, N.eqb_refl. cbn [require bind].
      fold (milestone_of s p i). rewrite Hpending. cbn. eauto. }
    destruct Hok as [s' Hok]. exists s'. split; [exact Hok|].
    apply submitMilestone_ok in Hok
      as (_ & _ & _ & _ & _ & Hscalars & _ & Hsame).
    rewrite Hsame. cbn [status]. split; [reflexivity|].
    now destruct (Hscalars p) as (_ & _ & _ & Hcount).
Qed.

(** X24. A submission is final: once a milestone of a reachable state has
    left [Pending], no transaction takes it back to [Pending] or changes its
    deliverable hash or submission time, and every further [submitMilestone]
    on it fails. *)
Theorem submission_is_final s p i :
  reachable s -> status (milestone_of s p i) <> Pending ->
  (forall c e s',
     valid_env e -> exec c e s = Ok s' ->
     status (milestone_of s' p i) <> Pending /\
     deliverableHash (milestone_of s' p i) = deliverableHash (milestone_of s p i) /\
     submissionTime (milestone_of s' p i) = submissionTime (milestone_of s p i)) /\
  (forall h e, is_ok (submitMilestone p i h e s) = false).
Proof.
  intros Hreach Hleft. split.
  - intros c e s' Henv Hexec.
    destruct (milestone_step c e s s' p i (reachable_Inv s Hreach) Henv Hexec)
      as [Hsame | [(Hz & _) | [(Hs & _) | (Hs & Hrel & _)]]].
    + rewrite Hsame. auto.
    + rewrite Hz in Hleft. now contradiction Hleft.
    + contradiction.
    + rewrite Hrel. cbn. repeat split. discriminate.
  - intros h e.
    destruct (submitMilestone p i h e s) as [s'|err] eqn:E; [|reflexivity].
    apply submitMilestone_ok in E as (_ & Hpending & _). contradiction.
Qed.

(** *** The registry of projects *)

Lemma exec_numbering c e s s' :
  exec c e s = Ok s' ->
  match c with
  | Call_createProject name text token amounts descriptions deadlines =>
      nextProjectId s' = nextProjectId s + 1 /\
      created_ids s' = nextProjectId s :: created_ids s /\
      (forall p, p <> nextProjectId s -> projects s' p = projects s p) /\
      active (projects s' (nextProjectId s)) = true /\
      creator (projects s' (nextProjectId s)) = msg_sender e /\
      2 <= milestoneCount (projects s' (nextProjectId s)) <= 8
  | _ => nextProjectId s' = nextProjectId s /\ created_ids s' = created_ids s
  end.
Proof.
  intros Hexec. unfold created_ids.
  funding_cases Hexec; try (split; reflexivity).
  - read_state. cbn [flat_map created_id app]. rewrite upd_same.
    cbn [active creator milestoneCount].
    repeat split; try assumption.
    intros p Hp. now rewrite upd_other.
  - subst s3. destruct (_ <=? count); split; reflexivity.
Qed.

Lemma registry_frame s s' :
  nextProjectId s' = nextProjectId s ->
  created_ids s' = created_ids s ->
  (forall p, project_terms (projects s' p) = project_terms (projects s p)) ->
  (forall p i, p = 0 \/ nextProjectId s <= p ->
     milestone_of s p i = zero_milestone -> milestone_of s' p i = zero_milestone) ->
  registry_in_order s -> registry_in_order s'.
Proof.
  intros Hnext Hids Hterms Hzero (Hone & Hlog & Hin & Hout).
  assert (Hsame : forall p,
            active (projects s' p) = active (projects s p) /\
            creator (projects s' p) = creator (projects s p) /\
            milestoneCount (projects s' p) = milestoneCount (projects s p)).
  { intros p. specialize (Hterms p). unfold project_terms in Hterms.
    injection Hterms as -> _ _ _ _ -> -> _. auto. }
  unfold registry_in_order. rewrite Hnext, Hids.
  split; [exact Hone|]. split; [exact Hlog|]. split.
  - intros p Hp. destruct (Hsame p) as (-> & -> & ->). apply Hin, Hp.
  - intros p Hp. destruct (Hsame p) as (-> & -> & ->).
    destruct (Hout p Hp) as (Ha & Hc & Hm & Hz).
    repeat split; try assumption. intros i. apply Hzero; [exact Hp | apply Hz].
Qed.

Lemma registry_step c e s s' :
  Inv s -> valid_env e -> exec c e s = Ok s' ->
  registry_in_order s -> registry_in_order s'.
Proof.
  intros HI Henv Hexec Hreg.
  pose proof (exec_numbering _ _ _ _ Hexec) as Hnum.
  pose proof (exec_keeps_terms _ _ _ _ Hexec) as [_ Hterms].
  assert (Hzero : forall p i, p = 0 \/ nextProjectId s <= p ->
            milestone_of s p i = zero_milestone ->
            milestone_of s' p i = milestone_of s p i \/
            exists name text token amounts descriptions deadlines,
              c = Call_createProject name text token amounts descriptions deadlines).
  { intros p i Hp Hz.
    destruct (milestone_step c e s s' p i HI Henv Hexec)
      as [Hsame | [(_ & Hc & _) | [(_ & _ & Hsender & _) | (Hs & _)]]].
    - left. exact Hsame.
    - right. exact Hc.
    - destruct Hreg as (_ & _ & _ & Hout). destruct (Hout p Hp) as (_ & Hc & _).
      destruct Henv as (Hpos & _). lia.
    - rewrite Hz in Hs. discriminate Hs. }
  destruct c;
    try (destruct Hnum as [Hnext Hids];
         apply (registry_frame s s' Hnext Hids);
         [ intros p; apply Hterms; intros; discriminate
         | intros p i Hp Hz;
           destruct (Hzero p i Hp Hz) as [-> | (? & ? & ? & ? & ? & ? & Hc)];
           [exact Hz | discriminate Hc]
         | exact Hreg ]).
  (* createProject *)
  destruct Hnum as (Hnext & Hids & Hframe & Hactive & Hcreator & Hcount).
  destruct Hreg as (Hone & Hlog & Hin & Hout).
  unfold registry_in_order. rewrite Hnext, Hids.
  split; [lia|]. split; [|split].
  - replace (nextProjectId s + 1 - 1) with (nextProjectId s) by lia.
    replace (N.to_nat (nextProjectId s))
      with (S (N.to_nat (nextProjectId s - 1))) by lia.
    cbn [countdown]. rewrite <- Hlog. f_equal. lia.
  - intros p Hp. destruct (N.eq_dec p (nextProjectId s)) as [->|Hne].
    + rewrite Hactive, Hcreator. destruct Henv as (Hpos & _).
      repeat split; [lia | apply Hcount | apply Hcount].
    + rewrite Hframe by exact Hne. apply Hin. lia.
  - intros p Hp.
    assert (Hne : p <> nextProjectId s) by lia.
    unfold milestone_of. rewrite Hframe by exact Hne. apply Hout. lia.
Qed.

(** X25. Projects are registered under the ids 1, 2, 3, ...: in every
    reachable state the [ProjectCreated] events carry the ids
    [nextProjectId - 1, ..., 1]; each of these projects is active, has a
    creator other than the zero address and 2 to 8 milestones; nothing is
    stored under id 0 or an id not yet handed out, and [fundProject] on such
    an id fails with [Project not active]. *)
Theorem projects_are_registered_in_order s :
  reachable s ->
  registry_in_order s /\
  forall p amount e,
    p = 0 \/ nextProjectId s <= p ->
    fundProject p amount e s = Revert (RequireFailed "Project not active").
Proof.
  intros Hreach.
  assert (Hreg : registry_in_order s).
  { induction Hreach as [d admin stake_token treasury_address l
                        | s s' c e Hreach IH Henv Hexec | s l Hreach IH].
    - unfold registry_in_order. cbn. repeat split; auto; lia.
    - eapply registry_step; eauto using reachable_Inv.
    - exact IH. }
  split; [exact Hreg|].
  intros p amount e Hp. destruct Hreg as (_ & _ & _ & Hout).
  destruct (Hout p Hp) as (Hinactive & _).
  unfold fundProject. rewrite Hinactive. reflexivity.
Qed.

(** *** Stakes *)

Lemma panel_excludes s p i a :
  Inv s -> In a (assignedReviewers (milestone_of s p i)) -> a = 0.
Proof.
  intros HI Hin. pose proof (inv_panel s HI p i) as Hall.
  rewrite Forall_forall in Hall. now apply Hall.
Qed.

(** X26. In every reachable state a reviewer's stake record is either
    empty or exactly what [stakeAsReviewer] wrote: 1000e18 staked, active,
    and no review counted, since no review can succeed against a panel of
    zero addresses. *)
Theorem stakes_are_as_written s :
  reachable s -> forall a, stake_as_written (reviewerStakes s a).
Proof.
  induction 1 as [d admin stake_token treasury_address l
                 | s s' c e Hreach IH Henv Hexec | s l Hreach IH]; intros a.
  - left. reflexivity.
  - pose proof (reachable_Inv s Hreach) as HI.
    funding_cases Hexec; try apply IH.
    + (* reviewMilestone *)
      apply (panel_excludes s _ _ _ HI) in Hpanel.
      destruct Henv as (Hpos & _). lia.
    + (* stakeAsReviewer *)
      read_state. destruct (N.eq_dec a (msg_sender e)) as [->|Hne].
      * rewrite upd_same. right. reflexivity.
      * rewrite upd_other by exact Hne. apply IH.
  - apply IH.
Qed.

(** *** Creating a project and reading it back *)

Lemma createProject_loop_succeeds now amounts :
  forall descriptions deadlines i ms total,
    List.length descriptions = List.length amounts ->
    List.length deadlines = List.length amounts ->
    (forall d, In d deadlines -> now < d /\ d + AUTO_RELEASE_DELAY <= MAX_UINT256) ->
    total + Nsum amounts <= MAX_UINT256 ->
    exists ms',
      createProject_loop now i amounts descriptions deadlines ms total
      = Ok (ms', total + Nsum amounts).
Proof.
  induction amounts as [|a amounts IH];
    intros descriptions deadlines i ms total Hl1 Hl2 Hdue Hsum.
  - exists ms. cbn. now rewrite N.add_0_r.
  - destruct descriptions as [|text descriptions]; [discriminate Hl1|].
    destruct deadlines as [|due deadlines]; [discriminate Hl2|].
    cbn [List.length] in Hl1, Hl2. injection Hl1 as Hl1. injection Hl2 as Hl2.
    cbn [Nsum fold_right] in Hsum. fold (Nsum amounts) in Hsum.
    destruct (Hdue due (or_introl eq_refl)) as [Hfuture Hfits].
    cbn [createProject_loop]. apply N.ltb_lt in Hfuture. rewrite Hfuture.
    cbn [require bind]. rewrite checked_add_fits by exact Hfits. cbn [bind].
    rewrite checked_add_fits by lia. cbn [bind].
    match goal with
    | |- exists ms', createProject_loop _ _ _ _ _ ?m _ = _ =>
        destruct (IH descriptions deadlines (i + 1) m (total + a) Hl1 Hl2) as [ms' Hok]
    end.
    + intros d Hd. apply Hdue. now right.
    + lia.
    + exists ms'. rewrite Hok. cbn [Nsum fold_right]. fold (Nsum amounts).
      now rewrite N.add_assoc.
Qed.

Lemma createProject_loop_descriptions now amounts :
  forall descriptions deadlines i ms total ms' total',
    total <= MAX_UINT256 ->
    createProject_loop now i amounts descriptions deadlines ms total
    = Ok (ms', total') ->
    forall k, (k < List.length amounts)%nat ->
      description (ms' (i + N.of_nat k)) = nth k descriptions ""%string.
Proof.
  induction amounts as [|a amounts IH];
    intros descriptions deadlines i ms total ms' total' Htotal H k Hk.
  - cbn in Hk. lia.
  - cbn [createProject_loop] in H.
    destruct descriptions as [|text descriptions]; [discriminate H|].
    destruct deadlines as [|due deadlines]; [discriminate H|].
    ok_inv H. destruct k as [|k].
    + apply createProject_loop_ok in H; [|lia].
      destruct H as (_ & _ & Hframe & _).
      rewrite N.add_0_r, Hframe by lia. now rewrite upd_same.
    + replace (i + N.of_nat (S k)) with (i + 1 + N.of_nat k) by lia.
      cbn [nth]. eapply IH; [|exact H|cbn [List.length] in Hk; lia]. lia.
Qed.

(** X27. [createProject] succeeds whenever 2 to 8 amounts come with as
    many descriptions and deadlines, every deadline is in the future (and
    its auto-release time fits a [uint256]), and the sum of the amounts and
    the next project id fit a [uint256]; on a reachable state the project is
    then read back by [getProject] and [getMilestone] as it was given, with
    nothing released, every milestone [Pending] and no deliverable. *)
Theorem created_project_reads_back name text token amounts descriptions deadlines e s :
  reachable s ->
  2 <= len amounts -> len amounts <= 8 ->
  len amounts = len descriptions -> len descriptions = len deadlines ->
  (forall d, In d deadlines ->
     block_timestamp e < d /\ d + AUTO_RELEASE_DELAY <= MAX_UINT256) ->
  Nsum amounts <= MAX_UINT256 ->
  nextProjectId s + 1 <= MAX_UINT256 ->
  exists s',
    createProject name text token amounts descriptions deadlines e s
    = Ok (nextProjectId s, s') /\
    getProject (nextProjectId s) s'
    = (msg_sender e, name, token, Nsum amounts, 0, len amounts, true) /\
    forall k, (k < List.length amounts)%nat ->
      getMilestone (nextProjectId s) (N.of_nat k) s'
      = (nth k descriptions ""%string, nth k amounts 0, nth k deadlines 0,
         Pending, 0, ""%string).
Proof.
  intros Hreach Hmin Hmax Hl1 Hl2 Hdue Hsum Hnext.
  pose proof (reachable_Inv s Hreach) as HI.
  destruct (inv_fresh s HI (nextProjectId s) (N.le_refl _)) as (_ & _ & Hnone & Hz).
  assert (Hlen1 : List.length descriptions = List.length amounts)
    by (unfold len in Hl1; lia).
  assert (Hlen2 : List.length deadlines = List.length amounts)
    by (unfold len in Hl1, Hl2; lia).
  destruct (createProject_loop_succeeds (block_timestamp e) amounts descriptions
              deadlines 0 (milestones (projects s (nextProjectId s))) 0
              Hlen1 Hlen2 Hdue) as [ms Hloop]; [lia|].
  rewrite N.add_0_l in Hloop.
  eexists. split.
  - unfold createProject.
    apply N.leb_le in Hmin, Hmax. rewrite Hmin, Hmax. cbn [require bind].
    rewrite <- Hl2, <- Hl1, !N.eqb_refl. cbn [andb require bind].
    rewrite checked_add_fits by exact Hnext. cbn [bind].
    rewrite Hloop. cbn [bind fst snd]. reflexivity.
  - unfold getProject, getMilestone, milestone_of. read_state. rewrite upd_same.
    cbn [creator title fundingToken totalFunding releasedFunding milestoneCount
         active milestones].
    rewrite Hnone. split; [reflexivity|].
    intros k Hk.
    assert (H0 : 0 <= MAX_UINT256) by (unfold MAX_UINT256; lia).
    pose proof (createProject_loop_descriptions _ _ _ _ _ _ _ _ _ H0 Hloop k Hk)
      as Hd.
    destruct (createProject_loop_keeps _ _ _ _ _ _ _ _ _ Hloop (N.of_nat k))
      as (_ & Hh & _).
    apply createProject_loop_ok in Hloop; [|exact H0].
    destruct Hloop as (_ & _ & _ & Hw).
    destruct (Hw k Hk) as (Ha & Hdl & _ & Hs & _ & _ & _ & Hc).
    rewrite N.add_0_l in Hd, Ha, Hdl, Hs, Hc.
    unfold milestone_of in Hz. rewrite Hz in Hh, Hc. cbn in Hh, Hc.
    rewrite Hd, Ha, Hs, Hc, Hh.
    rewrite Hdl at 1. reflexivity.
Qed.

End WithTokens.

(** *** On the concrete execution of [FundingScenario] *)

Import MilestoneFunding.StandardToken FundingScenario.

Lemma submit_of_created :
  exec (Call_submitMilestone 1 0 "Qm01") (by_at founder 50) created = Ok submitted.
Proof. apply funding_exec_ok. by_computation. Qed.

(** The state after the release of the first milestone of the clinic. *)
Lemma release_of_funded :
  exists s',
    releaseMilestoneFunds 1 0 (by_at outsider after_delay) funded = Ok s'.
Proof. eexists. apply (ok_value_or funded). by_computation. Qed.

Lemma project_terms_are_fixed_witness :
  exec (Call_submitMilestone 1 0 "Qm01") (by_at founder 50) created = Ok submitted /\
  project_terms (projects submitted 1) = project_terms (projects created 1) /\
  milestone_terms (milestone_of submitted 1 0)
  = milestone_terms (milestone_of created 1 0).
Proof.
  split; [exact submit_of_created|].
  destruct (project_terms_are_fixed _ _ _ _ submit_of_created) as [_ Hterms].
  destruct (Hterms 1) as [Hp Hm]; [by_computation|].
  split; [exact Hp | apply Hm].
Defined.

Lemma tokens_move_only_as_called_witness :
  exists s' toCreator fee l1,
    releaseMilestoneFunds 1 0 (by_at outsider after_delay) funded = Ok s' /\
    toCreator + fee = fundingAmount (milestone_of funded 1 0) /\
    safeTransfer (fundingToken (projects funded 1)) (creator (projects funded 1))
      toCreator (ledger funded) = Ok l1 /\
    safeTransfer (fundingToken (projects funded 1)) (treasury funded) fee l1
    = Ok (ledger s').
Proof.
  destruct release_of_funded as [s' Hrel]. exists s'.
  destruct (tokens_move_only_as_called (Call_releaseMilestoneFunds 1 0)
              (by_at outsider after_delay) funded s' Hrel)
    as (toCreator & fee & l1 & Hsum & Hpay & Hcut).
  exists toCreator, fee, l1. auto.
Defined.

Lemma funded_behind_proxy : deployed_as BehindProxy funded.
Proof.
  unfold funded. apply deployed_as_tokens.
  unfold submitted.
  eapply deployed_as_step;
    [ | | apply funding_exec_ok; by_computation ];
    [ | valid_env_by_computation ].
  unfold created.
  eapply deployed_as_step;
    [ | | apply funding_exec_ok; by_computation ];
    [ | valid_env_by_computation ].
  apply deployed_as_init.
Qed.

Lemma release_fee_follows_deployment_witness :
  deployed_as BehindProxy funded /\
  platformFeeRate funded = 0 /\
  exists s' l1,
    releaseMilestoneFunds 1 0 (by_at outsider after_delay) funded = Ok s' /\
    safeTransfer (fundingToken (projects funded 1)) (creator (projects funded 1))
      (fundingAmount (milestone_of funded 1 0)) (ledger funded) = Ok l1 /\
    safeTransfer (fundingToken (projects funded 1)) (treasury funded) 0 l1
    = Ok (ledger s').
Proof.
  split; [exact funded_behind_proxy|].
  destruct release_of_funded as [s' Hrel].
  destruct (release_fee_follows_deployment BehindProxy funded 1 0
              (by_at outsider after_delay) s' funded_behind_proxy Hrel)
    as (Hrate & l1 & Hpay & Hcut).
  split; [exact Hrate|]. exists s', l1. auto.
Defined.

Lemma stake_is_permanent_witness :
  stake_active (reviewerStakes staked 11) = true /\
  stakeAsReviewer (by_at 11 70) staked
  = Revert (RequireFailed "Already active reviewer").
Proof.
  assert (Hactive : stake_active (reviewerStakes staked 11) = true)
    by by_computation.
  split; [exact Hactive|].
  destruct (stake_is_permanent staked 11 Hactive) as [_ Hagain].
  apply Hagain. reflexivity.
Defined.

Lemma released_within_total_witness :
  reachable released /\
  releasedFunding (projects released 1) <= totalFunding (projects released 1).
Proof.
  split; [exact released_reachable|].
  apply (released_within_total released 1 released_reachable).
Defined.

Lemma status_moves_forward_witness :
  reachable created /\
  (status (milestone_of submitted 1 0) = status (milestone_of created 1 0) \/
   (status (milestone_of created 1 0) = Pending /\
    status (milestone_of submitted 1 0) = InReview /\
    msg_sender (by_at founder 50) = creator (projects created 1) /\
    exists h, Call_submitMilestone 1 0 "Qm01" = Call_submitMilestone 1 0 h) \/
   (status (milestone_of created 1 0) = InReview /\
    status (milestone_of submitted 1 0) = Released /\
    deadline (milestone_of created 1 0) + AUTO_RELEASE_DELAY
    < block_timestamp (by_at founder 50) /\
    Call_submitMilestone 1 0 "Qm01" = Call_releaseMilestoneFunds 1 0)).
Proof.
  split; [exact created_reachable|].
  apply (status_moves_forward _ (by_at founder 50) created submitted 1 0
           created_reachable).
  - valid_env_by_computation.
  - exact submit_of_created.
Defined.

Lemma milestone_index_is_not_checked_witness :
  reachable created /\
  milestoneCount (projects created 1) <= 7 /\
  exists s',
    submitMilestone 1 7 "Qm07" (by_at founder 60) created = Ok s' /\
    status (milestone_of s' 1 7) = InReview /\
    milestoneCount (projects s' 1) = milestoneCount (projects created 1).
Proof.
  assert (Hbeyond : milestoneCount (projects created 1) <= 7) by by_computation.
  split; [exact created_reachable|]. split; [exact Hbeyond|].
  destruct (milestone_index_is_not_checked created 1 7 created_reachable Hbeyond)
    as (_ & _ & Hsubmit).
  apply Hsubmit; by_computation.
Defined.

Lemma submission_is_final_witness :
  reachable submitted /\
  status (milestone_of submitted 1 0) <> Pending /\
  is_ok (submitMilestone 1 0 "Qm09" (by_at founder 70) submitted) = false.
Proof.
  assert (Hleft : status (milestone_of submitted 1 0) <> Pending) by by_computation.
  split; [exact submitted_reachable|]. split; [exact Hleft|].
  destruct (submission_is_final submitted 1 0 submitted_reachable Hleft)
    as [_ Hagain].
  apply Hagain.
Defined.

Lemma projects_are_registered_in_order_witness :
  reachable created /\
  registry_in_order created /\
  fundProject 2 10 (by_at outsider 20) created
  = Revert (RequireFailed "Project not active").
Proof.
  split; [exact created_reachable|].
  destruct (projects_are_registered_in_order created created_reachable)
    as [Hreg Hfund].
  split; [exact Hreg|]. apply Hfund. right. by_computation.
Defined.

Lemma created_project_reads_back_witness :
  reachable deployed /\
  exists s',
    createProject "Clinic" "Three stages" funding_token [50; 30; 10]
      ["Plan"; "Build"; "Open"]%string [100; 200; 300] (by_at founder 10) deployed
    = Ok (nextProjectId deployed, s') /\
    getProject (nextProjectId deployed) s'
    = (msg_sender (by_at founder 10), "Clinic"%string, funding_token,
       Nsum [50; 30; 10], 0, len [50; 30; 10], true).
Proof.
  split; [apply reachable_init|].
  assert (Hmin : 2 <= len [50; 30; 10]) by by_computation.
  assert (Hmax : len [50; 30; 10] <= 8) by by_computation.
  assert (Hl1 : len [50; 30; 10] = len ["Plan"; "Build"; "Open"]%string)
    by reflexivity.
  assert (Hl2 : len ["Plan"; "Build"; "Open"]%string = len [100; 200; 300])
    by reflexivity.
  assert (Hdue : forall d, In d [100; 200; 300] ->
            block_timestamp (by_at founder 10) < d /\
            d + AUTO_RELEASE_DELAY <= MAX_UINT256)
    by (intros d [<- | [<- | [<- | []]]]; split; by_computation).
  assert (Hsum : Nsum [50; 30; 10] <= MAX_UINT256) by by_computation.
  assert (Hnext : nextProjectId deployed + 1 <= MAX_UINT256) by by_computation.
  destruct (created_project_reads_back "Clinic" "Three stages" funding_token
              [50; 30; 10] ["Plan"; "Build"; "Open"]%string [100; 200; 300]
              (by_at founder 10) deployed (reachable_init _ _ _ _ _)
              Hmin Hmax Hl1 Hl2 Hdue Hsum Hnext)
    as (s' & Hok & Hread & _).
  exists s'. split; [exact Hok | exact Hread].
Defined.

Lemma stakes_are_as_written_witness :
  reachable staked /\ stake_as_written (reviewerStakes staked 11).
Proof.
  split; [exact staked_reachable|].
  apply stakes_are_as_written, staked_reachable.
Defined.

End FundingExtras.
